(** * VMAX API: authentication, authorization predicates and realtime hub

    A shallow embedding of the session-security core of the VMAX API
    (token codec, refresh-token ledger, auth orchestrator, authorization
    predicates, WebSocket subscription hub) and the properties its
    specification states about it.

    Conventions of the embedding.
    - Wall-clock time is explicit, in milliseconds since the epoch, as
      [Date.now()] returns it.  Every reading of the clock that is compared
      with something, or that enters a token or an expiry time, is an
      argument of the call that makes it: [jwt.verify], each [jwt.sign],
      [Date.now()] and the [new Date()] of an expiry test read the clock
      one after the other.  A reading that only stamps a row ([revokedAt],
      [usedAt], [lastLoginAt], [createdAt]: the code tests these columns
      for null at most) is written as the last of those before it.
    - Values produced by [uuidv4()] and by the random generators are
      arguments of the call that consumes them.
    - Cryptography is symbolic: a signed token is the structure that was
      signed together with the key, a digest is the value that was hashed.
    - A database table is the list of its rows in insertion order; the
      primary key of a ledger row is its position; a column holds the
      value it is given (the precision of a date column is not modelled).  The ledger has no
      unique index on the digest and [findOne] no ORDER BY: which of the
      matching ledger rows a query returns is the choice of the database,
      an argument [pick] of the call.  On the user table the columns of the
      queries are unique (the primary key, the e-mail), and a reset record
      is looked up by the digest of a fresh random token: there [findOne]
      is written as the first match.
    - An untyped JavaScript value (a field of a parsed JSON message, an
      optional claim of a token) is a [JsValue].
    - A JavaScript number is a double.  Times and lifetimes are added and
      compared as the integers they are: they are taken to be in the range
      of a [Date], where doubles are exact; [parseExpiry] and the printing
      of a number in a template literal are written with the rounding of
      doubles. *)

From Stdlib Require Import ZArith Ascii String DecimalString.
From stdpp Require Import base option list strings gmap.

Local Open Scope Z_scope.

(* ===================================================================== *)
(** ** JavaScript numbers                                                  *)
(* ===================================================================== *)

(** The integer-valued doubles, each written as the integer it is.  The
    exponent range of a double is not modelled: an integer of more than 308
    digits, which JavaScript computes as [Infinity], stays an integer. *)
Module Number.
(** The double nearest to the integer [n]: 53 significant bits, rounded to
    nearest, ties to the even significand. *)
Definition round (n : Z) : Z :=
  let m := Z.abs n in
  let e := Z.log2 m - 52 in
  if e <=? 0 then n
  else
    let q := m / 2 ^ e in
    let r := m mod 2 ^ e in
    let half := 2 ^ (e - 1) in
    let q' := if (half <? r) || ((r =? half) && Z.odd q) then q + 1 else q in
    Z.sgn n * (q' * 2 ^ e).

(** [a * b] on two such doubles. *)
Definition mul (a b : Z) : Z := round (a * b).

(** The decimal digits of an integer. *)
Definition decimal (n : Z) : string := NilZero.string_of_int (Z.to_int n).

Fixpoint zeros (k : nat) : string :=
  match k with
  | O => EmptyString
  | S k => String "0" (zeros k)
  end.

(** The shortest decimal that reads back as the double [x], a positive
    integer of [d] digits: the least [k] from [k] on, and for it the [s] of
    [k] digits, such that [s * 10 ^ (n - k)] rounds to [x], with [n] the
    number of digits of that product; of two such [s] the one nearer to
    [x].  The result is [(s, n)]. *)
Fixpoint shortest (fuel : nat) (k x d : Z) : Z * Z :=
  match fuel with
  | O => (x, d)
  | S fuel =>
      let scale := 10 ^ (d - k) in
      let lo := x / scale in
      let hi := lo + 1 in
      let up := if hi =? 10 ^ k then (1, d + 1) else (hi, d) in
      let okLo := round (lo * scale) =? x in
      let okHi := round (hi * scale) =? x in
      if okLo && okHi then
        if x - lo * scale <? hi * scale - x then (lo, d)
        else if hi * scale - x <? x - lo * scale then up
        else if Z.even lo then (lo, d) else up
      else if okLo then (lo, d)
      else if okHi then up
      else shortest fuel (k + 1) x d
  end.

(** [Number::toString] on an integer-valued double, as a template literal
    applies it: the shortest decimal that reads back as the number, its
    digits followed by zeros up to 21 digits, in exponent notation from
    [1e21] on.  Below [2 ^ 53] every integer is a double and its shortest
    decimal is its own. *)
Definition toString (n : Z) : string :=
  let x := Z.abs (round n) in
  if x <? 2 ^ 53 then decimal n
  else
    let d := Z.of_nat (String.length (decimal x)) in
    let '(s, n10) := shortest (Z.to_nat d) 1 x d in
    let digits := decimal s in
    let k := Z.of_nat (String.length digits) in
    (if n <? 0 then "-" else "")
    +:+ (if n10 <=? 21 then digits +:+ zeros (Z.to_nat (n10 - k))
         else
           match digits with
           | EmptyString => EmptyString
           | String first EmptyString => String first EmptyString +:+ "e+" +:+ decimal (n10 - 1)
           | String first rest =>
               String first EmptyString +:+ "." +:+ rest +:+ "e+" +:+ decimal (n10 - 1)
           end).
End Number.

(* ===================================================================== *)
(** ** JavaScript values                                                   *)
(* ===================================================================== *)

(** The primitive values a parsed JSON field can hold.  Numbers are
    restricted to integers ([JsNumber n] is the double [JSON.parse] makes of
    the integer literal [n]: on the integers that are doubles, this is [n]
    itself); arrays and objects are not modelled. *)
Inductive JsValue :=
| JsUndefined
| JsNull
| JsBool (b : bool)
| JsNumber (n : Z)
| JsString (s : string).

#[global] Instance JsValue_eq_dec : EqDecision JsValue.
Proof. solve_decision. Defined.

Definition JsValue_encode (v : JsValue) : unit + unit + bool + Z + string :=
  match v with
  | JsUndefined => inl (inl (inl (inl tt)))
  | JsNull => inl (inl (inl (inr tt)))
  | JsBool b => inl (inl (inr b))
  | JsNumber n => inl (inr n)
  | JsString s => inr s
  end.

Definition JsValue_decode (x : unit + unit + bool + Z + string) : JsValue :=
  match x with
  | inl (inl (inl (inl _))) => JsUndefined
  | inl (inl (inl (inr _))) => JsNull
  | inl (inl (inr b)) => JsBool b
  | inl (inr n) => JsNumber n
  | inr s => JsString s
  end.

#[global] Instance JsValue_countable : Countable JsValue.
Proof.
  apply (inj_countable' JsValue_encode JsValue_decode).
  intros []; reflexivity.
Defined.

(** [if (v)], [a && b], [a || b]: the truthiness of a value. *)
Definition truthy (v : JsValue) : bool :=
  match v with
  | JsUndefined | JsNull => false
  | JsBool b => b
  | JsNumber n => negb (n =? 0)
  | JsString s => negb (String.eqb s "")
  end.

(** The string a value contributes to a template literal [`${v}`]. *)
Definition toString (v : JsValue) : string :=
  match v with
  | JsUndefined => "undefined"
  | JsNull => "null"
  | JsBool true => "true"
  | JsBool false => "false"
  | JsNumber n => Number.toString n
  | JsString s => s
  end.

(** [a === b] on primitive values. *)
Definition strict_eq (a b : JsValue) : bool := bool_decide (a = b).

(** [s || null] for an optional string argument. *)
Definition orNull (s : option string) : JsValue :=
  match s with
  | Some s => if String.eqb s "" then JsNull else JsString s
  | None => JsNull
  end.

(** [str.startsWith(prefix)] *)
Fixpoint startsWith (prefix str : string) : bool :=
  match prefix, str with
  | EmptyString, _ => true
  | String a p, String b s => if Ascii.eqb a b then startsWith p s else false
  | String _ _, EmptyString => false
  end.

(** [str.replace(prefix, '')] when [str] starts with [prefix]: the first
    occurrence is the prefix itself. *)
Fixpoint dropPrefix (prefix str : string) : string :=
  match prefix, str with
  | String _ p, String _ s => dropPrefix p s
  | _, _ => str
  end.

(* ===================================================================== *)
(** ** types/index.ts                                                      *)
(* ===================================================================== *)

Inductive UserRole :=
| ADMIN | SUB_ADMIN | FLEET_MGR | SUB_FLEET_MGR
| FLEET_USER | REG_OWNER | ONBOARDING | UNIT_TESTER.

#[global] Instance UserRole_eq_dec : EqDecision UserRole.
Proof. solve_decision. Defined.

(** [roles.includes(role)] *)
Definition includes (roles : list UserRole) (role : option UserRole) : bool :=
  match role with
  | Some r => bool_decide (r ∈ roles)
  | None => false
  end.

(** The object a verified token decodes to.  [JwtPayload] and
    [RefreshTokenPayload] are two static views of it: the casts
    [as JwtPayload] and [as RefreshTokenPayload] check nothing, so a field
    the token does not carry reads as absent ([None], [JsUndefined]). *)
Module Claims.
Record t := mk {
  sub : string;
  userId : string;
  role : option UserRole;
  fleetId : JsValue;
  ownedRegulatorIds : option (list string);
  jti : option string;
  tokenFamily : option string;
  iat : Z;
  exp : Z
}.
End Claims.

Abbreviation JwtPayload := Claims.t.
Abbreviation RefreshTokenPayload := Claims.t.

#[global] Instance Claims_eq_dec : EqDecision Claims.t.
Proof. solve_decision. Defined.

(** A raw token string as a client presents it: the compact serialisation
    of claims signed with a key, or any other string. *)
Inductive RawToken :=
| Compact (claims : Claims.t) (key : string)
| Opaque (s : string).

#[global] Instance RawToken_eq_dec : EqDecision RawToken.
Proof. solve_decision. Defined.

(** What a service call throws: an [AppError], or any other [Error]. *)
Inductive Exception :=
| AppError (message : string) (statusCode : Z) (code : string)
| Error (message : string).

Inductive Outcome (A : Type) :=
| Returns (a : A)
| Throws (e : Exception).
Arguments Returns {A} a.
Arguments Throws {A} e.

Definition failed {A} (o : Outcome A) : Prop :=
  match o with Returns _ => False | Throws _ => True end.

(* ===================================================================== *)
(** ** config/index.ts                                                     *)
(* ===================================================================== *)

Module Config.
Record ProcessEnv := {
  JWT_SECRET : option string;
  JWT_ACCESS_TOKEN_EXPIRY : option string;
  JWT_REFRESH_TOKEN_EXPIRY : option string
}.

Record Jwt := {
  secret : string;
  accessTokenExpiry : string;
  refreshTokenExpiry : string
}.

(** [process.env.X || fallback] *)
Definition orDefault (v : option string) (fallback : string) : string :=
  match v with
  | Some s => if String.eqb s "" then fallback else s
  | None => fallback
  end.

Definition config (env : ProcessEnv) : Jwt :=
  {| secret := orDefault (JWT_SECRET env) "default-secret-change-me";
     accessTokenExpiry := orDefault (JWT_ACCESS_TOKEN_EXPIRY env) "15m";
     refreshTokenExpiry := orDefault (JWT_REFRESH_TOKEN_EXPIRY env) "7d" |}.

Definition digit (c : ascii) : option Z :=
  let n := Z.of_nat (nat_of_ascii c) in
  if (48 <=? n) && (n <=? 57) then Some (n - 48) else None.

(** The [switch (unit)]: the products are products of doubles, each rounded
    in its turn. *)
Definition unit (c : ascii) (value : Z) : option Z :=
  if Ascii.eqb c "s" then Some value
  else if Ascii.eqb c "m" then Some (Number.mul value 60)
  else if Ascii.eqb c "h" then Some (Number.mul (Number.mul value 60) 60)
  else if Ascii.eqb c "d" then
    Some (Number.mul (Number.mul (Number.mul value 60) 60) 24)
  else None.

(** The match of [/^(\d+)([smhd])$/]: digits, at least one, then one unit
    letter, then the end of the string.  [value] is the integer that the
    digits read so far write; [parseInt(match[1], 10)] is the double nearest
    to the integer that all of them write. *)
Fixpoint parseExpiry_from (seen : bool) (value : Z) (expiry : string) : option Z :=
  match expiry with
  | EmptyString => None
  | String c rest =>
      match rest with
      | EmptyString => if seen then unit c (Number.round value) else None
      | String _ _ =>
          match digit c with
          | Some d => parseExpiry_from true (value * 10 + d) rest
          | None => None
          end
      end
  end.

(** [None] stands for the thrown [Invalid expiry format] error. *)
Definition parseExpiry (expiry : string) : option Z :=
  parseExpiry_from false 0 expiry.

Definition getAccessTokenExpirySeconds (config : Jwt) : option Z :=
  parseExpiry (accessTokenExpiry config).

Definition getRefreshTokenExpirySeconds (config : Jwt) : option Z :=
  parseExpiry (refreshTokenExpiry config).
End Config.

(* ===================================================================== *)
(** ** utils/jwt.ts                                                        *)
(* ===================================================================== *)

Module Jwt.
Inductive VerifyError := JsonWebTokenError | TokenExpiredError.

(** [jwt.sign(payload, secret, { expiresIn })] at time [now]: the library
    stamps [iat] with the current second and [exp] with [iat + expiresIn]
    (the payload handed to it has neither; the two fields of [payload] are
    not read).  Nothing else enters the token: the same payload signed twice
    within one second gives the same token. *)
Definition sign (payload : Claims.t) (secret : string) (expiresIn now : Z) : RawToken :=
  let iat := now / 1000 in
  Compact {| Claims.sub := Claims.sub payload;
             Claims.userId := Claims.userId payload;
             Claims.role := Claims.role payload;
             Claims.fleetId := Claims.fleetId payload;
             Claims.ownedRegulatorIds := Claims.ownedRegulatorIds payload;
             Claims.jti := Claims.jti payload;
             Claims.tokenFamily := Claims.tokenFamily payload;
             Claims.iat := iat;
             Claims.exp := iat + expiresIn |} secret.

(** [jwt.verify(token, secret)] at time [now]: the signature first, then
    the expiry ([now >= exp] in seconds is expired). *)
Definition verify (token : RawToken) (secret : string) (now : Z) : VerifyError + Claims.t :=
  match token with
  | Opaque _ => inl JsonWebTokenError
  | Compact claims key =>
      if bool_decide (key = secret) then
        if Claims.exp claims <=? now / 1000 then inl TokenExpiredError
        else inr claims
      else inl JsonWebTokenError
  end.

(** The pair [generateTokenPair] returns. *)
Record TokenPair := {
  accessToken : RawToken;
  refreshToken : RawToken;
  tokenFamily : string;
  accessTokenExpiresIn : Z;
  refreshTokenExpiresAt : Z
}.

(** The three readings of the clock that one [generateTokenPair] makes, in
    the order it makes them: [jwt.sign] for the access token, [jwt.sign]
    for the refresh token, then [Date.now()]. *)
Record Clock := {
  accessSignedAt : Z;
  refreshSignedAt : Z;
  dateNow : Z
}.

(** The three readings when the clock does not advance between them. *)
Definition once (now : Z) : Clock :=
  {| accessSignedAt := now; refreshSignedAt := now; dateNow := now |}.

(** The clock does not run backwards between the readings. *)
Definition ordered (clock : Clock) : Prop :=
  accessSignedAt clock <= refreshSignedAt clock /\ refreshSignedAt clock <= dateNow clock.

Section WithConfig.
Variable config : Config.Jwt.

(** [jti] is the value [uuidv4()] returns; the result is [None] when
    [parseExpiry] throws. *)
Definition generateAccessToken (userId email : string) (role : UserRole)
    (fleetId : option string) (ownedRegulatorIds : option (list string))
    (jti : string) (now : Z) : option RawToken :=
  let payload :=
    {| Claims.sub := email;
       Claims.userId := userId;
       Claims.role := Some role;
       Claims.fleetId := orNull fleetId;
       Claims.ownedRegulatorIds := Some (default [] ownedRegulatorIds);
       Claims.jti := Some jti;
       Claims.tokenFamily := None;
       Claims.iat := 0;
       Claims.exp := 0 |} in
  expiresIn ← Config.getAccessTokenExpirySeconds config;
  Some (sign payload (Config.secret config) expiresIn now).

(** [tokenFamily || uuidv4()]: [uuid] is what [uuidv4()] returns when
    it is called. *)
Definition familyOr (tokenFamily : option string) (uuid : string) : string :=
  match tokenFamily with
  | Some f => if String.eqb f "" then uuid else f
  | None => uuid
  end.

Definition generateRefreshToken (userId email : string) (tokenFamily : option string)
    (uuid : string) (now : Z) : option (RawToken * string) :=
  let family := familyOr tokenFamily uuid in
  let payload :=
    {| Claims.sub := email;
       Claims.userId := userId;
       Claims.role := None;
       Claims.fleetId := JsUndefined;
       Claims.ownedRegulatorIds := None;
       Claims.jti := None;
       Claims.tokenFamily := Some family;
       Claims.iat := 0;
       Claims.exp := 0 |} in
  expiresIn ← Config.getRefreshTokenExpirySeconds config;
  Some (sign payload (Config.secret config) expiresIn now, family).

Definition generateTokenPair (userId email : string) (role : UserRole)
    (fleetId : option string) (ownedRegulatorIds : option (list string))
    (existingTokenFamily : option string)
    (jti uuid : string) (clock : Clock) : option TokenPair :=
  accessToken ← generateAccessToken userId email role fleetId ownedRegulatorIds jti
                  (accessSignedAt clock);
  '(refreshToken, tokenFamily) ← generateRefreshToken userId email existingTokenFamily uuid
                                   (refreshSignedAt clock);
  accessTokenExpiresIn ← Config.getAccessTokenExpirySeconds config;
  seconds ← Config.getRefreshTokenExpirySeconds config;
  Some {| accessToken := accessToken;
          refreshToken := refreshToken;
          tokenFamily := tokenFamily;
          accessTokenExpiresIn := accessTokenExpiresIn;
          refreshTokenExpiresAt := dateNow clock + seconds * 1000 |}.

Definition verifyAccessToken (token : RawToken) (now : Z) : VerifyError + JwtPayload :=
  verify token (Config.secret config) now.

Definition verifyRefreshToken (token : RawToken) (now : Z) : VerifyError + RefreshTokenPayload :=
  verify token (Config.secret config) now.
End WithConfig.

End Jwt.


(* ===================================================================== *)
(** ** utils/password.ts                                                   *)
(* ===================================================================== *)

Module Password.
(** Modelled from the spec: [utils/password.ts] is not among the sources.
    The digest of a token (SHA-256 there) is the symbolic term [Sha256]
    over the hashed string, so that equal digests come from equal tokens. *)
Inductive Digest := Sha256 (input : RawToken).

(** Modelled from the spec: [hashToken], the digest stored in place of a raw
    token. *)
Definition hashToken (token : RawToken) : Digest := Sha256 token.

(** Modelled from the spec: a stored password hash, the symbolic term of a
    salted one-way hash of the plain password. *)
Inductive PasswordHash := Bcrypt (salt password : string).

(** Modelled from the spec: [hashPassword]; [salt] is the random salt the
    hashing draws. *)
Definition hashPassword (password salt : string) : PasswordHash :=
  Bcrypt salt password.

(** Modelled from the spec: [verifyPassword], the password-hash
    verification outcome. *)
Definition verifyPassword (password : string) (hash : PasswordHash) : bool :=
  match hash with Bcrypt _ p => String.eqb password p end.

(** Modelled from the spec: [generateRandomToken], a random token that is
    not a claims token; [hex] is the random string drawn. *)
Definition generateRandomToken (hex : string) : RawToken := Opaque hex.

Definition code (c : ascii) : Z := Z.of_nat (nat_of_ascii c).
Definition isUpper (c : ascii) : bool := (65 <=? code c) && (code c <=? 90).
Definition isLower (c : ascii) : bool := (97 <=? code c) && (code c <=? 122).
Definition isDigit (c : ascii) : bool := (48 <=? code c) && (code c <=? 57).

(** The special-character set of the request validators
    ([middleware/validation.ts], [passwordValidation]); the double quote is
    given by its character code. *)
Definition specialCharacters : list ascii :=
  list_ascii_of_string "!@#$%^&*()_+-=[]{};':"
  ++ [ascii_of_nat 34]
  ++ list_ascii_of_string "\|,.<>/?".

Definition isSpecial (c : ascii) : bool := bool_decide (c ∈ specialCharacters).

Definition contains (class : ascii -> bool) (password : string) : bool :=
  existsb class (list_ascii_of_string password).

Record PasswordValidation := { valid : bool; errors : list string }.

(** [if (violated) errors.push(message)] *)
Definition pushIf (violated : bool) (message : string) (errors : list string) : list string :=
  if violated then errors ++ [message] else errors.

Definition strlen (s : string) : Z := Z.of_nat (String.length s).

(** Modelled from the spec: [validatePasswordStrength] is not among the
    sources.  The policy is the one the specification gives (8 to 128
    characters, an uppercase letter, a lowercase letter, a digit, a special
    character), every violated rule adding its message; the messages are
    those its unit tests expect, the one for the upper bound is named after
    them. *)
Definition validatePasswordStrength (password : string) : PasswordValidation :=
  let errors := [] in
  let errors := pushIf (strlen password <? 8)
                  "Password must be at least 8 characters long" errors in
  let errors := pushIf (128 <? strlen password)
                  "Password must be at most 128 characters long" errors in
  let errors := pushIf (negb (contains isUpper password))
                  "Password must contain at least one uppercase letter" errors in
  let errors := pushIf (negb (contains isLower password))
                  "Password must contain at least one lowercase letter" errors in
  let errors := pushIf (negb (contains isDigit password))
                  "Password must contain at least one number" errors in
  let errors := pushIf (negb (contains isSpecial password))
                  "Password must contain at least one special character" errors in
  {| valid := bool_decide (errors = []); errors := errors |}.

(** [errors.join('. ')] *)
Fixpoint join (sep : string) (parts : list string) : string :=
  match parts with
  | [] => ""
  | [p] => p
  | p :: rest => p +:+ sep +:+ join sep rest
  end.
End Password.

#[global] Instance Digest_eq_dec : EqDecision Password.Digest.
Proof. solve_decision. Defined.

(* ===================================================================== *)
(** ** utils/response.ts: the error responses                              *)
(* ===================================================================== *)

Module Response.
(** The status of an error response and the [error] member of its body
    (the [meta] member, a timestamp and a request id, is left out). *)
Record t := {
  statusCode : Z;
  code : string;
  message : string;
  details : option (list (string * string))
}.

Definition errorResponse (code message : string) (statusCode : Z)
    (details : option (list (string * string))) : t :=
  {| statusCode := statusCode; code := code; message := message; details := details |}.

Definition badRequest (message : string) (details : option (list (string * string))) : t :=
  errorResponse "BAD_REQUEST" message 400 details.

Definition unauthorized (message : string) : t :=
  errorResponse "UNAUTHORIZED" message 401 None.

Definition forbidden (message : string) : t :=
  errorResponse "FORBIDDEN" message 403 None.

Definition notFound (message : string) : t :=
  errorResponse "NOT_FOUND" message 404 None.

Definition conflict (message : string) : t :=
  errorResponse "CONFLICT" message 409 None.
End Response.

(* ===================================================================== *)
(** ** middleware/auth.ts: the authorization predicates                    *)
(* ===================================================================== *)

(** A [string | null] argument as the value it is at run time. *)
Definition nullable (s : option string) : JsValue :=
  match s with Some s => JsString s | None => JsNull end.

Module Auth.
(** [user.role === role] *)
Definition roleIs (user : JwtPayload) (role : UserRole) : bool :=
  bool_decide (Claims.role user = Some role).

Definition canAccessFleet (user : JwtPayload) (fleetId : string) : bool :=
  if roleIs user ADMIN || roleIs user SUB_ADMIN then true
  else if (roleIs user FLEET_MGR || roleIs user SUB_FLEET_MGR)
          && strict_eq (Claims.fleetId user) (JsString fleetId) then true
  else false.

Definition canAccessRegulator (user : JwtPayload)
    (regulatorFleetId regulatorOwnerId : option string) : bool :=
  if roleIs user ADMIN || roleIs user SUB_ADMIN then true
  else if (roleIs user FLEET_MGR || roleIs user SUB_FLEET_MGR)
          && truthy (nullable regulatorFleetId)
          && strict_eq (Claims.fleetId user) (nullable regulatorFleetId) then true
  else if roleIs user FLEET_USER
          && truthy (nullable regulatorFleetId)
          && strict_eq (Claims.fleetId user) (nullable regulatorFleetId) then true
  else if roleIs user REG_OWNER
          && strict_eq (nullable regulatorOwnerId) (JsString (Claims.userId user)) then true
  else false.

Definition canManageUser (requestingUser : JwtPayload) (targetUserRole : UserRole)
    (targetUserFleetId : option string) : bool :=
  if roleIs requestingUser ADMIN then true
  else if roleIs requestingUser FLEET_MGR then
    let fleetRoles := [FLEET_USER; SUB_FLEET_MGR] in
    includes fleetRoles (Some targetUserRole)
    && strict_eq (Claims.fleetId requestingUser) (nullable targetUserFleetId)
  else false.

(** The request as a middleware of this file sees it: the [Authorization]
    header as the pieces [authHeader.split(' ')] yields ([None] when the
    header is absent; the empty header splits into the one piece
    [Opaque ""]), and [req.user]. *)
Record Request := {
  authorization : option (list RawToken);
  user : option JwtPayload
}.

(** What a middleware does with a request: it calls [next()], possibly
    after writing [req.user], or it answers and the chain stops. *)
Inductive Handled :=
| Next (req : Request)
| Answered (res : Response.t).

Definition authenticate (config : Config.Jwt) (req : Request) (now : Z) : Handled :=
  let invalidFormat :=
    Answered (Response.unauthorized "Invalid authorization header format") in
  match authorization req with
  | None | Some [Opaque ""] =>
      Answered (Response.unauthorized "No authorization header provided")
  | Some [scheme; token] =>
      if bool_decide (scheme = Opaque "Bearer") then
        match Jwt.verifyAccessToken config token now with
        | inr payload =>
            Next {| authorization := authorization req; user := Some payload |}
        | inl Jwt.TokenExpiredError =>
            Answered (Response.unauthorized "Token has expired")
        | inl Jwt.JsonWebTokenError =>
            Answered (Response.unauthorized "Invalid token")
        end
      else invalidFormat
  | Some _ => invalidFormat
  end.

Definition requireRoles (allowedRoles : list UserRole) (req : Request) : Handled :=
  match user req with
  | None => Answered (Response.unauthorized "Not authenticated")
  | Some user =>
      if negb (includes allowedRoles (Claims.role user)) then
        Answered (Response.forbidden "Insufficient permissions")
      else Next req
  end.

Definition requireAdmin : Request -> Handled := requireRoles [ADMIN].

Definition requireAdminOrSubAdmin : Request -> Handled := requireRoles [ADMIN; SUB_ADMIN].

Definition requireFleetManager : Request -> Handled := requireRoles [ADMIN; FLEET_MGR].

Definition requireFleetAccess : Request -> Handled :=
  requireRoles [ADMIN; SUB_ADMIN; FLEET_MGR; SUB_FLEET_MGR].
End Auth.

(* ===================================================================== *)
(** ** models: the tables the auth service reads and writes                *)
(* ===================================================================== *)

Module UserPublic.
Record t := {
  id : string;
  email : string;
  role : UserRole;
  fleetId : option string;
  firstName : string;
  lastName : string;
  phoneNumber : option string;
  createdAt : Z;
  lastLoginAt : option Z
}.
End UserPublic.

Module User.
Record t := {
  id : string;
  email : string;
  passwordHash : Password.PasswordHash;
  role : UserRole;
  fleetId : option string;
  firstName : string;
  lastName : string;
  phoneNumber : option string;
  isActive : bool;
  createdAt : Z;
  lastLoginAt : option Z;
  deletedAt : option Z
}.

Definition toPublic (this : t) : UserPublic.t :=
  {| UserPublic.id := id this;
     UserPublic.email := email this;
     UserPublic.role := role this;
     UserPublic.fleetId := fleetId this;
     UserPublic.firstName := firstName this;
     UserPublic.lastName := lastName this;
     UserPublic.phoneNumber := phoneNumber this;
     UserPublic.createdAt := createdAt this;
     UserPublic.lastLoginAt := lastLoginAt this |}.

Definition setLastLoginAt (at_ : Z) (u : t) : t :=
  {| id := id u; email := email u; passwordHash := passwordHash u; role := role u;
     fleetId := fleetId u; firstName := firstName u; lastName := lastName u;
     phoneNumber := phoneNumber u; isActive := isActive u; createdAt := createdAt u;
     lastLoginAt := Some at_; deletedAt := deletedAt u |}.

Definition setPasswordHash (h : Password.PasswordHash) (u : t) : t :=
  {| id := id u; email := email u; passwordHash := h; role := role u;
     fleetId := fleetId u; firstName := firstName u; lastName := lastName u;
     phoneNumber := phoneNumber u; isActive := isActive u; createdAt := createdAt u;
     lastLoginAt := lastLoginAt u; deletedAt := deletedAt u |}.
End User.

(** The columns of a regulator the auth service reads. *)
Module Regulator.
Record t := {
  id : string;
  ownerUserId : option string;
  isActive : bool
}.
End Regulator.

(** A row of the session ledger ([refresh_tokens]). *)
Module RefreshToken.
Record t := {
  userId : string;
  tokenHash : Password.Digest;
  tokenFamily : string;
  expiresAt : Z;
  revokedAt : option Z;
  createdAt : Z
}.

Definition setRevokedAt (at_ : Z) (r : t) : t :=
  {| userId := userId r; tokenHash := tokenHash r; tokenFamily := tokenFamily r;
     expiresAt := expiresAt r; revokedAt := Some at_; createdAt := createdAt r |}.
End RefreshToken.

Module PasswordReset.
Record t := {
  userId : string;
  tokenHash : Password.Digest;
  expiresAt : Z;
  usedAt : option Z
}.

Definition setUsedAt (at_ : Z) (r : t) : t :=
  {| userId := userId r; tokenHash := tokenHash r;
     expiresAt := expiresAt r; usedAt := Some at_ |}.
End PasswordReset.

Record Db := {
  users : list User.t;
  regulators : list Regulator.t;
  refreshTokens : list RefreshToken.t;
  passwordResets : list PasswordReset.t
}.

(** A service call: it reads and writes the tables and returns or throws;
    what it wrote before throwing stays written. *)
Definition Service (A : Type) : Type := Db -> Outcome A * Db.

Definition ret {A} (a : A) : Service A := fun db => (Returns a, db).

Definition throw {A} (e : Exception) : Service A := fun db => (Throws e, db).

Definition bind {A B} (m : Service A) (k : A -> Service B) : Service B :=
  fun db =>
    match m db with
    | (Returns a, db') => k a db'
    | (Throws e, db') => (Throws e, db')
    end.

Notation "'await' x <- m ; k" := (bind m (fun x => k))
  (at level 10, x name, m at level 100, k at level 200).
Notation "'perform' m ; k" := (bind m (fun _ => k))
  (at level 10, m at level 100, k at level 200).

(** [Model.findOne({ where })] on columns without a unique index: the
    query has no ORDER BY, so which of the matching rows comes back is the
    choice of the database.  [pick] is that choice: of the matching rows,
    taken in insertion order, the one at position [pick] modulo their
    number.  The row comes with its position in the table. *)
Definition findAmong {A} (P : A -> Prop) `{forall x, Decision (P x)}
    (pick : nat) (rows : list A) : option (nat * A) :=
  let found := filter (fun ir => P (snd ir)) (imap pair rows) in
  found !! (pick `mod` length found)%nat.

(** [Model.update(values, { where })]: every matching row is rewritten. *)
Definition updateWhere {A} (P : A -> Prop) `{forall x, Decision (P x)}
    (f : A -> A) (rows : list A) : list A :=
  (fun r => if decide (P r) then f r else r) <$> rows.

Definition withUsers (f : list User.t -> list User.t) : Service () :=
  fun db => (Returns (),
    {| users := f (users db); regulators := regulators db;
       refreshTokens := refreshTokens db; passwordResets := passwordResets db |}).

Definition withRefreshTokens (f : list RefreshToken.t -> list RefreshToken.t) : Service () :=
  fun db => (Returns (),
    {| users := users db; regulators := regulators db;
       refreshTokens := f (refreshTokens db); passwordResets := passwordResets db |}).

Definition withPasswordResets (f : list PasswordReset.t -> list PasswordReset.t) : Service () :=
  fun db => (Returns (),
    {| users := users db; regulators := regulators db;
       refreshTokens := refreshTokens db; passwordResets := f (passwordResets db) |}).

(** [User] is a paranoid model: queries skip the rows marked deleted. *)
Definition User_findOne (P : User.t -> Prop) `{forall x, Decision (P x)}
    : Service (option User.t) :=
  fun db => (Returns (snd <$> list_find (fun u => P u /\ User.deletedAt u = None) (users db)), db).

Definition User_findByPk (id : string) : Service (option User.t) :=
  User_findOne (fun u => User.id u = id).

Definition User_update (f : User.t -> User.t) (P : User.t -> Prop)
    `{forall x, Decision (P x)} : Service () :=
  withUsers (updateWhere (fun u => P u /\ User.deletedAt u = None) f).

(** [User.create(values)].  The model validates the row before it is
    written and the table checks it ([isEmail] on the e-mail, the sizes of
    the columns): [accepted] is their answer, which is not computed here.
    The table has a primary key and a unique index on [email], and a row
    marked deleted is still a row of it: a second row with one of the two
    is refused.  Either way Sequelize throws an [Error] of its own (the
    name of its class stands for the message) and nothing is written. *)
Definition User_create (u : User.t) (accepted : bool) : Service User.t :=
  fun db =>
    if negb accepted then (Throws (Error "SequelizeValidationError"), db)
    else if bool_decide (Exists (fun row => User.email row = User.email u
                                            \/ User.id row = User.id u) (users db))
    then (Throws (Error "SequelizeUniqueConstraintError"), db)
    else (perform withUsers (fun rows => rows ++ [u]); ret u) db.

Definition Regulator_findAll (P : Regulator.t -> Prop) `{forall x, Decision (P x)}
    : Service (list Regulator.t) :=
  fun db => (Returns (filter P (regulators db)), db).

(** The row found, with its position (its primary key): one of the
    matching rows, as the database chooses. *)
Definition RefreshToken_findOne (P : RefreshToken.t -> Prop) `{forall x, Decision (P x)}
    (pick : nat) : Service (option (nat * RefreshToken.t)) :=
  fun db => (Returns (findAmong P pick (refreshTokens db)), db).

Definition RefreshToken_create (r : RefreshToken.t) : Service () :=
  withRefreshTokens (fun rows => rows ++ [r]).

Definition RefreshToken_update (f : RefreshToken.t -> RefreshToken.t)
    (P : RefreshToken.t -> Prop) `{forall x, Decision (P x)} : Service () :=
  withRefreshTokens (updateWhere P f).

(** [instance.update(values)]: the row with that primary key. *)
Definition RefreshToken_updateAt (pk : nat) (f : RefreshToken.t -> RefreshToken.t) : Service () :=
  withRefreshTokens (alter f pk).

Definition PasswordReset_findOne (P : PasswordReset.t -> Prop) `{forall x, Decision (P x)}
    : Service (option (nat * PasswordReset.t)) :=
  fun db => (Returns (list_find P (passwordResets db)), db).

Definition PasswordReset_create (r : PasswordReset.t) : Service () :=
  withPasswordResets (fun rows => rows ++ [r]).

Definition PasswordReset_update (f : PasswordReset.t -> PasswordReset.t)
    (P : PasswordReset.t -> Prop) `{forall x, Decision (P x)} : Service () :=
  withPasswordResets (updateWhere P f).

Definition PasswordReset_updateAt (pk : nat) (f : PasswordReset.t -> PasswordReset.t) : Service () :=
  withPasswordResets (alter f pk).

(** A helper that throws ([parseExpiry] on a malformed setting). *)
Definition orThrow {A} (o : option A) (e : Exception) : Service A :=
  match o with Some a => ret a | None => throw e end.

(* ===================================================================== *)
(** ** services/AuthService.ts                                             *)
(* ===================================================================== *)

Module LoginResponse.
Record t := {
  accessToken : RawToken;
  refreshToken : RawToken;
  tokenType : string;
  expiresIn : Z;
  user : UserPublic.t
}.
End LoginResponse.

Module TokenRefreshResponse.
Record t := {
  accessToken : RawToken;
  refreshToken : RawToken;
  tokenType : string;
  expiresIn : Z
}.
End TokenRefreshResponse.

Module AuthService.
Section WithConfig.
Variable config : Config.Jwt.

(** The block [// Get owned regulator IDs for REG_OWNER] of [login] and
    [refreshTokens]. *)
Definition ownedRegulatorIdsOf (user : User.t) : Service (list string) :=
  if bool_decide (User.role user = REG_OWNER) then
    await ownedRegulators <-
      Regulator_findAll (fun r => Regulator.ownerUserId r = Some (User.id user)
                                  /\ Regulator.isActive r = true);
    ret (Regulator.id <$> ownedRegulators)
  else ret [].

(** [generateTokenPair] throws when an expiry setting does not parse: the
    error of [parseExpiry] for the setting it was reading, the access
    lifetime first. *)
Definition generateTokenPair (user : User.t) (ownedRegulatorIds : list string)
    (existingTokenFamily : option string) (jti uuid : string) (clock : Jwt.Clock)
    : Service Jwt.TokenPair :=
  orThrow (Jwt.generateTokenPair config (User.id user) (User.email user) (User.role user)
             (User.fleetId user) (Some ownedRegulatorIds) existingTokenFamily jti uuid clock)
          (Error ("Invalid expiry format: "
                  +:+ match Config.getAccessTokenExpirySeconds config with
                      | Some _ => Config.refreshTokenExpiry config
                      | None => Config.accessTokenExpiry config
                      end)).

(** [clock] holds the readings of [generateTokenPair]. *)
Definition login (email password : string) (jti uuid : string) (clock : Jwt.Clock)
    : Service LoginResponse.t :=
  let now := Jwt.dateNow clock in
  await user <- User_findOne (fun u => User.email u = email /\ User.isActive u = true);
  match user with
  | None => throw (AppError "Invalid email or password" 401 "INVALID_CREDENTIALS")
  | Some user =>
      let isValidPassword := Password.verifyPassword password (User.passwordHash user) in
      if negb isValidPassword then
        throw (AppError "Invalid email or password" 401 "INVALID_CREDENTIALS")
      else
        await ownedRegulatorIds <- ownedRegulatorIdsOf user;
        await tokenPair <- generateTokenPair user ownedRegulatorIds None jti uuid clock;
        perform RefreshToken_create
          {| RefreshToken.userId := User.id user;
             RefreshToken.tokenHash := Password.hashToken (Jwt.refreshToken tokenPair);
             RefreshToken.tokenFamily := Jwt.tokenFamily tokenPair;
             RefreshToken.expiresAt := Jwt.refreshTokenExpiresAt tokenPair;
             RefreshToken.revokedAt := None;
             RefreshToken.createdAt := now |};
        perform User_update (User.setLastLoginAt now) (fun u => User.id u = User.id user);
        ret {| LoginResponse.accessToken := Jwt.accessToken tokenPair;
               LoginResponse.refreshToken := Jwt.refreshToken tokenPair;
               LoginResponse.tokenType := "Bearer";
               LoginResponse.expiresIn := Jwt.accessTokenExpiresIn tokenPair;
               LoginResponse.user := User.toPublic (User.setLastLoginAt now user) |}
  end.

(** [id] is the primary key the table draws for the new row, [accepted] the
    answer of the validators to it (see [User_create]). *)
Definition register (email password firstName lastName : string)
    (phoneNumber : option string) (id salt : string) (now : Z) (accepted : bool)
    : Service (UserPublic.t * string) :=
  await existingUser <- User_findOne (fun u => User.email u = email);
  match existingUser with
  | Some _ => throw (AppError "Email already registered" 409 "EMAIL_EXISTS")
  | None =>
      let passwordValidation := Password.validatePasswordStrength password in
      if negb (Password.valid passwordValidation) then
        throw (AppError (Password.join ". " (Password.errors passwordValidation))
                 422 "WEAK_PASSWORD")
      else
        let passwordHash := Password.hashPassword password salt in
        await user <- User_create
          {| User.id := id; User.email := email; User.passwordHash := passwordHash;
             User.role := REG_OWNER; User.fleetId := None;
             User.firstName := firstName; User.lastName := lastName;
             User.phoneNumber :=
               match phoneNumber with
               | Some p => if String.eqb p "" then None else Some p
               | None => None
               end;
             User.isActive := true; User.createdAt := now;
             User.lastLoginAt := None; User.deletedAt := None |} accepted;
        ret (User.toPublic user, "Registration successful. Please verify your email.")
  end.

Definition logout (userId : string) (refreshToken : RawToken) (pick : nat) (now : Z)
    : Service () :=
  let tokenHash := Password.hashToken refreshToken in
  await token <- RefreshToken_findOne
    (fun r => RefreshToken.userId r = userId /\ RefreshToken.tokenHash r = tokenHash
              /\ RefreshToken.revokedAt r = None) pick;
  match token with
  | Some (pk, _) => RefreshToken_updateAt pk (RefreshToken.setRevokedAt now)
  | None => ret ()
  end.

(** [now] is the clock as [jwt.verify] reads it; [later] is the next
    reading, after the query of the ledger: the [new Date()] of the expiry
    test; [clock] holds the readings of [generateTokenPair], after the
    queries of the user and of the regulators. *)
Definition refreshTokens (refreshToken : RawToken) (jti uuid : string) (pick : nat)
    (now later : Z) (clock : Jwt.Clock) : Service TokenRefreshResponse.t :=
  match Jwt.verifyRefreshToken config refreshToken now with
  | inl _ => throw (AppError "Invalid or expired refresh token" 401 "INVALID_REFRESH_TOKEN")
  | inr payload =>
      let tokenHash := Password.hashToken refreshToken in
      await storedToken <- RefreshToken_findOne
        (fun r => RefreshToken.tokenHash r = tokenHash
                  /\ RefreshToken.userId r = Claims.userId payload) pick;
      match storedToken with
      | None => throw (AppError "Refresh token not found" 401 "INVALID_REFRESH_TOKEN")
      | Some (pk, storedToken) =>
          match RefreshToken.revokedAt storedToken with
          | Some _ =>
              perform RefreshToken_update (RefreshToken.setRevokedAt now)
                (fun r => RefreshToken.tokenFamily r = RefreshToken.tokenFamily storedToken);
              throw (AppError "Refresh token has been revoked" 403 "TOKEN_REVOKED")
          | None =>
              if RefreshToken.expiresAt storedToken <? later then
                throw (AppError "Refresh token has expired" 401 "TOKEN_EXPIRED")
              else
                await user <- User_findByPk (Claims.userId payload);
                match user with
                | None => throw (AppError "User not found or inactive" 401 "USER_NOT_FOUND")
                | Some user =>
                    if negb (User.isActive user) then
                      throw (AppError "User not found or inactive" 401 "USER_NOT_FOUND")
                    else
                      await ownedRegulatorIds <- ownedRegulatorIdsOf user;
                      perform RefreshToken_updateAt pk (RefreshToken.setRevokedAt later);
                      await tokenPair <-
                        generateTokenPair user ownedRegulatorIds
                          (Some (RefreshToken.tokenFamily storedToken)) jti uuid clock;
                      perform RefreshToken_create
                        {| RefreshToken.userId := User.id user;
                           RefreshToken.tokenHash :=
                             Password.hashToken (Jwt.refreshToken tokenPair);
                           RefreshToken.tokenFamily := Jwt.tokenFamily tokenPair;
                           RefreshToken.expiresAt := Jwt.refreshTokenExpiresAt tokenPair;
                           RefreshToken.revokedAt := None;
                           RefreshToken.createdAt := Jwt.dateNow clock |};
                      ret {| TokenRefreshResponse.accessToken := Jwt.accessToken tokenPair;
                             TokenRefreshResponse.refreshToken := Jwt.refreshToken tokenPair;
                             TokenRefreshResponse.tokenType := "Bearer";
                             TokenRefreshResponse.expiresIn :=
                               Jwt.accessTokenExpiresIn tokenPair |}
                end
          end
      end
  end.

Definition forgotPassword (email : string) (hex : string) (now : Z) : Service string :=
  await user <- User_findOne (fun u => User.email u = email /\ User.isActive u = true);
  match user with
  | None => ret "Password reset email sent if account exists"
  | Some user =>
      let resetToken := Password.generateRandomToken hex in
      let tokenHash := Password.hashToken resetToken in
      let expiresAt := now + 60 * 60 * 1000 in
      perform PasswordReset_update (PasswordReset.setUsedAt now)
        (fun r => PasswordReset.userId r = User.id user /\ PasswordReset.usedAt r = None);
      perform PasswordReset_create
        {| PasswordReset.userId := User.id user;
           PasswordReset.tokenHash := tokenHash;
           PasswordReset.expiresAt := expiresAt;
           PasswordReset.usedAt := None |};
      ret "Password reset email sent if account exists"
  end.

Definition resetPassword (token : RawToken) (newPassword : string) (salt : string)
    (now : Z) : Service string :=
  let tokenHash := Password.hashToken token in
  await resetRecord <- PasswordReset_findOne
    (fun r => PasswordReset.tokenHash r = tokenHash /\ PasswordReset.usedAt r = None);
  match resetRecord with
  | None => throw (AppError "Invalid or expired reset token" 400 "INVALID_RESET_TOKEN")
  | Some (pk, resetRecord) =>
      if PasswordReset.expiresAt resetRecord <? now then
        throw (AppError "Reset token has expired" 400 "TOKEN_EXPIRED")
      else
        let passwordValidation := Password.validatePasswordStrength newPassword in
        if negb (Password.valid passwordValidation) then
          throw (AppError (Password.join ". " (Password.errors passwordValidation))
                   422 "WEAK_PASSWORD")
        else
          let passwordHash := Password.hashPassword newPassword salt in
          perform User_update (User.setPasswordHash passwordHash)
            (fun u => User.id u = PasswordReset.userId resetRecord);
          perform PasswordReset_updateAt pk (PasswordReset.setUsedAt now);
          perform RefreshToken_update (RefreshToken.setRevokedAt now)
            (fun r => RefreshToken.userId r = PasswordReset.userId resetRecord
                      /\ RefreshToken.revokedAt r = None);
          ret "Password reset successful"
  end.

Definition changePassword (userId currentPassword newPassword : string) (salt : string)
    : Service string :=
  await user <- User_findByPk userId;
  match user with
  | None => throw (AppError "User not found" 404 "USER_NOT_FOUND")
  | Some user =>
      let isValidPassword := Password.verifyPassword currentPassword (User.passwordHash user) in
      if negb isValidPassword then
        throw (AppError "Current password is incorrect" 401 "INVALID_PASSWORD")
      else
        let passwordValidation := Password.validatePasswordStrength newPassword in
        if negb (Password.valid passwordValidation) then
          throw (AppError (Password.join ". " (Password.errors passwordValidation))
                   422 "WEAK_PASSWORD")
        else
          let passwordHash := Password.hashPassword newPassword salt in
          perform User_update (User.setPasswordHash passwordHash)
            (fun u => User.id u = User.id user);
          ret "Password updated successfully"
  end.
End WithConfig.
End AuthService.

(* ===================================================================== *)
(** ** websocket/WebSocketService.ts                                       *)
(* ===================================================================== *)

(** The events the hub sends to a socket (the timestamp is left out). *)
Inductive ServerEvent :=
| EvERROR (message : string)
| EvCONNECTED (clientId userId : string) (role : option UserRole) (subscriptions : gset string)
| EvSUBSCRIBED (channel fleetId regulatorId : JsValue)
| EvUNSUBSCRIBED (channel fleetId regulatorId : JsValue)
| EvPONG.

(** The [payload] of a SUBSCRIBE or UNSUBSCRIBE message after
    [JSON.parse]: its fields are whatever the client sent. *)
Record SubscribePayload := {
  channel : JsValue;
  fleetId : JsValue;
  regulatorId : JsValue
}.

(** What [JSON.parse(message)] gives [handleMessage]: [Unparsable] when it
    throws or yields [null] (reading [data.type] then throws); otherwise the
    [type] field and the [payload] field, [None] when the payload is
    [undefined] or [null] (destructuring it throws). *)
Inductive ParsedMessage :=
| Unparsable
| Data (type : JsValue) (payload : option SubscribePayload).

Module WebSocketClient.
Record t := {
  id : string;
  user : option JwtPayload;
  subscriptions : gset string;
  isAlive : bool;
  sent : list ServerEvent;
  closed : option (Z * string)
}.

Definition setUser (payload : JwtPayload) (c : t) : t :=
  {| id := id c; user := Some payload; subscriptions := subscriptions c;
     isAlive := isAlive c; sent := sent c; closed := closed c |}.

Definition setSubscriptions (f : gset string -> gset string) (c : t) : t :=
  {| id := id c; user := user c; subscriptions := f (subscriptions c);
     isAlive := isAlive c; sent := sent c; closed := closed c |}.

Definition setIsAlive (b : bool) (c : t) : t :=
  {| id := id c; user := user c; subscriptions := subscriptions c;
     isAlive := b; sent := sent c; closed := closed c |}.

Definition send (event : ServerEvent) (c : t) : t :=
  {| id := id c; user := user c; subscriptions := subscriptions c;
     isAlive := isAlive c; sent := sent c ++ [event]; closed := closed c |}.

Definition close (code : Z) (reason : string) (c : t) : t :=
  {| id := id c; user := user c; subscriptions := subscriptions c;
     isAlive := isAlive c; sent := sent c; closed := Some (code, reason) |}.
End WebSocketClient.

(** The state of the service.  A socket object is shared between the
    registry [this.clients] and the handlers registered on it, so the
    objects live in one store, [sockets], keyed by their [id] (their
    identity); [clients] holds the keys of the registry, whose values are
    these objects.  The two subscription maps are keyed by whatever value
    the subscription was made with. *)
Record Hub := {
  sockets : gmap string WebSocketClient.t;
  clients : gset string;
  fleetSubscriptions : gmap JsValue (gset string);
  regulatorSubscriptions : gmap JsValue (gset string)
}.

Module WebSocketService.
Definition empty : Hub :=
  {| sockets := ∅; clients := ∅; fleetSubscriptions := ∅; regulatorSubscriptions := ∅ |}.

(** A mutation of the socket object [client]. *)
Definition onSocket (client : string) (f : WebSocketClient.t -> WebSocketClient.t)
    (hub : Hub) : Hub :=
  {| sockets := alter f client (sockets hub); clients := clients hub;
     fleetSubscriptions := fleetSubscriptions hub;
     regulatorSubscriptions := regulatorSubscriptions hub |}.

Definition onClients (f : gset string -> gset string) (hub : Hub) : Hub :=
  {| sockets := sockets hub; clients := f (clients hub);
     fleetSubscriptions := fleetSubscriptions hub;
     regulatorSubscriptions := regulatorSubscriptions hub |}.

Definition onFleetSubscriptions
    (f : gmap JsValue (gset string) -> gmap JsValue (gset string)) (hub : Hub) : Hub :=
  {| sockets := sockets hub; clients := clients hub;
     fleetSubscriptions := f (fleetSubscriptions hub);
     regulatorSubscriptions := regulatorSubscriptions hub |}.

Definition onRegulatorSubscriptions
    (f : gmap JsValue (gset string) -> gmap JsValue (gset string)) (hub : Hub) : Hub :=
  {| sockets := sockets hub; clients := clients hub;
     fleetSubscriptions := fleetSubscriptions hub;
     regulatorSubscriptions := f (regulatorSubscriptions hub) |}.

Definition send (client : string) (event : ServerEvent) : Hub -> Hub :=
  onSocket client (WebSocketClient.send event).

(** [map.has(key) ? map : map.set(key, new Set())], then
    [map.get(key).add(id)] *)
Definition addSubscriber (key : JsValue) (id : string)
    (subs : gmap JsValue (gset string)) : gmap JsValue (gset string) :=
  let subs := if bool_decide (is_Some (subs !! key)) then subs else <[key := ∅]> subs in
  alter (fun subscribers => subscribers ∪ {[id]}) key subs.

(** [const subscribers = map.get(key); if (subscribers) {
    subscribers.delete(id); if (subscribers.size === 0) map.delete(key) }] *)
Definition removeSubscriber (key : JsValue) (id : string)
    (subs : gmap JsValue (gset string)) : gmap JsValue (gset string) :=
  match subs !! key with
  | Some subscribers =>
      let subscribers := subscribers ∖ {[id]} in
      if bool_decide (size subscribers = 0%nat) then delete key subs
      else <[key := subscribers]> subs
  | None => subs
  end.

Definition canSubscribeToFleet (user : JwtPayload) (fleetId : JsValue) : bool :=
  if Auth.roleIs user ADMIN || Auth.roleIs user SUB_ADMIN then true
  else if includes [FLEET_MGR; SUB_FLEET_MGR; FLEET_USER] (Claims.role user) then
    strict_eq (Claims.fleetId user) fleetId
  else false.

Definition subscribeToFleet (client : string) (fleetId : JsValue) (hub : Hub) : Hub :=
  let subKey := "fleet:" +:+ toString fleetId in
  let hub := onSocket client (WebSocketClient.setSubscriptions (fun s => s ∪ {[subKey]})) hub in
  onFleetSubscriptions (addSubscriber fleetId client) hub.

Definition unsubscribeFromFleet (client : string) (fleetId : JsValue) (hub : Hub) : Hub :=
  let subKey := "fleet:" +:+ toString fleetId in
  let hub := onSocket client (WebSocketClient.setSubscriptions (fun s => s ∖ {[subKey]})) hub in
  onFleetSubscriptions (removeSubscriber fleetId client) hub.

Definition subscribeToRegulator (client : string) (regulatorId : JsValue) (hub : Hub) : Hub :=
  let subKey := "regulator:" +:+ toString regulatorId in
  let hub := onSocket client (WebSocketClient.setSubscriptions (fun s => s ∪ {[subKey]})) hub in
  onRegulatorSubscriptions (addSubscriber regulatorId client) hub.

Definition unsubscribeFromRegulator (client : string) (regulatorId : JsValue) (hub : Hub) : Hub :=
  let subKey := "regulator:" +:+ toString regulatorId in
  let hub := onSocket client (WebSocketClient.setSubscriptions (fun s => s ∖ {[subKey]})) hub in
  onRegulatorSubscriptions (removeSubscriber regulatorId client) hub.

Definition autoSubscribe (client : string) (hub : Hub) : Hub :=
  match sockets hub !! client ≫= WebSocketClient.user with
  | None => hub
  | Some user =>
      let role := Claims.role user in
      let fleetId := Claims.fleetId user in
      if truthy fleetId && includes [FLEET_MGR; SUB_FLEET_MGR; FLEET_USER] role then
        subscribeToFleet client fleetId hub
      else hub
  end.

(** [None] is the [TypeError] that destructuring an absent payload throws;
    nothing has been written by then. *)
Definition handleSubscribe (client : string) (payload : option SubscribePayload)
    (hub : Hub) : option Hub :=
  match sockets hub !! client ≫= WebSocketClient.user with
  | None => Some hub
  | Some user =>
      match payload with
      | None => None
      | Some {| channel := channel; fleetId := fleetId; regulatorId := regulatorId |} =>
          let subscribed :=
            send client (EvSUBSCRIBED channel fleetId regulatorId) in
          if strict_eq channel (JsString "fleet") && truthy fleetId then
            if negb (canSubscribeToFleet user fleetId) then
              Some (send client (EvERROR "Not authorized to subscribe to this fleet") hub)
            else Some (subscribed (subscribeToFleet client fleetId hub))
          else if strict_eq channel (JsString "regulator") && truthy regulatorId then
            (* Check authorization would go here *)
            Some (subscribed (subscribeToRegulator client regulatorId hub))
          else Some (subscribed hub)
      end
  end.

Definition handleUnsubscribe (client : string) (payload : option SubscribePayload)
    (hub : Hub) : option Hub :=
  match payload with
  | None => None
  | Some {| channel := channel; fleetId := fleetId; regulatorId := regulatorId |} =>
      let unsubscribed :=
        send client (EvUNSUBSCRIBED channel fleetId regulatorId) in
      if strict_eq channel (JsString "fleet") && truthy fleetId then
        Some (unsubscribed (unsubscribeFromFleet client fleetId hub))
      else if strict_eq channel (JsString "regulator") && truthy regulatorId then
        Some (unsubscribed (unsubscribeFromRegulator client regulatorId hub))
      else Some (unsubscribed hub)
  end.

Definition handleMessage (client : string) (message : ParsedMessage) (hub : Hub) : Hub :=
  let invalid := send client (EvERROR "Invalid message format") hub in
  match message with
  | Unparsable => invalid
  | Data type payload =>
      if strict_eq type (JsString "SUBSCRIBE") then
        default invalid (handleSubscribe client payload hub)
      else if strict_eq type (JsString "UNSUBSCRIBE") then
        default invalid (handleUnsubscribe client payload hub)
      else if strict_eq type (JsString "PING") then
        send client EvPONG hub
      else
        send client (EvERROR ("Unknown message type: " +:+ toString type)) hub
  end.

(** The body of [client.subscriptions.forEach] in [handleDisconnect]. *)
Definition unwind (client : string) (sub : string) (hub : Hub) : Hub :=
  if startsWith "fleet:" sub then
    let fleetId := dropPrefix "fleet:" sub in
    unsubscribeFromFleet client (JsString fleetId) hub
  else if startsWith "regulator:" sub then
    let regulatorId := dropPrefix "regulator:" sub in
    unsubscribeFromRegulator client (JsString regulatorId) hub
  else hub.

(** Each callback deletes from [client.subscriptions] only the key it is
    visiting, so the loop visits every key the set held when it started. *)
Definition handleDisconnect (client : string) (hub : Hub) : Hub :=
  let subscriptions :=
    default ∅ (WebSocketClient.subscriptions <$> sockets hub !! client) in
  let hub := foldr (unwind client) hub (elements subscriptions) in
  onClients (fun registry => registry ∖ {[client]}) hub.

(** The [connection] handler of [initialize]: [id] is the value [uuidv4()]
    returns, [token] the [token] query parameter. *)
Definition connection (config : Config.Jwt) (id : string) (token : option RawToken)
    (now : Z) (hub : Hub) : Hub :=
  let client :=
    {| WebSocketClient.id := id; WebSocketClient.user := None;
       WebSocketClient.subscriptions := ∅; WebSocketClient.isAlive := true;
       WebSocketClient.sent := []; WebSocketClient.closed := None |} in
  let hub :=
    {| sockets := <[id := client]> (sockets hub); clients := clients hub;
       fleetSubscriptions := fleetSubscriptions hub;
       regulatorSubscriptions := regulatorSubscriptions hub |} in
  let noToken :=
    onSocket id (WebSocketClient.close 4001 "Authentication required")
      (send id (EvERROR "Authentication required") hub) in
  match token with
  | None | Some (Opaque "") => noToken
  | Some token =>
      match Jwt.verifyAccessToken config token now with
      | inr payload =>
          let hub := onSocket id (WebSocketClient.setUser payload) hub in
          let hub := onClients (fun registry => registry ∪ {[id]}) hub in
          let hub := autoSubscribe id hub in
          let subscriptions :=
            default ∅ (WebSocketClient.subscriptions <$> sockets hub !! id) in
          send id (EvCONNECTED id (Claims.userId payload) (Claims.role payload) subscriptions) hub
      | inl _ =>
          onSocket id (WebSocketClient.close 4002 "Invalid token")
            (send id (EvERROR "Invalid or expired token") hub)
      end
  end.

(** [client.readyState === WebSocket.OPEN] for a socket of the store: the
    service has not closed it.  (A socket that its peer has closed is not
    OPEN either; the store does not record that, so the sets below bound
    the recipients from above.) *)
Definition isOpen (client : string) (hub : Hub) : bool :=
  match sockets hub !! client with
  | Some socket => bool_decide (WebSocketClient.closed socket = None)
  | None => false
  end.

(** The broadcasts, as the set of sockets their message is sent to (the
    message is the caller's, a domain event): the subscribers of the
    channel that the registry still holds and that are open. *)
Definition broadcastToFleet (fleetId : string) (hub : Hub) : gset string :=
  match fleetSubscriptions hub !! JsString fleetId with
  | None => ∅
  | Some subscribers =>
      filter (fun clientId => clientId ∈ clients hub /\ isOpen clientId hub = true)
             subscribers
  end.

Definition broadcastToRegulator (regulatorId : string) (hub : Hub) : gset string :=
  match regulatorSubscriptions hub !! JsString regulatorId with
  | None => ∅
  | Some subscribers =>
      filter (fun clientId => clientId ∈ clients hub /\ isOpen clientId hub = true)
             subscribers
  end.

Definition broadcastToAll (hub : Hub) : gset string :=
  filter (fun clientId => isOpen clientId hub = true) (clients hub).

Definition getConnectedClients (hub : Hub) : Z := Z.of_nat (size (clients hub)).

(** [this.fleetSubscriptions.get(fleetId)?.size || 0] *)
Definition getFleetSubscriberCount (fleetId : string) (hub : Hub) : Z :=
  match fleetSubscriptions hub !! JsString fleetId with
  | Some subscribers => Z.of_nat (size subscribers)
  | None => 0
  end.

(** The [pong] handler of a socket. *)
Definition pong (client : string) : Hub -> Hub :=
  onSocket client (WebSocketClient.setIsAlive true).

(** The body of [this.clients.forEach] in the heartbeat: a socket that has
    not answered the previous ping is unwound and terminated
    ([terminate()] closes it without a handshake, which the close event
    reports as code 1006); the others are marked and pinged. *)
Definition beat (client : string) (hub : Hub) : Hub :=
  match sockets hub !! client with
  | None => hub
  | Some socket =>
      if negb (WebSocketClient.isAlive socket) then
        onSocket client (WebSocketClient.close 1006 "") (handleDisconnect client hub)
      else onSocket client (WebSocketClient.setIsAlive false) hub
  end.

(** One tick of the heartbeat interval.  A callback deletes from the
    registry only the socket it is visiting, so the loop visits every socket
    the registry held when it started. *)
Definition heartbeat (hub : Hub) : Hub :=
  foldr beat hub (elements (clients hub)).
End WebSocketService.

(* ===================================================================== *)
(** ** Histories of the auth service                                       *)
(* ===================================================================== *)

(** One request to the auth service with the values it draws from the
    clock and the random generators, or a write of another service
    ([External]: the user and regulator tables are theirs to rewrite; no
    other service touches the ledger). *)
Inductive Call :=
| Login (email password jti uuid : string) (clock : Jwt.Clock)
| Register (email password firstName lastName : string) (phoneNumber : option string)
    (id salt : string) (now : Z) (accepted : bool)
| Logout (userId : string) (refreshToken : RawToken) (pick : nat) (now : Z)
| RefreshTokens (refreshToken : RawToken) (jti uuid : string) (pick : nat) (now later : Z)
    (clock : Jwt.Clock)
| ForgotPassword (email hex : string) (now : Z)
| ResetPassword (token : RawToken) (newPassword salt : string) (now : Z)
| ChangePassword (userId currentPassword newPassword salt : string)
| External (users : list User.t) (regulators : list Regulator.t).

Module System.
Section WithConfig.
Variable config : Config.Jwt.

(** The tables after the call, whether it returned or threw. *)
Definition exec (call : Call) (db : Db) : Db :=
  match call with
  | Login email password jti uuid clock =>
      snd (AuthService.login config email password jti uuid clock db)
  | Register email password firstName lastName phoneNumber id salt now accepted =>
      snd (AuthService.register email password firstName lastName phoneNumber id salt now
             accepted db)
  | Logout userId refreshToken pick now =>
      snd (AuthService.logout userId refreshToken pick now db)
  | RefreshTokens refreshToken jti uuid pick now later clock =>
      snd (AuthService.refreshTokens config refreshToken jti uuid pick now later clock db)
  | ForgotPassword email hex now =>
      snd (AuthService.forgotPassword email hex now db)
  | ResetPassword token newPassword salt now =>
      snd (AuthService.resetPassword token newPassword salt now db)
  | ChangePassword userId currentPassword newPassword salt =>
      snd (AuthService.changePassword userId currentPassword newPassword salt db)
  | External users regulators =>
      {| users := users; regulators := regulators;
         refreshTokens := refreshTokens db; passwordResets := passwordResets db |}
  end.

(** What [uuidv4()] returns: a string of 36 characters, never the empty
    one, and never twice the same: the family id that a login draws is
    not the family of a row that the ledger holds already.  (A refresh
    draws no family: it keeps the one of the row it found.) *)
Definition admissible (db : Db) (call : Call) : Prop :=
  match call with
  | Login _ _ jti uuid _ =>
      jti <> "" /\ uuid <> ""
      /\ forall r, r ∈ refreshTokens db -> RefreshToken.tokenFamily r <> uuid
  | RefreshTokens _ jti uuid _ _ _ _ => jti <> "" /\ uuid <> ""
  | _ => True
  end.

Definition run (history : list Call) (db : Db) : Db :=
  foldl (fun db call => exec call db) db history.

(** Every call of the history is admissible in the state it is made in. *)
Fixpoint valid (history : list Call) (db : Db) : Prop :=
  match history with
  | [] => True
  | call :: history => admissible db call /\ valid history (exec call db)
  end.


(** A freshly created database: no session, no reset request. *)
Definition initial (users : list User.t) (regulators : list Regulator.t) : Db :=
  {| users := users; regulators := regulators; refreshTokens := []; passwordResets := [] |}.

Definition reachable (db : Db) : Prop :=
  exists users regulators history,
    valid history (initial users regulators) /\ db = run history (initial users regulators).
End WithConfig.
End System.

(* ===================================================================== *)
(** ** A worked history                                                    *)
(* ===================================================================== *)

Module Scenario.
Definition config : Config.Jwt :=
  Config.config {| Config.JWT_SECRET := None;
                   Config.JWT_ACCESS_TOKEN_EXPIRY := None;
                   Config.JWT_REFRESH_TOKEN_EXPIRY := None |}.

Definition day : Z := 24 * 60 * 60 * 1000.

Definition alice : User.t :=
  {| User.id := "u-alice"; User.email := "alice@example.com";
     User.passwordHash := Password.hashPassword "StrongPass123!" "salt";
     User.role := FLEET_MGR; User.fleetId := Some "F1";
     User.firstName := "Alice"; User.lastName := "A"; User.phoneNumber := None;
     User.isActive := true; User.createdAt := 0;
     User.lastLoginAt := None; User.deletedAt := None |}.

Definition db0 : Db := System.initial [alice] [].

(** Alice logs in at time 0. *)
Definition loggedIn : Outcome LoginResponse.t * Db :=
  AuthService.login config "alice@example.com" "StrongPass123!" "jti-0" "family-0"
    (Jwt.once 0) db0.

Definition token0 : RawToken :=
  match fst loggedIn with
  | Returns r => LoginResponse.refreshToken r
  | Throws _ => Opaque ""
  end.

Definition db1 : Db := snd loggedIn.

(** The claims of that token, and its ledger row once it has been rotated
    (on the third day, below). *)
Definition claims0 : RefreshTokenPayload :=
  {| Claims.sub := "alice@example.com"; Claims.userId := "u-alice";
     Claims.role := None; Claims.fleetId := JsUndefined;
     Claims.ownedRegulatorIds := None; Claims.jti := None;
     Claims.tokenFamily := Some "family-0"; Claims.iat := 0; Claims.exp := 604800 |}.


(** Three days later the token is rotated. *)
Definition rotated : Outcome TokenRefreshResponse.t * Db :=
  AuthService.refreshTokens config token0 "jti-1" "family-1" 0
    (3 * day) (3 * day) (Jwt.once (3 * day)) db1.

Definition response1 : TokenRefreshResponse.t :=
  match fst rotated with
  | Returns r => r
  | Throws _ =>
      {| TokenRefreshResponse.accessToken := Opaque "";
         TokenRefreshResponse.refreshToken := Opaque "";
         TokenRefreshResponse.tokenType := "";
         TokenRefreshResponse.expiresIn := 0 |}
  end.

Definition token1 : RawToken := TokenRefreshResponse.refreshToken response1.

Definition db2 : Db := snd rotated.

(** On the eighth day, past the seven days the first token lives, the first
    token is presented again. *)
Definition lateReplay : Outcome TokenRefreshResponse.t * Db :=
  AuthService.refreshTokens config token0 "jti-2" "family-2" 0
    (8 * day) (8 * day) (Jwt.once (8 * day)) db2.

Definition db3 : Db := snd lateReplay.

(** The token of the rotation is then presented. *)
Definition afterLateReplay : Outcome TokenRefreshResponse.t * Db :=
  AuthService.refreshTokens config token1 "jti-3" "family-3" 0
    (8 * day) (8 * day) (Jwt.once (8 * day)) db3.

(** The same replay on the fourth day, while the first token still
    verifies. *)
Definition replay : Outcome TokenRefreshResponse.t * Db :=
  AuthService.refreshTokens config token0 "jti-2" "family-2" 0
    (4 * day) (4 * day) (Jwt.once (4 * day)) db2.

Definition afterReplay : Outcome TokenRefreshResponse.t * Db :=
  AuthService.refreshTokens config token1 "jti-3" "family-3" 0
    (4 * day) (4 * day) (Jwt.once (4 * day)) (snd replay).

(** Instead, on the fourth day Alice asks for a password reset and uses it;
    the token of the rotation is presented afterwards. *)
Definition forgot : Outcome string * Db :=
  AuthService.forgotPassword "alice@example.com" "5e7" (4 * day) db2.

Definition reset : Outcome string * Db :=
  AuthService.resetPassword (Opaque "5e7") "NewPass456?" "salt2" (4 * day + 60000)
    (snd forgot).

Definition afterReset : Outcome TokenRefreshResponse.t * Db :=
  AuthService.refreshTokens config token1 "jti-4" "family-4" 0
    (4 * day + 120000) (4 * day + 120000) (Jwt.once (4 * day + 120000)) (snd reset).

(** The claims of Alice's access token. *)
Definition manager : JwtPayload :=
  {| Claims.sub := "alice@example.com"; Claims.userId := "u-alice";
     Claims.role := Some FLEET_MGR; Claims.fleetId := JsString "F1";
     Claims.ownedRegulatorIds := Some []; Claims.jti := Some "jti-0";
     Claims.tokenFamily := None; Claims.iat := 0; Claims.exp := 900 |}.

(** Bob owns regulators; he holds an access token and opens a socket. *)
Definition bob : JwtPayload :=
  {| Claims.sub := "bob@example.com"; Claims.userId := "u-bob";
     Claims.role := Some REG_OWNER; Claims.fleetId := JsNull;
     Claims.ownedRegulatorIds := Some []; Claims.jti := Some "jti-b";
     Claims.tokenFamily := None; Claims.iat := 0; Claims.exp := 900 |}.

Definition bobToken : RawToken := Compact bob (Config.secret config).

Definition connected : Hub :=
  WebSocketService.connection config "c-bob" (Some bobToken) 1000 WebSocketService.empty.

(** He subscribes to the channel of regulator R-9, which belongs to fleet F2
    and to Carol. *)
Definition subscribeR9 : ParsedMessage :=
  Data (JsString "SUBSCRIBE")
       (Some {| channel := JsString "regulator"; fleetId := JsUndefined;
                regulatorId := JsString "R-9" |}).

Definition afterSubscribeR9 : Hub :=
  WebSocketService.handleMessage "c-bob" subscribeR9 connected.

(** He subscribes to a regulator channel naming it by the number 5, as the
    message [{"type":"SUBSCRIBE","payload":{"channel":"regulator",
    "regulatorId":5}}] does, and then disconnects. *)
Definition subscribe5 : ParsedMessage :=
  Data (JsString "SUBSCRIBE")
       (Some {| channel := JsString "regulator"; fleetId := JsUndefined;
                regulatorId := JsNumber 5 |}).

Definition afterSubscribe5 : Hub :=
  WebSocketService.handleMessage "c-bob" subscribe5 connected.

Definition afterDisconnect : Hub :=
  WebSocketService.handleDisconnect "c-bob" afterSubscribe5.

(** Alice holds her access token and opens a socket as well. *)
Definition aliceToken : RawToken := Compact manager (Config.secret config).

Definition aliceConnected : Hub :=
  WebSocketService.connection config "c-alice" (Some aliceToken) 1000 WebSocketService.empty.

(** She then names a fleet by the number 7 in a SUBSCRIBE message. *)
Definition subscribeFleet7 : ParsedMessage :=
  Data (JsString "SUBSCRIBE")
       (Some {| channel := JsString "fleet"; fleetId := JsNumber 7;
                regulatorId := JsUndefined |}).

Definition aliceNumeric : Hub :=
  WebSocketService.handleMessage "c-alice" subscribeFleet7 aliceConnected.

(** The claims of an administrator, and requests as the gates see them. *)
Definition root : JwtPayload :=
  {| Claims.sub := "root@example.com"; Claims.userId := "u-root";
     Claims.role := Some ADMIN; Claims.fleetId := JsNull;
     Claims.ownedRegulatorIds := Some []; Claims.jti := Some "jti-r";
     Claims.tokenFamily := None; Claims.iat := 0; Claims.exp := 900 |}.

Definition rootRequest : Auth.Request :=
  {| Auth.authorization := Some [Opaque "Bearer"; Compact root (Config.secret config)];
     Auth.user := Some root |}.

Definition aliceRequest : Auth.Request :=
  {| Auth.authorization := Some [Opaque "Bearer"; aliceToken];
     Auth.user := Some manager |}.

(** A request that presents Alice's refresh token as its bearer token. *)
Definition refreshBearer : Auth.Request :=
  {| Auth.authorization := Some [Opaque "Bearer"; token0]; Auth.user := None |}.



(** In the first history, Alice asks for a password reset before she has
    ever logged in, and uses it a minute later. *)
Definition forgotEarly : Outcome string * Db :=
  AuthService.forgotPassword "alice@example.com" "5e7" 0 db0.

(** What Alice's login and Carol's registration return. *)
Definition response0 : LoginResponse.t :=
  match fst loggedIn with
  | Returns r => r
  | Throws _ =>
      {| LoginResponse.accessToken := Opaque ""; LoginResponse.refreshToken := Opaque "";
         LoginResponse.tokenType := ""; LoginResponse.expiresIn := 0;
         LoginResponse.user := User.toPublic alice |}
  end.



Definition bobSocket : WebSocketClient.t :=
  {| WebSocketClient.id := "c-bob"; WebSocketClient.user := Some bob;
     WebSocketClient.subscriptions := ∅; WebSocketClient.isAlive := true;
     WebSocketClient.sent := [EvCONNECTED "c-bob" "u-bob" (Some REG_OWNER) ∅];
     WebSocketClient.closed := None |}.

(** In another history Alice's client refreshes half a second after the
    login, within the second in which the first token was issued. *)
Definition rotatedAtOnce : Outcome TokenRefreshResponse.t * Db :=
  AuthService.refreshTokens config token0 "jti-1" "family-1" 0 500 501
    {| Jwt.accessSignedAt := 502; Jwt.refreshSignedAt := 502; Jwt.dateNow := 503 |} db1.

Definition responseAtOnce : TokenRefreshResponse.t :=
  match fst rotatedAtOnce with
  | Returns r => r
  | Throws _ => response1
  end.

(** The two rows the ledger then holds. *)
Definition row0AtOnce : RefreshToken.t :=
  {| RefreshToken.userId := "u-alice";
     RefreshToken.tokenHash := Password.hashToken token0;
     RefreshToken.tokenFamily := "family-0";
     RefreshToken.expiresAt := 7 * day;
     RefreshToken.revokedAt := Some 501;
     RefreshToken.createdAt := 0 |}.

Definition row1AtOnce : RefreshToken.t :=
  {| RefreshToken.userId := "u-alice";
     RefreshToken.tokenHash := Password.hashToken token0;
     RefreshToken.tokenFamily := "family-0";
     RefreshToken.expiresAt := 7 * day + 503;
     RefreshToken.revokedAt := None;
     RefreshToken.createdAt := 503 |}.

(** The first token is presented once more, a minute later: the query of
    the ledger matches both rows.  The database returns the second one, or
    the first one. *)
Definition usedAgain : Outcome TokenRefreshResponse.t * Db :=
  AuthService.refreshTokens config token0 "jti-2" "family-2" 1
    60000 60000 (Jwt.once 60000) (snd rotatedAtOnce).

Definition responseAgain : TokenRefreshResponse.t :=
  match fst usedAgain with
  | Returns r => r
  | Throws _ => response1
  end.

Definition lockedOut : Outcome TokenRefreshResponse.t * Db :=
  AuthService.refreshTokens config token0 "jti-2" "family-2" 0
    60000 60000 (Jwt.once 60000) (snd rotatedAtOnce).

(** In yet another history the first token is presented a millisecond
    before it expires, and the ledger is consulted a millisecond after. *)
Definition straddled : Outcome TokenRefreshResponse.t * Db :=
  AuthService.refreshTokens config token0 "jti-1" "family-1" 0
    (7 * day - 1) (7 * day + 1) (Jwt.once (7 * day + 1)) db1.
End Scenario.

(* ===================================================================== *)
(** ** Ledger invariants                                                   *)
(* ===================================================================== *)

Module Ledger.
(** What never changes in a ledger row, and what only changes one way: a
    row keeps its owner, digest and family, and stays revoked once it is. *)
Definition persists (r r' : RefreshToken.t) : Prop :=
  RefreshToken.userId r' = RefreshToken.userId r
  /\ RefreshToken.tokenHash r' = RefreshToken.tokenHash r
  /\ RefreshToken.tokenFamily r' = RefreshToken.tokenFamily r
  /\ (is_Some (RefreshToken.revokedAt r) -> is_Some (RefreshToken.revokedAt r')).

(** The ledger [l'] is a later state of the ledger [l]: rows are never
    deleted and keep their position. *)
Definition extends (l l' : list RefreshToken.t) : Prop :=
  forall i r, l !! i = Some r -> exists r', l' !! i = Some r' /\ persists r r'.

(** A row records the digest of a signed refresh token issued to its owner
    under its family. *)
Definition consistent (r : RefreshToken.t) : Prop :=
  exists claims key,
    RefreshToken.tokenHash r = Password.Sha256 (Compact claims key)
    /\ Claims.tokenFamily claims = Some (RefreshToken.tokenFamily r)
    /\ Claims.userId claims = RefreshToken.userId r.

Definition wellFormed (l : list RefreshToken.t) : Prop :=
  Forall (fun r => consistent r /\ RefreshToken.tokenFamily r <> "") l.

(** The query of [refreshTokens] for the stored row of a token:
    [where: { tokenHash, userId }]. *)
Definition storedAs (token : RawToken) (userId : string) (r : RefreshToken.t) : Prop :=
  RefreshToken.tokenHash r = Password.hashToken token /\ RefreshToken.userId r = userId.

(** The row that query returns, with its position, when the database
    makes the choice [pick] among the rows it matches. *)
Definition found (token : RawToken) (userId : string) (pick : nat)
    (l : list RefreshToken.t) : option (nat * RefreshToken.t) :=
  findAmong (fun r => RefreshToken.tokenHash r = Password.hashToken token
                      /\ RefreshToken.userId r = userId) pick l.

(** The rows of one family belong to one user, and at most one of them is
    not revoked. *)
Definition chained (l : list RefreshToken.t) : Prop :=
  forall i j r r',
    l !! i = Some r -> l !! j = Some r' ->
    RefreshToken.tokenFamily r = RefreshToken.tokenFamily r' ->
    RefreshToken.userId r = RefreshToken.userId r'
    /\ (RefreshToken.revokedAt r = None -> RefreshToken.revokedAt r' = None -> i = j).

(** Every row that records the token is revoked. *)
Definition spent (token : RawToken) (l : list RefreshToken.t) : Prop :=
  forall i r,
    l !! i = Some r -> RefreshToken.tokenHash r = Password.hashToken token ->
    is_Some (RefreshToken.revokedAt r).

(** Every row of the family is revoked. *)
Definition closed (family : string) (l : list RefreshToken.t) : Prop :=
  forall i r,
    l !! i = Some r -> RefreshToken.tokenFamily r = family ->
    is_Some (RefreshToken.revokedAt r).

(** Rows are only written once both expiry settings have parsed. *)
Definition minted (config : Config.Jwt) (l : list RefreshToken.t) : Prop :=
  l <> [] ->
  is_Some (Config.getAccessTokenExpirySeconds config)
  /\ is_Some (Config.getRefreshTokenExpirySeconds config).

End Ledger.

(** The queries of the other tables that the properties speak of. *)
Module Query.
(** The query of [resetPassword] for the reset record of a token:
    [where: { tokenHash, usedAt: null }]. *)
Definition resetRecord (token : RawToken) (l : list PasswordReset.t)
    : option (nat * PasswordReset.t) :=
  list_find (fun r => PasswordReset.tokenHash r = Password.hashToken token
                      /\ PasswordReset.usedAt r = None) l.

(** The query of [login] for the stored credential of an email:
    [where: { email, isActive: true }] on a paranoid model. *)
Definition credential (email : string) (l : list User.t) : option User.t :=
  snd <$> list_find (fun u => (User.email u = email /\ User.isActive u = true)
                              /\ User.deletedAt u = None) l.
End Query.

(* ===================================================================== *)
(** ** The access tiers of the specification                               *)
(* ===================================================================== *)

Module Tier.
(** The system-wide tier: ADMIN and SUB_ADMIN. *)
Definition systemWide (actor : JwtPayload) : Prop :=
  Claims.role actor = Some ADMIN \/ Claims.role actor = Some SUB_ADMIN.

(** The fleet-scoped tier: FLEET_MGR, SUB_FLEET_MGR and FLEET_USER. *)
Definition fleetScoped (actor : JwtPayload) : Prop :=
  Claims.role actor = Some FLEET_MGR \/ Claims.role actor = Some SUB_FLEET_MGR
  \/ Claims.role actor = Some FLEET_USER.
End Tier.

(* ===================================================================== *)
(** ** Histories of the realtime hub                                       *)
(* ===================================================================== *)

Module HubInvariant.
(** A channel id of the type the handlers declare: a string, when it is
    there at all. *)
Definition stringId (v : JsValue) : Prop :=
  truthy v = true -> exists s, v = JsString s.

Definition wellTyped (message : ParsedMessage) : Prop :=
  match message with
  | Data _ (Some payload) => stringId (fleetId payload) /\ stringId (regulatorId payload)
  | _ => True
  end.

(** Every id in a subscriber set of [subs] is the id of a socket that
    records the subscription, under [prefix]. *)
Definition tracked (prefix : string) (subs : gmap JsValue (gset string))
    (store : gmap string WebSocketClient.t) : Prop :=
  forall key subscribers client,
    subs !! key = Some subscribers -> client ∈ subscribers ->
    exists id socket,
      key = JsString id /\ store !! client = Some socket
      /\ (prefix +:+ id) ∈ WebSocketClient.subscriptions socket.

Definition coherent (hub : Hub) : Prop :=
  tracked "fleet:" (fleetSubscriptions hub) (sockets hub)
  /\ tracked "regulator:" (regulatorSubscriptions hub) (sockets hub)
  /\ forall client, client ∈ clients hub -> is_Some (sockets hub !! client).

(** One event of the service: a connection, which draws a fresh id; a
    message or a pong on a registered socket (the handlers are installed
    once the socket is authenticated, and a closed socket receives
    nothing); the disconnect handler, run by the close event; a tick of the
    heartbeat.  With [typed] set, the channel ids that come in are of the
    declared type; without it they are any value, as JSON and a token's
    payload can hold. *)
Inductive step (config : Config.Jwt) (typed : bool) (hub : Hub) : Hub -> Prop :=
| step_connection id token now :
    sockets hub !! id = None ->
    (typed = true ->
     forall raw payload, token = Some raw ->
       Jwt.verifyAccessToken config raw now = inr payload ->
       stringId (Claims.fleetId payload)) ->
    step config typed hub (WebSocketService.connection config id token now hub)
| step_message client message :
    client ∈ clients hub -> (typed = true -> wellTyped message) ->
    step config typed hub (WebSocketService.handleMessage client message hub)
| step_disconnect client :
    step config typed hub (WebSocketService.handleDisconnect client hub)
| step_heartbeat :
    step config typed hub (WebSocketService.heartbeat hub)
| step_pong client :
    client ∈ clients hub ->
    step config typed hub (WebSocketService.pong client hub).

(** The states the hub reaches from its start: all of them ([typed] is
    [false]), or those it reaches while every channel id comes as a
    string. *)
Definition reachable (config : Config.Jwt) (typed : bool) (hub : Hub) : Prop :=
  rtc (step config typed) WebSocketService.empty hub.

(** Every subscriber of a fleet channel is a socket whose token
    [canSubscribeToFleet] accepts for that channel. *)
Definition authorized (hub : Hub) : Prop :=
  forall key subscribers client,
    fleetSubscriptions hub !! key = Some subscribers -> client ∈ subscribers ->
    exists socket user,
      sockets hub !! client = Some socket
      /\ WebSocketClient.user socket = Some user
      /\ WebSocketService.canSubscribeToFleet user key = true.

(** No channel is kept with an empty subscriber set. *)
Definition populated (subs : gmap JsValue (gset string)) : Prop :=
  forall key subscribers, subs !! key = Some subscribers -> subscribers <> ∅.
End HubInvariant.

#[local] Set Warnings "-clear-no-such-hyp".

(* ===================================================================== *)
(** * Properties                                                           *)
(* ===================================================================== *)

(** ** Authorization predicates *)

Section Predicates.
Implicit Types (actor user : JwtPayload) (role : UserRole).

(** C4, as the code has it: [canManageUser] holds exactly for an ADMIN
    actor, and for a FLEET_MGR actor when the target role is FLEET_USER or
    SUB_FLEET_MGR and the target fleet is the actor's fleet scope; it is
    false in every other case, so a FLEET_MGR never manages an ADMIN, and
    neither a SUB_ADMIN nor any other role manages anyone. *)
Theorem canManageUser_spec actor targetRole (targetFleetId : option string) :
  (Auth.canManageUser actor targetRole targetFleetId = true <->
     Claims.role actor = Some ADMIN
     \/ (Claims.role actor = Some FLEET_MGR
         /\ (targetRole = FLEET_USER \/ targetRole = SUB_FLEET_MGR)
         /\ Claims.fleetId actor = nullable targetFleetId))
  /\ (Claims.role actor = Some FLEET_MGR ->
        Auth.canManageUser actor ADMIN targetFleetId = false)
  /\ (Claims.role actor = Some SUB_ADMIN ->
        Auth.canManageUser actor targetRole targetFleetId = false).
Proof.
  unfold Auth.canManageUser, Auth.roleIs, includes, strict_eq.
  destruct (Claims.role actor) as [[]|] eqn:Hrole; simpl;
    repeat split; try done; try (intros; simplify_eq; fail);
    try (intros [?|(? & ? & ?)]; simplify_eq; fail);
    try (intros _; by left).
  - intros [Hin Heq]%andb_true_iff. right.
    apply bool_decide_eq_true in Heq. split; [done|]. split; [|done].
    destruct targetRole; try (by vm_compute in Hin); auto.
  - intros [?|(_ & Hr & Heq)]; [done|].
    apply andb_true_iff. split; [|by apply bool_decide_eq_true].
    by destruct Hr; subst.
Qed.

(** C4, the counterexample: a SUB_ADMIN actor is in the system-wide tier and
    is refused. *)
Lemma canManageUser_not_system_wide :
  ~ (forall actor targetRole (targetFleetId : option string),
       Tier.systemWide actor -> Auth.canManageUser actor targetRole targetFleetId = true).
Proof.
  intros H.
  specialize (H {| Claims.sub := "sub@example.com"; Claims.userId := "u-sub";
                   Claims.role := Some SUB_ADMIN; Claims.fleetId := JsNull;
                   Claims.ownedRegulatorIds := Some []; Claims.jti := Some "jti";
                   Claims.tokenFamily := None; Claims.iat := 0; Claims.exp := 900 |}
                FLEET_USER (Some "F1")).
  by discriminate H; right.
Qed.

(** C5, as the code has it: [canAccessFleet] holds exactly for an ADMIN or
    SUB_ADMIN actor, and for a FLEET_MGR or SUB_FLEET_MGR actor whose fleet
    scope is the fleet asked for; it is false in every other case, a
    FLEET_USER of that fleet included. *)
Theorem canAccessFleet_spec actor (fleetId : string) :
  (Auth.canAccessFleet actor fleetId = true <->
     Tier.systemWide actor
     \/ ((Claims.role actor = Some FLEET_MGR \/ Claims.role actor = Some SUB_FLEET_MGR)
         /\ Claims.fleetId actor = JsString fleetId))
  /\ (Claims.role actor = Some FLEET_USER -> Auth.canAccessFleet actor fleetId = false).
Proof.
  unfold Auth.canAccessFleet, Auth.roleIs, Tier.systemWide, strict_eq.
  destruct (Claims.role actor) as [[]|] eqn:Hrole; simpl;
    repeat split; try done; try (intros; simplify_eq; fail);
    try (intros _; left; by (left + right));
    try (intros [[?|?]|[[?|?] ?]]; simplify_eq; fail);
    try (case_bool_decide; [intros _; right; split; [by (left + right)|done] | done]);
    try (intros [[?|?]|[_ Heq]]; [done|done|]; by rewrite bool_decide_eq_true_2).
Qed.

(** C5, the counterexample: a FLEET_USER whose fleet scope is the fleet
    asked for is refused. *)
Lemma canAccessFleet_not_fleet_user :
  ~ (forall actor (fleetId : string),
       Tier.fleetScoped actor ->
       Claims.fleetId actor = JsString fleetId ->
       Auth.canAccessFleet actor fleetId = true).
Proof.
  intros H.
  specialize (H {| Claims.sub := "user@example.com"; Claims.userId := "u-user";
                   Claims.role := Some FLEET_USER; Claims.fleetId := JsString "F1";
                   Claims.ownedRegulatorIds := Some []; Claims.jti := Some "jti";
                   Claims.tokenFamily := None; Claims.iat := 0; Claims.exp := 900 |}
                "F1").
  by discriminate H; [right; right|].
Qed.
End Predicates.

(** ** Token codec *)

Section Codec.
Variable config : Config.Jwt.

Lemma generateRefreshToken_inv userId email tokenFamily uuid now token family :
  Jwt.generateRefreshToken config userId email tokenFamily uuid now = Some (token, family) ->
  exists seconds,
    Config.getRefreshTokenExpirySeconds config = Some seconds
    /\ family = Jwt.familyOr tokenFamily uuid
    /\ token = Compact {| Claims.sub := email; Claims.userId := userId;
                          Claims.role := None; Claims.fleetId := JsUndefined;
                          Claims.ownedRegulatorIds := None; Claims.jti := None;
                          Claims.tokenFamily := Some family;
                          Claims.iat := now / 1000;
                          Claims.exp := now / 1000 + seconds |} (Config.secret config).
Proof.
  unfold Jwt.generateRefreshToken, Jwt.sign. intros H.
  destruct (Config.getRefreshTokenExpirySeconds config) as [seconds|]; simplify_eq/=.
  by exists seconds.
Qed.

(** C8: a refresh token that [generateRefreshToken] produced is accepted by
    [verifyAccessToken] at every time before its expiry, which yields its
    refresh claims as if they were access claims (no role, no token id):
    the two kinds of token are signed with the same secret and nothing in
    the verification tells them apart. *)
Theorem refresh_token_verifies_as_access_token
    userId email tokenFamily uuid now token family seconds now' :
  Jwt.generateRefreshToken config userId email tokenFamily uuid now = Some (token, family) ->
  Config.getRefreshTokenExpirySeconds config = Some seconds ->
  now' / 1000 < now / 1000 + seconds ->
  exists payload,
    Jwt.verifyAccessToken config token now' = inr payload
    /\ Jwt.verifyRefreshToken config token now' = inr payload
    /\ Claims.userId payload = userId
    /\ Claims.sub payload = email
    /\ Claims.tokenFamily payload = Some family
    /\ Claims.role payload = None
    /\ Claims.jti payload = None.
Proof.
  intros Hgen Hsec Hlive.
  apply generateRefreshToken_inv in Hgen as (seconds' & Hsec' & -> & ->).
  rewrite Hsec in Hsec'. injection Hsec' as <-.
  eexists. unfold Jwt.verifyAccessToken, Jwt.verifyRefreshToken, Jwt.verify.
  rewrite bool_decide_eq_true_2 by done.
  cbn [Claims.exp].
  destruct (Z.leb_spec (now / 1000 + seconds) (now' / 1000)) as [Hle|_]; [lia|].
  repeat split; reflexivity.
Qed.

(** The unit test [should use provided token family] of the repository. *)
Lemma generateRefreshToken_uses_provided_family userId email uuid now token family :
  Jwt.generateRefreshToken config userId email (Some "existing-family-id") uuid now
    = Some (token, family) ->
  family = "existing-family-id"
  /\ exists claims, token = Compact claims (Config.secret config)
                    /\ Claims.tokenFamily claims = Some "existing-family-id".
Proof.
  intros (seconds & Hsec & -> & ->)%generateRefreshToken_inv. split; [reflexivity|].
  by eexists.
Qed.
End Codec.

(** ** Password policy *)

Section PasswordPolicy.
Import Password.

Lemma pushIf_elem violated message errors m :
  m ∈ pushIf violated message errors <-> m ∈ errors \/ (violated = true /\ m = message).
Proof.
  unfold pushIf. destruct violated.
  - rewrite elem_of_app, list_elem_of_singleton. naive_solver.
  - naive_solver.
Qed.

Lemma pushIf_nil violated message errors :
  pushIf violated message errors = [] <-> errors = [] /\ violated = false.
Proof.
  unfold pushIf. destruct violated; [|naive_solver].
  split; [|naive_solver]. by intros [? ?]%app_eq_nil.
Qed.

Lemma pushIf_NoDup violated message errors :
  NoDup errors -> message ∉ errors -> NoDup (pushIf violated message errors).
Proof.
  intros Hnd Hnotin. unfold pushIf. destruct violated; [|done].
  apply NoDup_app. split; [done|]. split; [|apply NoDup_singleton].
  intros x Hx ->%list_elem_of_singleton. done.
Qed.

(** C9: [validatePasswordStrength] accepts a password exactly when it has 8
    to 128 characters, an uppercase letter, a lowercase letter, a digit and
    a special character; each violated rule puts its own message in the
    error list and no other message is there, the messages being pairwise
    distinct; ["StrongPass123!"] is valid with no error and ["weak"] is
    invalid with at least two distinct errors. *)
Theorem validatePasswordStrength_spec password :
  let result := validatePasswordStrength password in
  (valid result = true <->
     8 <= strlen password <= 128
     /\ contains isUpper password = true /\ contains isLower password = true
     /\ contains isDigit password = true /\ contains isSpecial password = true)
  /\ (valid result = true <-> errors result = [])
  /\ (forall m, m ∈ errors result <->
        (strlen password < 8 /\ m = "Password must be at least 8 characters long")
        \/ (128 < strlen password /\ m = "Password must be at most 128 characters long")
        \/ (contains isUpper password = false
            /\ m = "Password must contain at least one uppercase letter")
        \/ (contains isLower password = false
            /\ m = "Password must contain at least one lowercase letter")
        \/ (contains isDigit password = false
            /\ m = "Password must contain at least one number")
        \/ (contains isSpecial password = false
            /\ m = "Password must contain at least one special character"))
  /\ NoDup (errors result)
  /\ validatePasswordStrength "StrongPass123!" = {| valid := true; errors := [] |}
  /\ valid (validatePasswordStrength "weak") = false
  /\ (2 <= length (errors (validatePasswordStrength "weak")))%nat
  /\ NoDup (errors (validatePasswordStrength "weak")).
Proof.
  assert (Hmem : forall m, m ∈ errors (validatePasswordStrength password) <->
        (strlen password < 8 /\ m = "Password must be at least 8 characters long")
        \/ (128 < strlen password /\ m = "Password must be at most 128 characters long")
        \/ (contains isUpper password = false
            /\ m = "Password must contain at least one uppercase letter")
        \/ (contains isLower password = false
            /\ m = "Password must contain at least one lowercase letter")
        \/ (contains isDigit password = false
            /\ m = "Password must contain at least one number")
        \/ (contains isSpecial password = false
            /\ m = "Password must contain at least one special character")).
  { intros m. unfold validatePasswordStrength. cbn [errors].
    rewrite !pushIf_elem, !negb_true_iff, !Z.ltb_lt, elem_of_nil. naive_solver. }
  assert (Hnd : NoDup (errors (validatePasswordStrength password))).
  { unfold validatePasswordStrength. cbn [errors].
    repeat (apply pushIf_NoDup;
            [| rewrite ?pushIf_elem, elem_of_nil; intros H; decompose [and or] H;
               try done; discriminate]).
    apply NoDup_nil_2. }
  cbn zeta. split; [|split; [|split; [exact Hmem|split; [exact Hnd|]]]].
  - unfold validatePasswordStrength. cbn [valid].
    rewrite bool_decide_eq_true, !pushIf_nil, !negb_false_iff, !Z.ltb_ge. naive_solver lia.
  - unfold validatePasswordStrength. cbn [valid errors]. by rewrite bool_decide_eq_true.
  - split; [reflexivity|]. split; [reflexivity|]. split; [vm_compute; lia|].
    vm_compute. repeat (apply NoDup_cons; split; [rewrite ?elem_of_cons, ?elem_of_nil;
      intros H; decompose [or] H; try done; discriminate|]). apply NoDup_nil_2.
Qed.

(** The unit tests the repository keeps for [validatePasswordStrength], on
    the definition above. *)
Lemma validatePasswordStrength_unit_tests :
  "Password must be at least 8 characters long"
    ∈ errors (validatePasswordStrength "Sh0rt!")
  /\ "Password must contain at least one uppercase letter"
       ∈ errors (validatePasswordStrength "lowercase123!")
  /\ "Password must contain at least one lowercase letter"
       ∈ errors (validatePasswordStrength "UPPERCASE123!")
  /\ "Password must contain at least one number"
       ∈ errors (validatePasswordStrength "NoNumbers!")
  /\ "Password must contain at least one special character"
       ∈ errors (validatePasswordStrength "NoSpecial123")
  /\ valid (validatePasswordStrength "Sh0rt!") = false
  /\ valid (validatePasswordStrength "lowercase123!") = false
  /\ valid (validatePasswordStrength "UPPERCASE123!") = false
  /\ valid (validatePasswordStrength "NoNumbers!") = false
  /\ valid (validatePasswordStrength "NoSpecial123") = false.
Proof.
  repeat split; try reflexivity; apply (bool_decide_unpack _); by vm_compute.
Qed.
End PasswordPolicy.

(** ** Session ledger *)

Section LedgerFacts.
Import Ledger.
Implicit Types (l : list RefreshToken.t) (r : RefreshToken.t) (db : Db).

Lemma persists_refl r : persists r r.
Proof. by repeat split. Qed.

Lemma persists_trans r1 r2 r3 : persists r1 r2 -> persists r2 r3 -> persists r1 r3.
Proof. unfold persists. intros (?&?&?&?) (?&?&?&?). repeat split; try congruence. auto. Qed.

Lemma persists_setRevokedAt now r : persists r (RefreshToken.setRevokedAt now r).
Proof. repeat split. by eexists. Qed.

Lemma extends_refl l : extends l l.
Proof. intros i r Hi. eauto using persists_refl. Qed.

Lemma extends_trans l1 l2 l3 : extends l1 l2 -> extends l2 l3 -> extends l1 l3.
Proof.
  intros H12 H23 i r Hi.
  destruct (H12 i r Hi) as (r2 & Hi2 & Hp2).
  destruct (H23 i r2 Hi2) as (r3 & Hi3 & Hp3).
  eauto using persists_trans.
Qed.

Lemma extends_updateWhere (P : RefreshToken.t -> Prop) `{forall x, Decision (P x)} now l :
  extends l (updateWhere P (RefreshToken.setRevokedAt now) l).
Proof.
  intros i r Hi. unfold updateWhere. rewrite list_lookup_fmap, Hi. simpl.
  eexists. split; [done|]. case_decide; auto using persists_refl, persists_setRevokedAt.
Qed.

Lemma extends_alter pk now l : extends l (alter (RefreshToken.setRevokedAt now) pk l).
Proof.
  intros i r Hi. destruct (decide (i = pk)) as [->|Hne].
  - rewrite list_lookup_alter_eq, Hi. simpl. eauto using persists_setRevokedAt.
  - rewrite list_lookup_alter_ne by done. eauto using persists_refl.
Qed.

Lemma extends_app l l2 : extends l (l ++ l2).
Proof. intros i r Hi. exists r. split; [by apply lookup_app_l_Some|apply persists_refl]. Qed.

Lemma extends_length l l' : extends l l' -> (length l <= length l')%nat.
Proof.
  intros Hext. destruct l as [|r0 l0] eqn:El using rev_ind; [simpl; lia|].
  clear IHl0.
  destruct (Hext (length l0) r0) as (r' & Hr' & _).
  { by rewrite lookup_app_r, Nat.sub_diag by lia. }
  apply lookup_lt_Some in Hr'. rewrite length_app. simpl. lia.
Qed.
End LedgerFacts.

Ltac unfold_service :=
  unfold AuthService.login, AuthService.register, AuthService.logout,
    AuthService.refreshTokens, AuthService.forgotPassword, AuthService.resetPassword,
    AuthService.changePassword, AuthService.generateTokenPair,
    AuthService.ownedRegulatorIdsOf,
    User_findByPk, User_findOne, User_update, User_create, Regulator_findAll,
    RefreshToken_findOne, RefreshToken_create, RefreshToken_update, RefreshToken_updateAt,
    PasswordReset_findOne, PasswordReset_create, PasswordReset_update,
    PasswordReset_updateAt, withUsers, withRefreshTokens, withPasswordResets,
    orThrow, bind, ret, throw in *.

Ltac service_cases :=
  unfold_service; cbn beta iota zeta delta [fst snd] in *;
  repeat (case_match; cbn beta iota zeta delta [fst snd] in *; simplify_eq/=).

Section Queries.
Context {A : Type} (P : A -> Prop) `{forall x, Decision (P x)}.
Implicit Types (rows : list A).

(** Whatever the database chooses, the row returned is a row of the table
    that matches the query. *)
Lemma findAmong_Some pick rows i r :
  findAmong P pick rows = Some (i, r) -> rows !! i = Some r /\ P r.
Proof.
  unfold findAmong. intros Hfound%list_elem_of_lookup_2.
  apply list_elem_of_filter in Hfound as [HP Hin].
  apply elem_of_lookup_imap_1 in Hin as (j & y & [= -> ->] & Hj). done.
Qed.

(** No row is returned exactly when no row matches. *)
Lemma findAmong_None pick rows :
  findAmong P pick rows = None <-> forall i r, rows !! i = Some r -> ~ P r.
Proof.
  unfold findAmong.
  set (found := filter (fun ir : nat * A => P (snd ir)) (imap pair rows)). split.
  - intros Hnone i r Hi HP.
    assert ((i, r) ∈ found) as Hin.
    { apply list_elem_of_filter. split; [done|]. by apply (elem_of_lookup_imap_2 pair). }
    destruct found as [|x found']; [by apply elem_of_nil in Hin|].
    apply lookup_ge_None in Hnone.
    pose proof (Nat.mod_upper_bound pick (length (x :: found')) ltac:(done)). lia.
  - intros Hall. destruct found as [|[i r] found'] eqn:Hfound; [done|]. exfalso.
    assert ((i, r) ∈ found) as Hin by (rewrite Hfound; left).
    apply list_elem_of_filter in Hin as [HP Hin].
    apply elem_of_lookup_imap_1 in Hin as (j & y & [= -> ->] & Hj).
    by apply (Hall j y).
Qed.

(** When one row only matches, it is the row returned. *)
Lemma findAmong_unique pick rows i r :
  rows !! i = Some r -> P r ->
  (forall j y, rows !! j = Some y -> P y -> j = i) ->
  findAmong P pick rows = Some (i, r).
Proof.
  intros Hi HP Huniq.
  destruct (findAmong P pick rows) as [[j y]|] eqn:Hfound.
  - apply findAmong_Some in Hfound as [Hj HPy].
    pose proof (Huniq j y Hj HPy) as ->. congruence.
  - exfalso. by apply (proj1 (findAmong_None pick rows) Hfound i r).
Qed.
End Queries.

Section ServiceFacts.
Import Ledger.
Variable config : Config.Jwt.
Implicit Types (l : list RefreshToken.t) (r : RefreshToken.t) (db : Db).

Lemma exec_extends call db :
  extends (refreshTokens db) (refreshTokens (System.exec config call db)).
Proof.
  destruct call; simpl; service_cases;
    eauto using extends_refl, extends_alter, extends_updateWhere, extends_app, extends_trans.
Qed.

Lemma generateTokenPair_inv userId email role fleetId owned existing jti uuid clock pair :
  Jwt.generateTokenPair config userId email role fleetId owned existing jti uuid clock
    = Some pair ->
  exists access seconds claims,
    Config.getAccessTokenExpirySeconds config = Some access
    /\ Config.getRefreshTokenExpirySeconds config = Some seconds
    /\ Jwt.generateAccessToken config userId email role fleetId owned jti
         (Jwt.accessSignedAt clock) = Some (Jwt.accessToken pair)
    /\ Jwt.refreshToken pair = Compact claims (Config.secret config)
    /\ Claims.userId claims = userId
    /\ Claims.tokenFamily claims = Some (Jwt.tokenFamily pair)
    /\ Claims.iat claims = Jwt.refreshSignedAt clock / 1000
    /\ Claims.exp claims = Jwt.refreshSignedAt clock / 1000 + seconds
    /\ Jwt.tokenFamily pair = Jwt.familyOr existing uuid
    /\ Jwt.accessTokenExpiresIn pair = access
    /\ Jwt.refreshTokenExpiresAt pair = Jwt.dateNow clock + seconds * 1000.
Proof.
  unfold Jwt.generateTokenPair, Jwt.generateRefreshToken, Jwt.sign. intros H.
  destruct (Jwt.generateAccessToken _ _ _ _ _ _ _ _) as [a|] eqn:Ha; simplify_eq/=.
  destruct (Config.getRefreshTokenExpirySeconds config) as [seconds|]; simplify_eq/=.
  destruct (Config.getAccessTokenExpirySeconds config) as [access|]; simplify_eq/=.
  eexists _, _, _. repeat split; reflexivity.
Qed.

Lemma familyOr_some family uuid : family <> "" -> Jwt.familyOr (Some family) uuid = family.
Proof.
  intros Hne. unfold Jwt.familyOr.
  destruct (String.eqb_spec family ""); [done|reflexivity].
Qed.

Lemma familyOr_nonempty existing uuid :
  uuid <> "" -> Jwt.familyOr existing uuid <> "".
Proof.
  intros Hne. unfold Jwt.familyOr. destruct existing as [f|]; [|done].
  by destruct (String.eqb_spec f "").
Qed.

Lemma issued_consistent userId email role fleetId owned existing jti uuid clock pair
    expiresAt revokedAt createdAt :
  Jwt.generateTokenPair config userId email role fleetId owned existing jti uuid clock
    = Some pair ->
  consistent {| RefreshToken.userId := userId;
                RefreshToken.tokenHash := Password.hashToken (Jwt.refreshToken pair);
                RefreshToken.tokenFamily := Jwt.tokenFamily pair;
                RefreshToken.expiresAt := expiresAt;
                RefreshToken.revokedAt := revokedAt;
                RefreshToken.createdAt := createdAt |}.
Proof.
  intros (access & seconds & claims & _ & _ & _ & Htok & Hu & Hf & _)%generateTokenPair_inv.
  exists claims, (Config.secret config). simpl. by rewrite Htok.
Qed.

Lemma consistent_persists r r' : persists r r' -> consistent r -> consistent r'.
Proof.
  intros (Hu & Hh & Hf & _) (claims & key & ? & ? & ?).
  exists claims, key. rewrite Hu, Hh, Hf. done.
Qed.


Lemma wellFormed_updateWhere (P : RefreshToken.t -> Prop) `{forall x, Decision (P x)} now l :
  wellFormed l -> wellFormed (updateWhere P (RefreshToken.setRevokedAt now) l).
Proof.
  unfold wellFormed, updateWhere. intros Hwf. apply Forall_fmap.
  eapply Forall_impl; [exact Hwf|]. intros r [Hc Hf]. simpl. by case_decide.
Qed.

Lemma wellFormed_alter pk now l :
  wellFormed l -> wellFormed (alter (RefreshToken.setRevokedAt now) pk l).
Proof.
  unfold wellFormed. intros Hwf. apply Forall_alter; [done|]. by intros r _ [Hc Hf].
Qed.

Lemma wellFormed_snoc l r :
  wellFormed l -> consistent r -> RefreshToken.tokenFamily r <> "" -> wellFormed (l ++ [r]).
Proof. intros. apply Forall_app. split; [done|]. by apply Forall_singleton. Qed.

Lemma wellFormed_lookup l i r :
  wellFormed l -> l !! i = Some r -> consistent r /\ RefreshToken.tokenFamily r <> "".
Proof. intros Hwf Hi. by apply (Forall_lookup_1 _ _ _ _ Hwf Hi). Qed.

Lemma exec_wellFormed call db :
  System.admissible db call ->
  wellFormed (refreshTokens db) ->
  wellFormed (refreshTokens (System.exec config call db)).
Proof.
  destruct call; simpl; intros Hadm Hwf; service_cases;
    auto using wellFormed_alter, wellFormed_updateWhere.
  all: apply wellFormed_snoc;
    [auto using wellFormed_alter | by eapply issued_consistent | ].
  all: match goal with H : Jwt.generateTokenPair _ _ _ _ _ _ _ _ _ _ = Some _ |- _ =>
      apply generateTokenPair_inv in H as (?&?&?&_&_&_&_&_&_&_&_&Hfam&_&_) end.
  all: simpl; rewrite Hfam; apply familyOr_nonempty, Hadm.
Qed.



(** *** The stored rows of a token *)

Lemma found_Some token userId pick l i r :
  found token userId pick l = Some (i, r) -> l !! i = Some r /\ storedAs token userId r.
Proof.
  unfold found, storedAs.
  apply (findAmong_Some (fun r => RefreshToken.tokenHash r = Password.hashToken token
                                  /\ RefreshToken.userId r = userId)).
Qed.



(** In a later ledger of the same length, every row is a later state of
    the row that was at its position. *)
Lemma extends_backwards l l' i r' :
  length l' = length l -> extends l l' -> l' !! i = Some r' ->
  exists r, l !! i = Some r /\ persists r r'.
Proof.
  intros Hlen Hext Hi.
  assert (is_Some (l !! i)) as [r Hr].
  { apply lookup_lt_is_Some. rewrite <- Hlen. by eapply lookup_lt_Some. }
  destruct (Hext i r Hr) as (r'' & Hi' & Hp). exists r. split; [done|]. congruence.
Qed.

Lemma unrevoked_persists r r' :
  persists r r' -> RefreshToken.revokedAt r' = None -> RefreshToken.revokedAt r = None.
Proof.
  intros (_ & _ & _ & Hrev) Hnone. destruct (RefreshToken.revokedAt r) eqn:Hr; [|done].
  destruct Hrev as [x Hx]; [by eexists|]. congruence.
Qed.


Lemma closed_extends family l l' :
  length l' = length l -> extends l l' -> closed family l -> closed family l'.
Proof.
  intros Hlen Hext Hs i r' Hi Hh.
  destruct (extends_backwards _ _ _ _ Hlen Hext Hi) as (r & Hr & Hu & Hhash & Hf & Hrev).
  apply Hrev, (Hs i r Hr). congruence.
Qed.

Lemma chained_extends l l' :
  length l' = length l -> extends l l' -> chained l -> chained l'.
Proof.
  intros Hlen Hext Hc i j r1' r2' Hi Hj Hf.
  destruct (extends_backwards _ _ _ _ Hlen Hext Hi) as (r1 & Hr1 & Hp1).
  destruct (extends_backwards _ _ _ _ Hlen Hext Hj) as (r2 & Hr2 & Hp2).
  pose proof Hp1 as (Hu1 & _ & Hf1 & _). pose proof Hp2 as (Hu2 & _ & Hf2 & _).
  destruct (Hc i j r1 r2 Hr1 Hr2) as [Hu Huniq]; [congruence|].
  split; [congruence|]. intros Hn1 Hn2.
  apply Huniq; eauto using unrevoked_persists.
Qed.


Lemma closed_snoc family l r :
  closed family l -> RefreshToken.tokenFamily r <> family -> closed family (l ++ [r]).
Proof.
  intros Hs Hne i r' Hi Hh. apply lookup_app_Some in Hi as [Hi|[_ Hi]]; [by apply (Hs i)|].
  apply list_lookup_singleton_Some in Hi as [_ <-]. done.
Qed.

Lemma chained_snoc l r :
  chained l ->
  (forall j r', l !! j = Some r' ->
     RefreshToken.tokenFamily r' = RefreshToken.tokenFamily r ->
     RefreshToken.userId r' = RefreshToken.userId r
     /\ is_Some (RefreshToken.revokedAt r')) ->
  chained (l ++ [r]).
Proof.
  intros Hc Hnew i j r1 r2 Hi Hj Hf.
  apply lookup_app_Some in Hi as [Hi|[Hi Hi']];
    apply lookup_app_Some in Hj as [Hj|[Hj Hj']].
  - by apply (Hc i j r1 r2).
  - apply list_lookup_singleton_Some in Hj' as [_ <-].
    destruct (Hnew i r1 Hi Hf) as [Hu [x Hx]]. split; [done|]. congruence.
  - apply list_lookup_singleton_Some in Hi' as [_ <-].
    destruct (Hnew j r2 Hj (eq_sym Hf)) as [Hu [x Hx]]. split; [done|]. congruence.
  - apply list_lookup_singleton_Some in Hi' as [Hi' <-].
    apply list_lookup_singleton_Some in Hj' as [Hj' <-]. split; [done|]. lia.
Qed.

(** Once its whole family is revoked, a token is spent. *)
Lemma closed_spent family token claims key l :
  wellFormed l -> closed family l ->
  token = Compact claims key -> Claims.tokenFamily claims = Some family ->
  spent token l.
Proof.
  intros Hwf Hclosed -> Hfam i r Hi Hh. apply (Hclosed i r Hi).
  destruct (wellFormed_lookup _ _ _ Hwf Hi) as [(c & k & Hc & Hcf & _) _].
  rewrite Hh in Hc. injection Hc as <- _. congruence.
Qed.

(** *** What a call leaves of these properties *)



(** A family that is in the ledger with all its rows revoked stays so: a
    login draws another family, and a rotation needs a row that is not
    revoked. *)
Lemma exec_closed family call db :
  System.admissible db call ->
  wellFormed (refreshTokens db) ->
  (exists i r, refreshTokens db !! i = Some r /\ RefreshToken.tokenFamily r = family) ->
  closed family (refreshTokens db) ->
  closed family (refreshTokens (System.exec config call db)).
Proof.
  intros Hadm Hwf (i0 & r0 & Hi0 & Hf0) Hc.
  assert (Halter : forall pk now l, closed family l ->
            closed family (alter (RefreshToken.setRevokedAt now) pk l)).
  { intros. apply (closed_extends _ l); [apply length_alter|apply extends_alter|done]. }
  assert (Hupdate : forall (P : RefreshToken.t -> Prop) (H : forall x, Decision (P x)) now l,
            closed family l ->
            closed family (updateWhere P (RefreshToken.setRevokedAt now) l)).
  { intros. apply (closed_extends _ l); [apply length_fmap|apply extends_updateWhere|done]. }
  destruct call; simpl in *; service_cases; auto.
  all: apply closed_snoc; [auto|].
  all: match goal with H : Jwt.generateTokenPair _ _ _ _ _ _ _ _ _ _ = Some _ |- _ =>
      apply generateTokenPair_inv in H as (?&?&?&_&_&_&_&_&_&_&_&Hfam&_&_) end.
  all: simpl; rewrite Hfam.
  all: first
    [ (* login: the family drawn is fresh *)
      destruct Hadm as (_ & _ & Hfresh); simpl; intros Heq;
      apply (Hfresh r0); [by eapply list_elem_of_lookup_2|done]
    | (* rotation: the family of a row that is not revoked *)
      match goal with H : findAmong _ _ _ = Some (?pk, ?stored) |- _ =>
        apply findAmong_Some in H as [Hpk _];
        destruct (wellFormed_lookup _ _ _ Hwf Hpk) as [_ Hne];
        rewrite familyOr_some by done; intros Heq;
        destruct (Hc pk stored Hpk Heq) as [at_ Hat]; congruence
      end ].
Qed.

(** The rows of a family stay one user's, with at most one of them not
    revoked: a login opens a fresh family, and a rotation revokes the one
    row it continues. *)
Lemma exec_chained call db :
  System.admissible db call ->
  wellFormed (refreshTokens db) ->
  chained (refreshTokens db) ->
  chained (refreshTokens (System.exec config call db)).
Proof.
  intros Hadm Hwf Hc.
  assert (Halter : forall pk now l, chained l ->
            chained (alter (RefreshToken.setRevokedAt now) pk l)).
  { intros. apply (chained_extends l); [apply length_alter|apply extends_alter|done]. }
  assert (Hupdate : forall (P : RefreshToken.t -> Prop) (H : forall x, Decision (P x)) now l,
            chained l -> chained (updateWhere P (RefreshToken.setRevokedAt now) l)).
  { intros. apply (chained_extends l); [apply length_fmap|apply extends_updateWhere|done]. }
  destruct call; simpl in *; service_cases; auto.
  all: apply chained_snoc; [auto|].
  all: match goal with H : Jwt.generateTokenPair _ _ _ _ _ _ _ _ _ _ = Some _ |- _ =>
      apply generateTokenPair_inv in H as (?&?&?&_&_&_&_&_&_&_&_&Hfam&_&_) end.
  all: simpl; rewrite Hfam.
  all: first
    [ (* login: no row has the family drawn *)
      destruct Hadm as (_ & _ & Hfresh); simpl; intros j r' Hj Hf; exfalso;
      apply (Hfresh r'); [by eapply list_elem_of_lookup_2|done]
    | (* rotation: the row continued is the one row of its family that was
         not revoked, and it is now *)
      match goal with H : findAmong _ _ _ = Some (?pk, ?stored) |- _ =>
        apply findAmong_Some in H as [Hpk [_ Huser]];
        destruct (wellFormed_lookup _ _ _ Hwf Hpk) as [_ Hne];
        rewrite familyOr_some by done;
        intros j r' Hj Hf; destruct (decide (j = pk)) as [->|Hjn];
        [ rewrite list_lookup_alter_eq, Hpk in Hj; simplify_eq/=;
          split; [|by eexists]
        | rewrite list_lookup_alter_ne in Hj by done;
          destruct (Hc j pk r' stored Hj Hpk Hf) as [Hu Huniq];
          split; [rewrite Hu|
                  destruct (RefreshToken.revokedAt r') eqn:Hr; [by eexists|];
                  exfalso; apply Hjn; by apply Huniq] ]
      end;
      match goal with H : _ <$> list_find _ (users _) = Some ?u |- _ =>
        destruct (list_find _ (users _)) as [[? ?]|] eqn:Hu'; simplify_eq/=;
        apply list_find_Some in Hu' as (_ & [Hid _] & _); congruence
      end ].
Qed.

Lemma exec_occurs family call db :
  (exists i r, refreshTokens db !! i = Some r /\ RefreshToken.tokenFamily r = family) ->
  exists i r, refreshTokens (System.exec config call db) !! i = Some r
              /\ RefreshToken.tokenFamily r = family.
Proof.
  intros (i & r & Hi & Hf).
  destruct (exec_extends call db i r Hi) as (r' & Hi' & _ & _ & Hf' & _).
  exists i, r'. split; [done|congruence].
Qed.

Lemma run_closed family history db :
  System.valid config history db ->
  wellFormed (refreshTokens db) ->
  (exists i r, refreshTokens db !! i = Some r /\ RefreshToken.tokenFamily r = family) ->
  closed family (refreshTokens db) ->
  wellFormed (refreshTokens (System.run config history db))
  /\ closed family (refreshTokens (System.run config history db)).
Proof.
  revert db. induction history as [|call history IH]; intros db Hvalid Hwf Hocc Hc; simpl;
    [done|].
  destruct Hvalid as [Hcall Hvalid].
  apply IH; [done|by apply exec_wellFormed|by apply exec_occurs|by apply exec_closed].
Qed.

Lemma exec_minted call db :
  minted config (refreshTokens db) ->
  minted config (refreshTokens (System.exec config call db)).
Proof.
  assert (Halter : forall pk now l, minted config l ->
            minted config (alter (RefreshToken.setRevokedAt now) pk l)).
  { intros pk now l Hl Hne. apply Hl. by intros ->. }
  assert (Hupdate : forall (P : RefreshToken.t -> Prop) (H : forall x, Decision (P x)) now l,
            minted config l ->
            minted config (updateWhere P (RefreshToken.setRevokedAt now) l)).
  { intros P H now l Hl Hne. apply Hl. by intros ->. }
  destruct call; simpl; intros Hwf; service_cases; auto.
  all: intros _.
  all: match goal with H : Jwt.generateTokenPair _ _ _ _ _ _ _ _ _ _ = Some _ |- _ =>
      apply generateTokenPair_inv in H as (?&?&?&Ha&Hr&_) end.
  all: by rewrite Ha, Hr.
Qed.

Lemma run_invariant history db :
  System.valid config history db ->
  wellFormed (refreshTokens db) /\ chained (refreshTokens db)
  /\ minted config (refreshTokens db) ->
  wellFormed (refreshTokens (System.run config history db))
  /\ chained (refreshTokens (System.run config history db))
  /\ minted config (refreshTokens (System.run config history db)).
Proof.
  revert db. induction history as [|call history IH]; intros db Hv (Hwf & Hc & Hm); simpl;
    [done|].
  destruct Hv as [Hcall Hv]. apply IH; [done|].
  split; [by apply exec_wellFormed|]. split; [by apply exec_chained|by apply exec_minted].
Qed.

(** The invariants of the ledger in the states the service reaches. *)
Lemma reachable_invariant db :
  System.reachable config db ->
  wellFormed (refreshTokens db) /\ chained (refreshTokens db)
  /\ minted config (refreshTokens db).
Proof.
  intros (users & regulators & history & Hvalid & ->).
  apply run_invariant; [done|]. split; [apply Forall_nil_2|]. split; [|by intros ?].
  intros i j r r' Hi. simpl in Hi. by rewrite lookup_nil in Hi.
Qed.

Lemma reachable_wellFormed db :
  System.reachable config db -> wellFormed (refreshTokens db).
Proof. intros Hreach. by destruct (reachable_invariant db Hreach) as (Hwf & _). Qed.

(** *** [refreshTokens], case by case *)


Lemma refreshTokens_reuse token jti uuid pick now later clock db payload pk stored :
  Jwt.verifyRefreshToken config token now = inr payload ->
  found token (Claims.userId payload) pick (refreshTokens db) = Some (pk, stored) ->
  is_Some (RefreshToken.revokedAt stored) ->
  AuthService.refreshTokens config token jti uuid pick now later clock db =
    (Throws (AppError "Refresh token has been revoked" 403 "TOKEN_REVOKED"),
     {| users := users db; regulators := regulators db;
        refreshTokens :=
          updateWhere (fun r => RefreshToken.tokenFamily r = RefreshToken.tokenFamily stored)
            (RefreshToken.setRevokedAt now) (refreshTokens db);
        passwordResets := passwordResets db |}).
Proof.
  intros Hverify Hfind [at_ Hrev]. unfold found in Hfind.
  unfold AuthService.refreshTokens. rewrite Hverify.
  unfold bind, RefreshToken_findOne, RefreshToken_update, withRefreshTokens, throw.
  cbn zeta. rewrite Hfind, Hrev. reflexivity.
Qed.

(** A refresh with a spent token fails, whichever row the database
    returns for it. *)
Lemma refreshTokens_fails token jti uuid pick now later clock db :
  spent token (refreshTokens db) ->
  failed (fst (AuthService.refreshTokens config token jti uuid pick now later clock db)).
Proof.
  intros Hs.
  destruct (Jwt.verifyRefreshToken config token now) as [e|payload] eqn:Hverify.
  - unfold AuthService.refreshTokens. by rewrite Hverify.
  - destruct (found token (Claims.userId payload) pick (refreshTokens db))
      as [[k r]|] eqn:Hfind.
    + pose proof (found_Some _ _ _ _ _ _ Hfind) as [Hk [Hh _]].
      by rewrite (refreshTokens_reuse _ _ _ _ _ _ _ _ _ _ _ Hverify Hfind (Hs k r Hk Hh)).
    + unfold found in Hfind. unfold AuthService.refreshTokens. rewrite Hverify.
      unfold bind, RefreshToken_findOne, throw. cbn zeta. by rewrite Hfind.
Qed.


Lemma findByPk_id id db user :
  fst (User_findByPk id db) = Returns (Some user) -> User.id user = id.
Proof.
  unfold User_findByPk, User_findOne. simpl. intros [= Hu].
  destruct (list_find _ _) as [[i u]|] eqn:Hu'; simplify_eq/=.
  by apply list_find_Some in Hu' as (_ & [? _] & _).
Qed.

End ServiceFacts.

(** ** Rotation, reuse detection, password reset *)

Section Sessions.
Import Ledger Query.
Variable config : Config.Jwt.
Implicit Types (l : list RefreshToken.t) (r : RefreshToken.t) (db : Db).


Lemma resetPassword_Returns token newPassword salt now db message db' :
  AuthService.resetPassword token newPassword salt now db = (Returns message, db') ->
  exists pk record,
    resetRecord token (passwordResets db) = Some (pk, record)
    /\ now <= PasswordReset.expiresAt record
    /\ Password.valid (Password.validatePasswordStrength newPassword) = true
    /\ refreshTokens db' =
         updateWhere (fun r => RefreshToken.userId r = PasswordReset.userId record
                               /\ RefreshToken.revokedAt r = None)
           (RefreshToken.setRevokedAt now) (refreshTokens db).
Proof.
  intros H. unfold resetRecord. service_cases.
  match goal with H : (_ <? _) = false |- _ => apply Z.ltb_ge in H end.
  match goal with H : negb _ = false |- _ => apply negb_false_iff in H end.
  by eexists _, _.
Qed.

(** C3: a reset call that returns, in a reachable state, leaves every ledger
    row of the user of the reset record revoked in the state it returns
    with; whatever happens next, a refresh with a token that had a ledger
    row of that user before the reset fails, whichever row the database
    returns for it. *)
Theorem reset_revokes_sessions db token newPassword salt now message db' :
  System.reachable config db ->
  AuthService.resetPassword token newPassword salt now db = (Returns message, db') ->
  exists pk record,
    resetRecord token (passwordResets db) = Some (pk, record)
    /\ (forall i r, refreshTokens db' !! i = Some r ->
          RefreshToken.userId r = PasswordReset.userId record ->
          is_Some (RefreshToken.revokedAt r))
    /\ (forall i r refreshToken history jti uuid pick now' later clock,
          refreshTokens db !! i = Some r ->
          RefreshToken.userId r = PasswordReset.userId record ->
          RefreshToken.tokenHash r = Password.hashToken refreshToken ->
          System.valid config history db' ->
          failed (fst (AuthService.refreshTokens config refreshToken jti uuid pick
                         now' later clock (System.run config history db')))).
Proof.
  intros Hreach Hret.
  pose proof (reachable_invariant config db Hreach) as (Hwf & Hch & _).
  pose proof (resetPassword_Returns _ _ _ _ _ _ _ Hret) as (pk & record & Hrec & _ & _ & Hledger).
  exists pk, record. split; [done|].
  assert (Hall : forall i r, refreshTokens db' !! i = Some r ->
            RefreshToken.userId r = PasswordReset.userId record ->
            is_Some (RefreshToken.revokedAt r)).
  { intros i r Hi Hu. rewrite Hledger in Hi. unfold updateWhere in Hi.
    rewrite list_lookup_fmap in Hi.
    destruct (refreshTokens db !! i) as [x|]; [|done]. simpl in Hi. injection Hi as <-.
    case_decide as Hdec; [by eexists|].
    destruct (RefreshToken.revokedAt x) eqn:Hx; [by eexists|]. by destruct Hdec. }
  split; [exact Hall|].
  intros i r refreshToken history jti uuid pick now' later clock Hi Hu Hhash Hvalid.
  assert (extends (refreshTokens db) (refreshTokens db')) as Hext
    by (rewrite Hledger; apply extends_updateWhere).
  assert (length (refreshTokens db') = length (refreshTokens db)) as Hlen
    by (rewrite Hledger; apply length_fmap).
  assert (wellFormed (refreshTokens db')) as Hwf'
    by (rewrite Hledger; by apply wellFormed_updateWhere).
  (* the family of the token is closed by the reset *)
  assert (closed (RefreshToken.tokenFamily r) (refreshTokens db')) as Hclosed.
  { intros j y' Hj Hf. apply (Hall j y' Hj).
    destruct (extends_backwards _ _ _ _ Hlen Hext Hj) as (y & Hy & Hyu & _ & Hyf & _).
    destruct (Hch j i y r Hy Hi) as [Hsame _]; congruence. }
  assert (exists j y, refreshTokens db' !! j = Some y
                      /\ RefreshToken.tokenFamily y = RefreshToken.tokenFamily r) as Hocc.
  { destruct (Hext i r Hi) as (r' & Hi' & _ & _ & Hf' & _). by exists i, r'. }
  destruct (run_closed config _ history db' Hvalid Hwf' Hocc Hclosed) as [Hwf'' Hclosed''].
  apply refreshTokens_fails.
  destruct (wellFormed_lookup _ _ _ Hwf Hi) as [(c & key & Hc & Hcf & _) _].
  apply (closed_spent (RefreshToken.tokenFamily r) _ c key); [done|done| |done].
  rewrite Hhash in Hc. unfold Password.hashToken in Hc. by injection Hc.
Qed.

(** C10: whether no stored credential matches the email, or one matches and
    the password is wrong, [login] throws the same error, with one message,
    one status and one code, and leaves the tables as they were. *)
Theorem login_failure_uniform
    db email password jti uuid clock db' email' password' jti' uuid' clock' user :
  credential email (users db) = None ->
  credential email' (users db') = Some user ->
  Password.verifyPassword password' (User.passwordHash user) = false ->
  AuthService.login config email password jti uuid clock db =
    (Throws (AppError "Invalid email or password" 401 "INVALID_CREDENTIALS"), db)
  /\ AuthService.login config email' password' jti' uuid' clock' db' =
       (Throws (AppError "Invalid email or password" 401 "INVALID_CREDENTIALS"), db')
  /\ fst (AuthService.login config email password jti uuid clock db)
     = fst (AuthService.login config email' password' jti' uuid' clock' db').
Proof.
  unfold credential. intros Hnone Hsome Hwrong.
  assert (AuthService.login config email password jti uuid clock db =
           (Throws (AppError "Invalid email or password" 401 "INVALID_CREDENTIALS"), db)) as H1.
  { unfold AuthService.login, bind, User_findOne, throw. by rewrite Hnone. }
  assert (AuthService.login config email' password' jti' uuid' clock' db' =
           (Throws (AppError "Invalid email or password" 401 "INVALID_CREDENTIALS"), db')) as H2.
  { unfold AuthService.login, bind, User_findOne, throw. rewrite Hsome. cbn zeta.
    by rewrite Hwrong. }
  by rewrite H1, H2.
Qed.
End Sessions.

(** ** Realtime hub *)

Section HubFacts.
Import WebSocketService.

Lemma addSubscriber_lookup key id subs :
  addSubscriber key id subs !! key = Some (default ∅ (subs !! key) ∪ {[id]}).
Proof.
  unfold addSubscriber. case_bool_decide as Hkey.
  - destruct Hkey as [s Hs]. by rewrite lookup_alter_eq, Hs.
  - rewrite lookup_alter_eq, lookup_insert_eq.
    by destruct (subs !! key) as [s|] eqn:Hs; [destruct Hkey; eexists|].
Qed.

(** A SUBSCRIBE message for the regulator channel is honoured for every
    authenticated socket and every regulator id, whoever the user is. *)
Lemma handleSubscribe_regulator client user fleetId regulatorId hub :
  sockets hub !! client ≫= WebSocketClient.user = Some user ->
  truthy regulatorId = true ->
  exists hub',
    handleSubscribe client
      (Some {| channel := JsString "regulator"; fleetId := fleetId;
               regulatorId := regulatorId |}) hub = Some hub'
    /\ regulatorSubscriptions hub' !! regulatorId
       = Some (default ∅ (regulatorSubscriptions hub !! regulatorId) ∪ {[client]})
    /\ (WebSocketClient.sent <$> sockets hub' !! client)
       = ((fun sent => sent ++ [EvSUBSCRIBED (JsString "regulator") fleetId regulatorId])
            ∘ WebSocketClient.sent) <$> sockets hub !! client.
Proof.
  intros Huser Htruthy. unfold handleSubscribe. rewrite Huser, Htruthy.
  unfold strict_eq. rewrite bool_decide_eq_false_2 by done.
  rewrite bool_decide_eq_true_2 by done. simpl.
  eexists. split; [reflexivity|]. simpl. split; [apply addSubscriber_lookup|].
  rewrite !lookup_alter_eq. by destruct (sockets hub !! client).
Qed.
End HubFacts.

(** C6, at the failing input: Bob, a REG_OWNER, is denied by
    [canAccessRegulator] for regulator R-9 (fleet F2, owner Carol); his
    SUBSCRIBE message for its channel nevertheless puts his socket in that
    channel's subscriber set, and the socket is sent SUBSCRIBED and no
    ERROR. *)
Theorem regulator_subscribe_skips_authorization :
  (sockets Scenario.connected !! "c-bob" ≫= WebSocketClient.user) = Some Scenario.bob
  /\ Auth.canAccessRegulator Scenario.bob (Some "F2") (Some "u-carol") = false
  /\ regulatorSubscriptions Scenario.connected !! JsString "R-9" = None
  /\ regulatorSubscriptions Scenario.afterSubscribeR9 !! JsString "R-9" = Some {["c-bob"]}
  /\ (WebSocketClient.sent <$> sockets Scenario.afterSubscribeR9 !! "c-bob")
     = Some [EvCONNECTED "c-bob" "u-bob" (Some REG_OWNER) ∅;
             EvSUBSCRIBED (JsString "regulator") JsUndefined (JsString "R-9")]
  /\ (WebSocketClient.closed <$> sockets Scenario.afterSubscribeR9 !! "c-bob") = Some None.
Proof. repeat split; vm_compute; reflexivity. Qed.

(** C7, at the failing input: Bob's socket subscribed to a regulator channel
    named by the number 5; the subscription is recorded under the key 5 and
    as the string regulator:5 on the socket; [handleDisconnect] looks the
    channel up under the string 5, finds nothing, and leaves the socket's id
    in the subscriber set of the channel while removing it from the
    registry. *)
Theorem disconnect_leaves_numeric_channel :
  clients Scenario.afterSubscribe5 = {["c-bob"]}
  /\ (WebSocketClient.subscriptions <$> sockets Scenario.afterSubscribe5 !! "c-bob")
     = Some {["regulator:5"]}
  /\ regulatorSubscriptions Scenario.afterSubscribe5 !! JsNumber 5 = Some {["c-bob"]}
  /\ clients Scenario.afterDisconnect = ∅
  /\ (WebSocketClient.subscriptions <$> sockets Scenario.afterDisconnect !! "c-bob")
     = Some ∅
  /\ regulatorSubscriptions Scenario.afterDisconnect !! JsNumber 5 = Some {["c-bob"]}.
Proof. repeat split; vm_compute; reflexivity. Qed.


(** ** Unwinding a socket's subscriptions *)

Section Unwind.
Import WebSocketService HubInvariant.
Implicit Types (subs : gmap JsValue (gset string)) (store : gmap string WebSocketClient.t).

Lemma startsWith_append prefix s : startsWith prefix (prefix +:+ s) = true.
Proof. induction prefix as [|a p IH]; simpl; [done|]. by rewrite Ascii.eqb_refl. Qed.

Lemma dropPrefix_append prefix s : dropPrefix prefix (prefix +:+ s) = s.
Proof. induction prefix as [|a p IH]; simpl; [by destruct s|done]. Qed.

Lemma startsWith_split prefix s :
  startsWith prefix s = true -> s = prefix +:+ dropPrefix prefix s.
Proof.
  revert s. induction prefix as [|a p IH]; intros s; simpl; [by destruct s|].
  destruct s as [|b s]; [done|]. destruct (Ascii.eqb_spec a b) as [->|]; [|done].
  intros H. change (String b s = String b (p +:+ dropPrefix p s)). f_equal. by apply IH.
Qed.

Lemma append_inj prefix s1 s2 : prefix +:+ s1 = prefix +:+ s2 -> s1 = s2.
Proof. induction prefix as [|a p IH]; simpl; [done|]. intros [= H]. auto. Qed.

Lemma removeSubscriber_lookup key id subs k subscribers :
  removeSubscriber key id subs !! k = Some subscribers ->
  (k = key /\ (id ∉ subscribers)
   /\ exists before, subs !! key = Some before /\ subscribers = before ∖ {[id]})
  \/ (k <> key /\ subs !! k = Some subscribers).
Proof.
  unfold removeSubscriber. destruct (subs !! key) as [before|] eqn:Hkey.
  - case_bool_decide.
    + rewrite lookup_delete. case_decide; [done|]. by right.
    + rewrite lookup_insert. case_decide as Hk.
      * intros [= <-]. left. split; [done|]. split; [set_solver|]. by exists before.
      * by right.
  - intros Hk. right. split; [|done]. intros ->. by rewrite Hkey in Hk.
Qed.

Lemma addSubscriber_lookup_ne key id subs k :
  k <> key -> addSubscriber key id subs !! k = subs !! k.
Proof.
  intros Hne. unfold addSubscriber. rewrite lookup_alter_ne by done.
  case_bool_decide; [done|]. by rewrite lookup_insert_ne.
Qed.

(** *** [tracked] under the writes of the handlers *)

Lemma tracked_socket prefix subs store client f :
  tracked prefix subs store ->
  (forall socket, WebSocketClient.subscriptions socket
                  ⊆ WebSocketClient.subscriptions (f socket)) ->
  tracked prefix subs (alter f client store).
Proof.
  intros Htr Hf key subscribers c Hkey Hc.
  destruct (Htr key subscribers c Hkey Hc) as (id & socket & -> & Hsocket & Hsub).
  destruct (decide (c = client)) as [->|Hne].
  - exists id, (f socket). rewrite lookup_alter_eq, Hsocket. split; [done|].
    split; [done|]. by apply Hf.
  - exists id, socket. by rewrite lookup_alter_ne.
Qed.

Lemma tracked_subscribe prefix subs store client id :
  tracked prefix subs store -> is_Some (store !! client) ->
  tracked prefix (addSubscriber (JsString id) client subs)
    (alter (WebSocketClient.setSubscriptions (fun s => s ∪ {[prefix +:+ id]})) client store).
Proof.
  intros Htr [socket Hsocket] key subscribers c Hkey Hc.
  destruct (decide (key = JsString id)) as [->|Hne].
  - rewrite addSubscriber_lookup in Hkey. injection Hkey as <-.
    apply elem_of_union in Hc as [Hc| ->%elem_of_singleton].
    + destruct (subs !! JsString id) as [before|] eqn:Hbefore; [|set_solver].
      destruct (Htr _ _ c Hbefore Hc) as (id' & socket' & [= <-] & Hs & Hsub).
      destruct (decide (c = client)) as [->|Hne].
      * eexists id, _. rewrite lookup_alter_eq, Hs. split; [done|]. split; [done|].
        simpl. set_solver.
      * exists id, socket'. by rewrite lookup_alter_ne.
    + eexists id, _. rewrite lookup_alter_eq, Hsocket. split; [done|]. split; [done|].
      simpl. set_solver.
  - rewrite addSubscriber_lookup_ne in Hkey by done.
    destruct (Htr _ _ c Hkey Hc) as (id' & socket' & -> & Hs & Hsub).
    destruct (decide (c = client)) as [->|Hnc].
    + eexists id', _. rewrite lookup_alter_eq, Hs. split; [done|]. split; [done|].
      simpl. set_solver.
    + exists id', socket'. by rewrite lookup_alter_ne.
Qed.

Lemma tracked_unsubscribe prefix subs store client id :
  tracked prefix subs store ->
  tracked prefix (removeSubscriber (JsString id) client subs)
    (alter (WebSocketClient.setSubscriptions (fun s => s ∖ {[prefix +:+ id]})) client store).
Proof.
  intros Htr key subscribers c Hkey Hc.
  apply removeSubscriber_lookup in Hkey
    as [(-> & Hnotin & before & Hbefore & ->)|[Hne Hkey]].
  - apply elem_of_difference in Hc as [Hc Hnc%not_elem_of_singleton].
    destruct (Htr _ _ c Hbefore Hc) as (id' & socket & [= <-] & Hs & Hsub).
    exists id, socket. by rewrite lookup_alter_ne.
  - destruct (Htr _ _ c Hkey Hc) as (id' & socket & -> & Hs & Hsub).
    destruct (decide (c = client)) as [->|Hnc].
    + eexists id', _. rewrite lookup_alter_eq, Hs. split; [done|]. split; [done|].
      simpl. apply elem_of_difference. split; [done|].
      intros Heq%elem_of_singleton%append_inj. by subst.
    + exists id', socket. by rewrite lookup_alter_ne.
Qed.

(** Dropping a key of another channel kind from a socket. *)
Lemma tracked_unsubscribe_other prefix subs store client k :
  tracked prefix subs store ->
  (forall id, prefix +:+ id <> k) ->
  tracked prefix subs
    (alter (WebSocketClient.setSubscriptions (fun s => s ∖ {[k]})) client store).
Proof.
  intros Htr Hk key subscribers c Hkey Hc.
  destruct (Htr _ _ c Hkey Hc) as (id & socket & -> & Hs & Hsub).
  destruct (decide (c = client)) as [->|Hnc].
  - eexists id, _. rewrite lookup_alter_eq, Hs. split; [done|]. split; [done|].
    simpl. apply elem_of_difference. split; [done|].
    intros Heq%elem_of_singleton. by apply (Hk id).
  - exists id, socket. by rewrite lookup_alter_ne.
Qed.

(** *** [coherent] under the handlers *)

Lemma alter_is_Some store client (f : WebSocketClient.t -> WebSocketClient.t) c :
  is_Some (store !! c) -> is_Some (alter f client store !! c).
Proof.
  intros [s Hs]. rewrite lookup_alter. case_decide; subst; rewrite Hs; by eexists.
Qed.

Lemma coherent_onSocket client f hub :
  coherent hub ->
  (forall socket, WebSocketClient.subscriptions (f socket)
                  = WebSocketClient.subscriptions socket) ->
  coherent (onSocket client f hub).
Proof.
  intros (Hf & Hr & Hc) Hsame. unfold coherent, onSocket. simpl.
  split; [apply tracked_socket; [done|intros s; rewrite Hsame; set_solver]|].
  split; [apply tracked_socket; [done|intros s; rewrite Hsame; set_solver]|].
  intros c Hin. by apply alter_is_Some, Hc.
Qed.

Lemma coherent_send client event hub : coherent hub -> coherent (send client event hub).
Proof. intros H. by apply coherent_onSocket. Qed.

Lemma coherent_subscribeToFleet client id hub :
  coherent hub -> is_Some (sockets hub !! client) ->
  coherent (subscribeToFleet client (JsString id) hub).
Proof.
  intros (Hf & Hr & Hc) Hsocket. unfold coherent, subscribeToFleet. simpl.
  split; [by apply (tracked_subscribe "fleet:")|].
  split; [apply tracked_socket; [done|intros s; simpl; set_solver]|].
  intros c Hin. by apply alter_is_Some, Hc.
Qed.

Lemma coherent_subscribeToRegulator client id hub :
  coherent hub -> is_Some (sockets hub !! client) ->
  coherent (subscribeToRegulator client (JsString id) hub).
Proof.
  intros (Hf & Hr & Hc) Hsocket. unfold coherent, subscribeToRegulator. simpl.
  split; [apply tracked_socket; [done|intros s; simpl; set_solver]|].
  split; [by apply (tracked_subscribe "regulator:")|].
  intros c Hin. by apply alter_is_Some, Hc.
Qed.

Lemma coherent_unsubscribeFromFleet client id hub :
  coherent hub -> coherent (unsubscribeFromFleet client (JsString id) hub).
Proof.
  intros (Hf & Hr & Hc). unfold coherent, unsubscribeFromFleet. simpl.
  split; [by apply (tracked_unsubscribe "fleet:")|].
  split; [by apply tracked_unsubscribe_other|].
  intros c Hin. by apply alter_is_Some, Hc.
Qed.

Lemma coherent_unsubscribeFromRegulator client id hub :
  coherent hub -> coherent (unsubscribeFromRegulator client (JsString id) hub).
Proof.
  intros (Hf & Hr & Hc). unfold coherent, unsubscribeFromRegulator. simpl.
  split; [by apply tracked_unsubscribe_other|].
  split; [by apply (tracked_unsubscribe "regulator:")|].
  intros c Hin. by apply alter_is_Some, Hc.
Qed.

Lemma coherent_unwind client sub hub : coherent hub -> coherent (unwind client sub hub).
Proof.
  intros H. unfold unwind.
  destruct (startsWith "fleet:" sub); [by apply coherent_unsubscribeFromFleet|].
  destruct (startsWith "regulator:" sub); [by apply coherent_unsubscribeFromRegulator|done].
Qed.

Lemma coherent_unwind_all client subscriptions hub :
  coherent hub -> coherent (foldr (unwind client) hub subscriptions).
Proof. induction subscriptions; simpl; auto using coherent_unwind. Qed.

Lemma clients_unwind_all client subscriptions hub :
  clients (foldr (unwind client) hub subscriptions) = clients hub.
Proof.
  induction subscriptions as [|sub subscriptions IH]; simpl; [done|].
  unfold unwind. by repeat case_match.
Qed.

Lemma coherent_handleDisconnect client hub :
  coherent hub -> coherent (handleDisconnect client hub).
Proof.
  intros H. unfold handleDisconnect.
  destruct (coherent_unwind_all client
              (elements (default ∅ (WebSocketClient.subscriptions <$> sockets hub !! client)))
              hub H) as (Hf & Hr & Hc).
  repeat split; [done|done|]. simpl. intros c Hin. apply Hc. set_solver.
Qed.

Lemma coherent_handleMessage client message hub :
  coherent hub -> client ∈ clients hub -> wellTyped message ->
  coherent (handleMessage client message hub).
Proof.
  intros H Hin Htyped.
  pose proof (proj2 (proj2 H) client Hin) as Hsocket.
  unfold handleMessage. destruct message as [|type payload]; [by apply coherent_send|].
  repeat case_match; try by apply coherent_send.
  - (* SUBSCRIBE *)
    unfold handleSubscribe.
    destruct (sockets hub !! client ≫= WebSocketClient.user) as [user|]; [|done].
    destruct payload as [[channel fleetId regulatorId]|]; [|by apply coherent_send].
    destruct Htyped as [Hfleet Hregulator]. simpl in *.
    destruct (strict_eq channel (JsString "fleet") && truthy fleetId) eqn:Hf.
    { apply andb_true_iff in Hf as [_ [id ->]%Hfleet].
      case_match; simpl; apply coherent_send; [done|].
      by apply coherent_subscribeToFleet. }
    destruct (strict_eq channel (JsString "regulator") && truthy regulatorId) eqn:Hr.
    { apply andb_true_iff in Hr as [_ [id ->]%Hregulator].
      simpl. by apply coherent_send, coherent_subscribeToRegulator. }
    simpl. by apply coherent_send.
  - (* UNSUBSCRIBE *)
    unfold handleUnsubscribe.
    destruct payload as [[channel fleetId regulatorId]|]; [|by apply coherent_send].
    destruct Htyped as [Hfleet Hregulator]. simpl in *.
    destruct (strict_eq channel (JsString "fleet") && truthy fleetId) eqn:Hf.
    { apply andb_true_iff in Hf as [_ [id ->]%Hfleet].
      simpl. by apply coherent_send, coherent_unsubscribeFromFleet. }
    destruct (strict_eq channel (JsString "regulator") && truthy regulatorId) eqn:Hr.
    { apply andb_true_iff in Hr as [_ [id ->]%Hregulator].
      simpl. by apply coherent_send, coherent_unsubscribeFromRegulator. }
    simpl. by apply coherent_send.
Qed.

Lemma coherent_autoSubscribe client hub :
  coherent hub -> is_Some (sockets hub !! client) ->
  (forall user, sockets hub !! client ≫= WebSocketClient.user = Some user ->
     stringId (Claims.fleetId user)) ->
  coherent (autoSubscribe client hub).
Proof.
  intros H Hsocket Hid. unfold autoSubscribe.
  destruct (sockets hub !! client ≫= WebSocketClient.user) as [user|]; [|done].
  destruct (truthy (Claims.fleetId user)) eqn:Htruthy; simpl; [|done].
  destruct (Hid user eq_refl Htruthy) as [id ->].
  case_match; [|done]. by apply coherent_subscribeToFleet.
Qed.

Lemma coherent_connection config id token now hub :
  coherent hub -> sockets hub !! id = None ->
  (forall raw payload, token = Some raw ->
     Jwt.verifyAccessToken config raw now = inr payload ->
     stringId (Claims.fleetId payload)) ->
  coherent (connection config id token now hub).
Proof.
  intros (Hf & Hr & Hc) Hfresh Htoken. unfold connection.
  set (client := {| WebSocketClient.id := id; WebSocketClient.user := None;
                    WebSocketClient.subscriptions := ∅; WebSocketClient.isAlive := true;
                    WebSocketClient.sent := []; WebSocketClient.closed := None |}).
  set (hub1 := {| sockets := <[id := client]> (sockets hub); clients := clients hub;
                  fleetSubscriptions := fleetSubscriptions hub;
                  regulatorSubscriptions := regulatorSubscriptions hub |}).
  assert (coherent hub1) as H1.
  { assert (forall prefix subs, tracked prefix subs (sockets hub) ->
              tracked prefix subs (<[id := client]> (sockets hub))) as Hins.
    { intros prefix subs Htr key subscribers c Hkey Hin.
      destruct (Htr key subscribers c Hkey Hin) as (i & socket & -> & Hs & Hsub).
      exists i, socket. rewrite lookup_insert_ne; [done|]. intros <-. congruence. }
    repeat split; simpl; [by apply Hins|by apply Hins|].
    intros c Hin. rewrite lookup_insert. case_decide; [by eexists|by apply Hc]. }
  assert (coherent (onSocket id (WebSocketClient.close 4001 "Authentication required")
                      (send id (EvERROR "Authentication required") hub1))) as HnoToken.
  { apply coherent_onSocket; [by apply coherent_send|done]. }
  destruct token as [raw|]; [|done].
  assert (forall payload, Jwt.verifyAccessToken config raw now = inr payload ->
            coherent
              (send id
                 (EvCONNECTED id (Claims.userId payload) (Claims.role payload)
                    (default ∅ (WebSocketClient.subscriptions <$>
                       sockets (autoSubscribe id
                                  (onClients (fun registry => registry ∪ {[id]})
                                     (onSocket id (WebSocketClient.setUser payload) hub1)))
                         !! id)))
                 (autoSubscribe id
                    (onClients (fun registry => registry ∪ {[id]})
                       (onSocket id (WebSocketClient.setUser payload) hub1))))) as Hok.
  { intros payload Hverify. apply coherent_send, coherent_autoSubscribe.
    - destruct (coherent_onSocket id (WebSocketClient.setUser payload) hub1 H1)
        as (Hf' & Hr' & Hc'); [done|].
      repeat split; [done|done|]. simpl. intros c [Hin| ->%elem_of_singleton]%elem_of_union.
      + by apply Hc'.
      + rewrite lookup_alter_eq, lookup_insert_eq. by eexists.
    - simpl. rewrite lookup_alter_eq, lookup_insert_eq. by eexists.
    - simpl. rewrite lookup_alter_eq, lookup_insert_eq. simpl. intros user [= <-].
      by apply (Htoken raw payload). }
  assert (coherent (onSocket id (WebSocketClient.close 4002 "Invalid token")
                      (send id (EvERROR "Invalid or expired token") hub1))) as Hbad.
  { apply coherent_onSocket; [by apply coherent_send|done]. }
  destruct raw as [claims key|s].
  - destruct (Jwt.verifyAccessToken config (Compact claims key) now) eqn:Hverify; auto.
  - destruct s; [done|].
    destruct (Jwt.verifyAccessToken config (Opaque (String a s)) now) eqn:Hverify; auto.
Qed.

Lemma coherent_beat client hub : coherent hub -> coherent (beat client hub).
Proof.
  intros H. unfold beat. destruct (sockets hub !! client) as [socket|]; [|done].
  destruct (negb (WebSocketClient.isAlive socket)).
  - apply coherent_onSocket; [by apply coherent_handleDisconnect|done].
  - by apply coherent_onSocket.
Qed.

Lemma coherent_heartbeat hub : coherent hub -> coherent (heartbeat hub).
Proof.
  intros H. unfold heartbeat.
  induction (elements (clients hub)) as [|c cs IH]; simpl; [done|]. by apply coherent_beat.
Qed.

Lemma coherent_pong client hub : coherent hub -> coherent (pong client hub).
Proof. intros H. by apply coherent_onSocket. Qed.

Lemma reachable_coherent config hub : reachable config true hub -> coherent hub.
Proof.
  unfold reachable. revert hub.
  apply (rtc_ind_r (fun hub => coherent hub) WebSocketService.empty).
  - split; [|split].
    + intros key subscribers c Hkey. simpl in Hkey. by rewrite lookup_empty in Hkey.
    + intros key subscribers c Hkey. simpl in Hkey. by rewrite lookup_empty in Hkey.
    + intros c Hin. by apply elem_of_empty in Hin.
  - intros hub hub' _ Hstep IH.
    destruct Hstep as [id token now Hfresh Htoken|client message Hin Htyped|client| |client Hin].
    + apply coherent_connection; [done|done|by apply Htoken].
    + apply coherent_handleMessage; [done|done|by apply Htyped].
    + by apply coherent_handleDisconnect.
    + by apply coherent_heartbeat.
    + by apply coherent_pong.
Qed.

(** *** What the loop of [handleDisconnect] removes *)

(** A subscriber that survives the loop was there before it, under a key
    the loop did not visit. *)
Lemma unwind_all_fleet client visited hub key subscribers :
  fleetSubscriptions (foldr (unwind client) hub visited) !! key = Some subscribers ->
  client ∈ subscribers ->
  (exists before, fleetSubscriptions hub !! key = Some before /\ client ∈ before)
  /\ forall id, key = JsString id -> ("fleet:" +:+ id) ∉ visited.
Proof.
  revert key subscribers. induction visited as [|sub visited IH]; intros key subscribers.
  - simpl. intros Hkey Hin. split; [by exists subscribers|]. intros id _. apply not_elem_of_nil.
  - simpl. unfold unwind at 1.
    destruct (startsWith "fleet:" sub) eqn:Hfleet.
    + apply startsWith_split in Hfleet.
      set (fleetId := dropPrefix "fleet:" sub) in *. simpl. intros Hkey Hin.
      apply removeSubscriber_lookup in Hkey as [(-> & Hnotin & _)|[Hne Hkey]]; [done|].
      destruct (IH _ _ Hkey Hin) as [Hbefore Hvisited]. split; [done|].
      intros id ->. apply not_elem_of_cons. split; [|by apply Hvisited].
      intros Heq. apply Hne. f_equal. apply (append_inj "fleet:"). congruence.
    + destruct (startsWith "regulator:" sub) eqn:Hregulator; simpl.
      * intros Hkey Hin. destruct (IH _ _ Hkey Hin) as [Hbefore Hvisited]. split; [done|].
        intros id ->. apply not_elem_of_cons. split; [|by apply Hvisited].
        intros <-. by rewrite startsWith_append in Hfleet.
      * intros Hkey Hin. destruct (IH _ _ Hkey Hin) as [Hbefore Hvisited]. split; [done|].
        intros id ->. apply not_elem_of_cons. split; [|by apply Hvisited].
        intros <-. by rewrite startsWith_append in Hfleet.
Qed.

Lemma unwind_all_regulator client visited hub key subscribers :
  regulatorSubscriptions (foldr (unwind client) hub visited) !! key = Some subscribers ->
  client ∈ subscribers ->
  (exists before, regulatorSubscriptions hub !! key = Some before /\ client ∈ before)
  /\ forall id, key = JsString id -> ("regulator:" +:+ id) ∉ visited.
Proof.
  revert key subscribers. induction visited as [|sub visited IH]; intros key subscribers.
  - simpl. intros Hkey Hin. split; [by exists subscribers|]. intros id _. apply not_elem_of_nil.
  - simpl. unfold unwind at 1.
    destruct (startsWith "fleet:" sub) eqn:Hfleet.
    + apply startsWith_split in Hfleet.
      set (fleetId := dropPrefix "fleet:" sub) in *. simpl. intros Hkey Hin.
      destruct (IH _ _ Hkey Hin) as [Hbefore Hvisited]. split; [done|].
      intros id ->. apply not_elem_of_cons. split; [|by apply Hvisited].
      intros Heq. by rewrite Hfleet in Heq.
    + destruct (startsWith "regulator:" sub) eqn:Hregulator.
      * apply startsWith_split in Hregulator.
        set (regulatorId := dropPrefix "regulator:" sub) in *. simpl. intros Hkey Hin.
        apply removeSubscriber_lookup in Hkey as [(-> & Hnotin & _)|[Hne Hkey]]; [done|].
        destruct (IH _ _ Hkey Hin) as [Hbefore Hvisited]. split; [done|].
        intros id ->. apply not_elem_of_cons. split; [|by apply Hvisited].
        intros Heq. apply Hne. f_equal. apply (append_inj "regulator:"). congruence.
      * simpl. intros Hkey Hin. destruct (IH _ _ Hkey Hin) as [Hbefore Hvisited]. split; [done|].
        intros id ->. apply not_elem_of_cons. split; [|by apply Hvisited].
        intros <-. by rewrite startsWith_append in Hregulator.
Qed.

(** X29: when every channel id comes as a string, the type the handlers declare,
    the disconnect handler leaves no residue: in every state the hub
    reaches, after [handleDisconnect] the socket's id is in no subscriber
    set of a fleet or regulator channel and not in the registry. *)
Theorem disconnect_unwinds_string_channels config hub client :
  reachable config true hub ->
  (client ∉ clients (handleDisconnect client hub))
  /\ (forall key subscribers,
        fleetSubscriptions (handleDisconnect client hub) !! key = Some subscribers ->
        client ∉ subscribers)
  /\ (forall key subscribers,
        regulatorSubscriptions (handleDisconnect client hub) !! key = Some subscribers ->
        client ∉ subscribers).
Proof.
  intros (Hf & Hr & _)%reachable_coherent. unfold handleDisconnect.
  set (subscriptions := default ∅ (WebSocketClient.subscriptions <$> sockets hub !! client)).
  split; [simpl; set_solver|]. simpl. split.
  - intros key subscribers Hkey Hin.
    destruct (unwind_all_fleet _ _ _ _ _ Hkey Hin) as [(before & Hbefore & Hin') Hvisited].
    destruct (Hf key before client Hbefore Hin') as (id & socket & -> & Hsocket & Hsub).
    apply (Hvisited id eq_refl). apply elem_of_elements.
    subst subscriptions. by rewrite Hsocket.
  - intros key subscribers Hkey Hin.
    destruct (unwind_all_regulator _ _ _ _ _ Hkey Hin)
      as [(before & Hbefore & Hin') Hvisited].
    destruct (Hr key before client Hbefore Hin') as (id & socket & -> & Hsocket & Hsub).
    apply (Hvisited id eq_refl). apply elem_of_elements.
    subst subscriptions. by rewrite Hsocket.
Qed.
End Unwind.
(** ** The worked history *)

Lemma scenario_db1_reachable : System.reachable Scenario.config Scenario.db1.
Proof.
  exists [Scenario.alice], [],
    [Login "alice@example.com" "StrongPass123!" "jti-0" "family-0" (Jwt.once 0)].
  split; [|reflexivity]. split; [|done].
  split; [done|]. split; [done|]. intros r Hr. by apply elem_of_nil in Hr.
Qed.

Lemma scenario_db2_reachable : System.reachable Scenario.config Scenario.db2.
Proof.
  exists [Scenario.alice], [],
    [Login "alice@example.com" "StrongPass123!" "jti-0" "family-0" (Jwt.once 0);
     RefreshTokens Scenario.token0 "jti-1" "family-1" 0
       (3 * Scenario.day) (3 * Scenario.day) (Jwt.once (3 * Scenario.day))].
  split; [|reflexivity]. split; [|by split].
  split; [done|]. split; [done|]. intros r Hr. by apply elem_of_nil in Hr.
Qed.


Lemma scenario_forgot_reachable : System.reachable Scenario.config (snd Scenario.forgot).
Proof.
  exists [Scenario.alice], [],
    [Login "alice@example.com" "StrongPass123!" "jti-0" "family-0" (Jwt.once 0);
     RefreshTokens Scenario.token0 "jti-1" "family-1" 0
       (3 * Scenario.day) (3 * Scenario.day) (Jwt.once (3 * Scenario.day));
     ForgotPassword "alice@example.com" "5e7" (4 * Scenario.day)].
  split; [|reflexivity]. split; [|by repeat split].
  split; [done|]. split; [done|]. intros r Hr. by apply elem_of_nil in Hr.
Qed.

(** C2, at the failing input: Alice's refresh token is presented for
    rotation half a second after her login, within the second in which it
    was issued.  The rotation returns, and the refresh token it returns is
    the presented token itself: a refresh token carries the user, the
    e-mail, the family and the seconds of issue and of expiry, and nothing
    else.  The ledger then holds two rows with the digest of that token,
    the first revoked and the second not.  The token is presented once
    more, and the query of the ledger matches both rows: when the database
    returns the second the call returns a new pair, and the token has been
    used twice; when it returns the first the call fails with
    TOKEN_REVOKED and revokes the session the client has just been given. *)
Theorem rotation_within_the_second_reissues_the_token :
  System.reachable Scenario.config Scenario.db1
  /\ Scenario.loggedIn = (Returns Scenario.response0, Scenario.db1)
  /\ LoginResponse.refreshToken Scenario.response0 = Scenario.token0
  /\ Scenario.rotatedAtOnce = (Returns Scenario.responseAtOnce, snd Scenario.rotatedAtOnce)
  /\ TokenRefreshResponse.refreshToken Scenario.responseAtOnce = Scenario.token0
  /\ refreshTokens (snd Scenario.rotatedAtOnce)
     = [Scenario.row0AtOnce; Scenario.row1AtOnce]
  /\ Ledger.found Scenario.token0 "u-alice" 1 (refreshTokens (snd Scenario.rotatedAtOnce))
     = Some (1%nat, Scenario.row1AtOnce)
  /\ Ledger.found Scenario.token0 "u-alice" 0 (refreshTokens (snd Scenario.rotatedAtOnce))
     = Some (0%nat, Scenario.row0AtOnce)
  /\ Scenario.usedAgain = (Returns Scenario.responseAgain, snd Scenario.usedAgain)
  /\ fst Scenario.lockedOut
     = Throws (AppError "Refresh token has been revoked" 403 "TOKEN_REVOKED")
  /\ Forall (fun r => is_Some (RefreshToken.revokedAt r))
       (refreshTokens (snd Scenario.lockedOut)).
Proof.
  split; [exact scenario_db1_reachable|].
  do 8 (split; [vm_compute; reflexivity|]).
  repeat constructor; by eexists.
Qed.

(** ** The theorems at work on the worked history *)


(** C3 on the worked history: the reset of the fourth day, and the token of
    the rotation presented after it. *)
Lemma reset_revokes_sessions_witness :
  System.reachable Scenario.config (snd Scenario.forgot)
  /\ Scenario.reset = (Returns "Password reset successful", snd Scenario.reset)
  /\ failed (fst Scenario.afterReset).
Proof.
  split; [exact scenario_forgot_reachable|]. split; [reflexivity|].
  destruct (reset_revokes_sessions Scenario.config (snd Scenario.forgot)
              (Opaque "5e7") "NewPass456?" "salt2" (4 * Scenario.day + 60000)
              "Password reset successful" (snd Scenario.reset)
              scenario_forgot_reachable eq_refl)
    as (pk & record & Hrecord & _ & Hfails).
  assert (PasswordReset.userId record = "u-alice") as Huser.
  { change (Query.resetRecord (Opaque "5e7") (passwordResets (snd Scenario.forgot))) with
      (Query.resetRecord (Opaque "5e7")
         [{| PasswordReset.userId := "u-alice";
             PasswordReset.tokenHash := Password.hashToken (Opaque "5e7");
             PasswordReset.expiresAt := 4 * Scenario.day + 60 * 60 * 1000;
             PasswordReset.usedAt := None |}]) in Hrecord.
    apply list_find_Some in Hrecord as (Hrow & _).
    destruct pk as [|pk]; [|by destruct pk]. by injection Hrow as <-. }
  refine (Hfails 1%nat _ Scenario.token1 [] "jti-4" "family-4" 0%nat
            (4 * Scenario.day + 120000) (4 * Scenario.day + 120000)
            (Jwt.once (4 * Scenario.day + 120000)) eq_refl _ eq_refl I).
  by rewrite Huser.
Defined.

(** C8 on the worked history: Alice's first refresh token, verified as an
    access token on the third day. *)
Lemma refresh_token_verifies_as_access_token_witness :
  Jwt.generateRefreshToken Scenario.config "u-alice" "alice@example.com" None "family-0" 0
    = Some (Scenario.token0, "family-0")
  /\ Config.getRefreshTokenExpirySeconds Scenario.config = Some 604800
  /\ (3 * Scenario.day) / 1000 < 0 / 1000 + 604800
  /\ exists payload,
       Jwt.verifyAccessToken Scenario.config Scenario.token0 (3 * Scenario.day)
         = inr payload
       /\ Claims.role payload = None.
Proof.
  split; [reflexivity|]. split; [reflexivity|]. split; [reflexivity|].
  destruct (refresh_token_verifies_as_access_token Scenario.config
              "u-alice" "alice@example.com" None "family-0" 0 Scenario.token0 "family-0"
              604800 (3 * Scenario.day) eq_refl eq_refl eq_refl)
    as (payload & Haccess & _ & _ & _ & _ & Hrole & _).
  by exists payload.
Defined.

(** C10 on the worked history: an unknown email and a wrong password for
    Alice. *)
Lemma login_failure_uniform_witness :
  Query.credential "mallory@example.com" (users Scenario.db0) = None
  /\ Query.credential "alice@example.com" (users Scenario.db0) = Some Scenario.alice
  /\ Password.verifyPassword "guess" (User.passwordHash Scenario.alice) = false
  /\ fst (AuthService.login Scenario.config "mallory@example.com" "guess"
             "jti-5" "family-5" (Jwt.once 0) Scenario.db0)
     = fst (AuthService.login Scenario.config "alice@example.com" "guess"
              "jti-6" "family-6" (Jwt.once 0) Scenario.db0).
Proof.
  split; [reflexivity|]. split; [reflexivity|]. split; [reflexivity|].
  exact (proj2 (proj2 (login_failure_uniform Scenario.config
           Scenario.db0 "mallory@example.com" "guess" "jti-5" "family-5" (Jwt.once 0)
           Scenario.db0 "alice@example.com" "guess" "jti-6" "family-6" (Jwt.once 0)
           Scenario.alice eq_refl eq_refl eq_refl))).
Defined.

(** C4 on Alice's claims, those of a FLEET_MGR of fleet F1. *)
Lemma canManageUser_spec_witness :
  Claims.role Scenario.manager = Some FLEET_MGR
  /\ Auth.canManageUser Scenario.manager ADMIN (Some "F1") = false
  /\ Auth.canManageUser Scenario.manager FLEET_USER (Some "F1") = true.
Proof.
  split; [reflexivity|]. split.
  - exact (proj1 (proj2 (canManageUser_spec Scenario.manager ADMIN (Some "F1"))) eq_refl).
  - apply (proj1 (canManageUser_spec Scenario.manager FLEET_USER (Some "F1"))).
    right. split; [reflexivity|]. split; [by left|reflexivity].
Defined.

(** C5 on Alice's claims. *)
Lemma canAccessFleet_spec_witness :
  Claims.role Scenario.manager = Some FLEET_MGR
  /\ Claims.fleetId Scenario.manager = JsString "F1"
  /\ Auth.canAccessFleet Scenario.manager "F1" = true.
Proof.
  split; [reflexivity|]. split; [reflexivity|].
  apply (proj1 (canAccessFleet_spec Scenario.manager "F1")).
  right. split; [by left|reflexivity].
Defined.

(** ** Request gates *)

Section Gates.
Variable config : Config.Jwt.
Implicit Types (req : Auth.Request) (user : JwtPayload).

Lemma authenticate_Bearer req now token :
  Auth.authorization req = Some [Opaque "Bearer"; token] ->
  Auth.authenticate config req now =
    match Jwt.verifyAccessToken config token now with
    | inr payload =>
        Auth.Next {| Auth.authorization := Auth.authorization req;
                     Auth.user := Some payload |}
    | inl Jwt.TokenExpiredError =>
        Auth.Answered (Response.unauthorized "Token has expired")
    | inl Jwt.JsonWebTokenError =>
        Auth.Answered (Response.unauthorized "Invalid token")
    end.
Proof. intros Hh. unfold Auth.authenticate. by rewrite Hh. Qed.

(** X1: [authenticate] lets a request through exactly when its header is the
    word Bearer, one space and a token that [verifyAccessToken] accepts at
    that time; [req.user] is then the payload of the token, whatever the
    request carried there before.  Every other request is answered 401
    UNAUTHORIZED, an expired token and an otherwise invalid one with their
    own messages. *)
Theorem authenticate_spec req now :
  (forall req', Auth.authenticate config req now = Auth.Next req' <->
     exists token payload,
       Auth.authorization req = Some [Opaque "Bearer"; token]
       /\ Jwt.verifyAccessToken config token now = inr payload
       /\ req' = {| Auth.authorization := Auth.authorization req;
                    Auth.user := Some payload |})
  /\ (forall res, Auth.authenticate config req now = Auth.Answered res ->
        Response.statusCode res = 401 /\ Response.code res = "UNAUTHORIZED")
  /\ (forall token,
        Auth.authorization req = Some [Opaque "Bearer"; token] ->
        Jwt.verifyAccessToken config token now = inl Jwt.TokenExpiredError ->
        Auth.authenticate config req now
          = Auth.Answered (Response.unauthorized "Token has expired"))
  /\ (forall token,
        Auth.authorization req = Some [Opaque "Bearer"; token] ->
        Jwt.verifyAccessToken config token now = inl Jwt.JsonWebTokenError ->
        Auth.authenticate config req now
          = Auth.Answered (Response.unauthorized "Invalid token")).
Proof.
  split; [|split; [|split]].
  - intros req'. split.
    + unfold Auth.authenticate. intros H.
      repeat (case_match; simplify_eq/=); try case_bool_decide; simplify_eq/=;
        by eexists _, _.
    + intros (token & payload & Hh & Hv & ->).
      by rewrite (authenticate_Bearer _ _ _ Hh), Hv.
  - intros res. unfold Auth.authenticate. intros H.
    repeat (case_match; simplify_eq/=); try case_bool_decide; simplify_eq/=; done.
  - intros token Hh Hv. by rewrite (authenticate_Bearer _ _ _ Hh), Hv.
  - intros token Hh Hv. by rewrite (authenticate_Bearer _ _ _ Hh), Hv.
Qed.

Lemma requireRoles_Next allowed req req' :
  Auth.requireRoles allowed req = Auth.Next req' <->
  req' = req
  /\ exists user role, Auth.user req = Some user /\ Claims.role user = Some role
                       /\ role ∈ allowed.
Proof.
  unfold Auth.requireRoles, includes. split.
  - intros H. destruct (Auth.user req) as [user|]; [|done].
    destruct (Claims.role user) as [role|] eqn:Hrole; [|done]. simpl in H.
    case_bool_decide; [|done]. simplify_eq/=. split; [done|]. by exists user, role.
  - intros (-> & user & role & -> & -> & Hin). simpl.
    by rewrite bool_decide_eq_true_2.
Qed.

Lemma requireRoles_mono allowed allowed' req req' :
  (forall role, role ∈ allowed -> role ∈ allowed') ->
  Auth.requireRoles allowed req = Auth.Next req' ->
  Auth.requireRoles allowed' req = Auth.Next req'.
Proof.
  intros Hsub (-> & user & role & Hu & Hr & Hin)%requireRoles_Next.
  apply requireRoles_Next. split; [done|]. exists user, role. auto.
Qed.

(** X2: a role gate never rewrites the request, and the named gates are
    ordered as their role lists are: a request that passes [requireAdmin]
    passes [requireAdminOrSubAdmin] and [requireFleetManager], and one that
    passes either of these passes [requireFleetAccess].  A request that no
    [authenticate] has marked is answered 401, a marked one whose role is
    not listed 403. *)
Theorem named_gates req :
  (forall allowed req', Auth.requireRoles allowed req = Auth.Next req' -> req' = req)
  /\ (forall req', Auth.requireAdmin req = Auth.Next req' ->
        Auth.requireAdminOrSubAdmin req = Auth.Next req'
        /\ Auth.requireFleetManager req = Auth.Next req')
  /\ (forall req', Auth.requireAdminOrSubAdmin req = Auth.Next req' ->
        Auth.requireFleetAccess req = Auth.Next req')
  /\ (forall req', Auth.requireFleetManager req = Auth.Next req' ->
        Auth.requireFleetAccess req = Auth.Next req')
  /\ (forall allowed, Auth.user req = None ->
        Auth.requireRoles allowed req
          = Auth.Answered (Response.unauthorized "Not authenticated"))
  /\ (forall allowed user, Auth.user req = Some user ->
        (forall role, Claims.role user = Some role -> role ∉ allowed) ->
        Auth.requireRoles allowed req
          = Auth.Answered (Response.forbidden "Insufficient permissions")).
Proof.
  unfold Auth.requireAdmin, Auth.requireAdminOrSubAdmin, Auth.requireFleetManager,
    Auth.requireFleetAccess.
  split; [|split; [|split; [|split; [|split]]]].
  - by intros allowed req' (-> & _)%requireRoles_Next.
  - intros req' H. split; revert H; apply requireRoles_mono; set_solver.
  - intros req'. apply requireRoles_mono. set_solver.
  - intros req'. apply requireRoles_mono. set_solver.
  - intros allowed Hu. unfold Auth.requireRoles. by rewrite Hu.
  - intros allowed user Hu Hnot. unfold Auth.requireRoles, includes. rewrite Hu.
    destruct (Claims.role user) as [role|]; [|done]. simpl.
    by rewrite bool_decide_eq_false_2 by auto.
Qed.
End Gates.

(** ** The predicates against each other and against the gates *)

Section Access.
Variable config : Config.Jwt.
Implicit Types (actor : JwtPayload) (req : Auth.Request).

Lemma truthy_nullable (s : option string) :
  truthy (nullable s) = true <-> exists f, s = Some f /\ f <> "".
Proof.
  destruct s as [f|]; simpl.
  - destruct (String.eqb_spec f ""); simpl; naive_solver.
  - naive_solver.
Qed.

(** X3: [canAccessRegulator] holds exactly for an ADMIN or SUB_ADMIN actor, for
    a FLEET_MGR, SUB_FLEET_MGR or FLEET_USER actor when the regulator has a
    fleet, not the empty string, that is the actor's fleet scope, and for a
    REG_OWNER actor when the regulator's owner is the actor; a regulator
    without fleet is out of reach of every fleet-scoped role. *)
Theorem canAccessRegulator_spec actor (regulatorFleetId regulatorOwnerId : option string) :
  (Auth.canAccessRegulator actor regulatorFleetId regulatorOwnerId = true <->
     Tier.systemWide actor
     \/ (Tier.fleetScoped actor
         /\ exists f, regulatorFleetId = Some f /\ f <> ""
                      /\ Claims.fleetId actor = JsString f)
     \/ (Claims.role actor = Some REG_OWNER
         /\ regulatorOwnerId = Some (Claims.userId actor)))
  /\ (Tier.fleetScoped actor ->
        Auth.canAccessRegulator actor None regulatorOwnerId = false).
Proof.
  unfold Auth.canAccessRegulator, Auth.roleIs, Tier.systemWide, Tier.fleetScoped, strict_eq.
  split.
  - destruct (Claims.role actor) as [[]|] eqn:Hrole; simpl;
      rewrite ?andb_false_r, ?andb_true_r; simpl.
    all: try (split; [done|naive_solver]).
    all: try (split; [naive_solver|done]).
    + destruct regulatorFleetId as [f|]; simpl; [|naive_solver].
      destruct (String.eqb_spec f ""); simpl; [naive_solver|].
      case_bool_decide; naive_solver.
    + destruct regulatorFleetId as [f|]; simpl; [|naive_solver].
      destruct (String.eqb_spec f ""); simpl; [naive_solver|].
      case_bool_decide; naive_solver.
    + destruct regulatorFleetId as [f|]; simpl; [|naive_solver].
      destruct (String.eqb_spec f ""); simpl; [naive_solver|].
      case_bool_decide; naive_solver.
    + destruct regulatorOwnerId as [o|]; simpl; try case_bool_decide; naive_solver.
  - intros [Hr|[Hr|Hr]]; rewrite Hr; reflexivity.
Qed.

(** X4: whoever [canAccessFleet] admits to a fleet, [canAccessRegulator] admits
    to the regulators of that fleet and [canSubscribeToFleet] to its
    channel, and passes the gate [requireFleetAccess] of the fleet routes;
    the channel is open, beyond them, to the FLEET_USER of the fleet
    only. *)
Theorem canAccessFleet_implies actor (fleetId : string) req :
  Auth.canAccessFleet actor fleetId = true ->
  Auth.user req = Some actor ->
  fleetId <> "" ->
  (forall regulatorOwnerId,
     Auth.canAccessRegulator actor (Some fleetId) regulatorOwnerId = true)
  /\ WebSocketService.canSubscribeToFleet actor (JsString fleetId) = true
  /\ Auth.requireFleetAccess req = Auth.Next req.
Proof.
  unfold Auth.canAccessFleet, Auth.canAccessRegulator, WebSocketService.canSubscribeToFleet,
    Auth.requireFleetAccess, Auth.requireRoles, Auth.roleIs, includes, strict_eq.
  intros H Hu Hne. rewrite Hu.
  assert (String.eqb fleetId "" = false) as Hf by by apply String.eqb_neq.
  destruct (Claims.role actor) as [[]|] eqn:Hrole; simpl in *;
    try done; rewrite ?Hf; simpl;
    case_bool_decide; simplify_eq/=; try done.
Qed.

(** X5: [canSubscribeToFleet] on a string id is [canAccessFleet] widened by the
    FLEET_USER of the fleet. *)
Theorem canSubscribeToFleet_spec actor (fleetId : string) :
  WebSocketService.canSubscribeToFleet actor (JsString fleetId)
  = Auth.canAccessFleet actor fleetId
    || (Auth.roleIs actor FLEET_USER
        && strict_eq (Claims.fleetId actor) (JsString fleetId)).
Proof.
  unfold Auth.canAccessFleet, WebSocketService.canSubscribeToFleet, Auth.roleIs, includes,
    strict_eq.
  destruct (Claims.role actor) as [[]|] eqn:Hrole; simpl; try done;
    by case_bool_decide.
Qed.

(** X6: behind the gate [requireAdmin], which the routes that create, update
    and delete users go through, [canManageUser] holds for every target:
    the branch of the predicate for a FLEET_MGR actor is never the one
    taken there. *)
Theorem requireAdmin_canManageUser req req' :
  Auth.requireAdmin req = Auth.Next req' ->
  exists actor,
    Auth.user req' = Some actor
    /\ Claims.role actor = Some ADMIN
    /\ forall targetRole targetFleetId,
         Auth.canManageUser actor targetRole targetFleetId = true.
Proof.
  unfold Auth.requireAdmin, Auth.requireRoles, includes.
  destruct (Auth.user req) as [actor|] eqn:Hu; [|done].
  destruct (Claims.role actor) as [role|] eqn:Hrole; [|done]. simpl.
  case_bool_decide as Hin; [|done]. intros [= <-].
  apply list_elem_of_singleton in Hin as ->.
  exists actor. split; [done|]. split; [done|]. intros targetRole targetFleetId.
  unfold Auth.canManageUser, Auth.roleIs. by rewrite Hrole.
Qed.

(** X7: a refresh token presented as a bearer token before its expiry passes
    [authenticate], which marks the request with the token's owner; the
    payload has no role, so the request is then answered 403 by every role
    gate and refused by the three access predicates. *)
Theorem refresh_token_as_bearer userId email tokenFamily uuid now token family seconds
    now' req :
  Jwt.generateRefreshToken config userId email tokenFamily uuid now = Some (token, family) ->
  Config.getRefreshTokenExpirySeconds config = Some seconds ->
  now' / 1000 < now / 1000 + seconds ->
  Auth.authorization req = Some [Opaque "Bearer"; token] ->
  exists payload,
    Auth.authenticate config req now'
      = Auth.Next {| Auth.authorization := Auth.authorization req;
                     Auth.user := Some payload |}
    /\ Claims.userId payload = userId
    /\ Claims.role payload = None
    /\ (forall allowed,
          Auth.requireRoles allowed {| Auth.authorization := Auth.authorization req;
                                       Auth.user := Some payload |}
            = Auth.Answered (Response.forbidden "Insufficient permissions"))
    /\ (forall fleetId, Auth.canAccessFleet payload fleetId = false)
    /\ (forall regulatorFleetId regulatorOwnerId,
          Auth.canAccessRegulator payload regulatorFleetId regulatorOwnerId = false)
    /\ (forall targetRole targetFleetId,
          Auth.canManageUser payload targetRole targetFleetId = false).
Proof.
  intros Hgen Hsec Hlive Hh.
  apply generateRefreshToken_inv in Hgen as (seconds' & Hsec' & -> & ->).
  rewrite Hsec in Hsec'. injection Hsec' as <-.
  eexists. split.
  - rewrite (authenticate_Bearer _ _ _ _ Hh).
    unfold Jwt.verifyAccessToken, Jwt.verify.
    rewrite bool_decide_eq_true_2 by done. cbn [Claims.exp].
    destruct (Z.leb_spec (now / 1000 + seconds) (now' / 1000)) as [Hle|_]; [lia|].
    reflexivity.
  - repeat split.
Qed.
End Access.

(** ** Expiry settings and token lifetimes *)

Section Lifetimes.
Variable config : Config.Jwt.

(** Up to [2 ^ 53] every integer is a double. *)
Lemma round_small n : 0 <= n < 2 ^ 53 -> Number.round n = n.
Proof.
  intros [Hpos Hlt]. unfold Number.round. rewrite Z.abs_eq by done.
  assert (Z.log2 n - 52 <= 0) as Hle.
  { destruct (decide (n = 0)) as [->|Hne]; [done|].
    assert (Z.log2 n < 53); [|lia]. apply Z.log2_lt_pow2; lia. }
  by rewrite (proj2 (Z.leb_le _ _) Hle).
Qed.

Lemma round_nonneg n : 0 <= n -> 0 <= Number.round n.
Proof.
  intros Hpos. unfold Number.round. rewrite Z.abs_eq by done.
  destruct (Z.leb_spec (Z.log2 n - 52) 0) as [|He]; [done|].
  assert (0 < n) as Hn by (destruct (decide (n = 0)) as [->|]; [done|lia]).
  rewrite Z.sgn_pos by done.
  pose proof (Z.pow_pos_nonneg 2 (Z.log2 n - 52) ltac:(lia) ltac:(lia)).
  pose proof (Z.div_pos n (2 ^ (Z.log2 n - 52)) ltac:(lia) ltac:(lia)).
  destruct (_ || _); nia.
Qed.

Lemma mul_small a b : 0 <= a -> 0 <= b -> a * b < 2 ^ 53 -> Number.mul a b = a * b.
Proof. intros. apply round_small. nia. Qed.

Lemma unit_is_Some c value :
  is_Some (Config.unit c value) <-> c ∈ ["s"; "m"; "h"; "d"]%char.
Proof.
  unfold Config.unit.
  destruct (Ascii.eqb_spec c "s") as [->|?]; [split; [set_solver|by eexists]|].
  destruct (Ascii.eqb_spec c "m") as [->|?]; [split; [set_solver|by eexists]|].
  destruct (Ascii.eqb_spec c "h") as [->|?]; [split; [set_solver|by eexists]|].
  destruct (Ascii.eqb_spec c "d") as [->|?]; [split; [set_solver|by eexists]|].
  split; [by intros [? ?]|set_solver].
Qed.

Lemma unit_nonneg c value n : 0 <= value -> Config.unit c value = Some n -> 0 <= n.
Proof.
  intros Hpos. unfold Config.unit, Number.mul.
  assert (forall a b, 0 <= a -> 0 <= b -> 0 <= Number.round (a * b)) as Hmul.
  { intros. apply round_nonneg. nia. }
  repeat case_match; intros [= <-]; auto 10 with lia.
Qed.

Lemma digit_bounds c d : Config.digit c = Some d -> 0 <= d <= 9.
Proof.
  unfold Config.digit.
  destruct (Z.leb_spec 48 (Z.of_nat (nat_of_ascii c))),
           (Z.leb_spec (Z.of_nat (nat_of_ascii c)) 57); simpl; intros [= <-]; lia.
Qed.

Lemma append_snoc_nonempty (digits : string) (c : ascii) : digits +:+ String c "" <> "".
Proof. by destruct digits. Qed.

Lemma parseExpiry_from_cons seen value a (rest : string) :
  rest <> "" ->
  Config.parseExpiry_from seen value (String a rest)
  = match Config.digit a with
    | Some d => Config.parseExpiry_from true (value * 10 + d) rest
    | None => None
    end.
Proof. by destruct rest. Qed.

(** [parseExpiry_from] on digits followed by one more character: the
    digits are accumulated, the number they write is rounded to a double
    and the character is read as the unit. *)
Lemma parseExpiry_from_app seen value (digits : string) :
  Forall (fun a => is_Some (Config.digit a)) (list_ascii_of_string digits) ->
  exists value',
    (0 <= value -> 0 <= value')
    /\ forall c, Config.parseExpiry_from seen value (digits +:+ String c "")
                 = if seen || negb (String.eqb digits "")
                   then Config.unit c (Number.round value')
                   else None.
Proof.
  revert seen value. induction digits as [|a digits IH]; intros seen value Hall.
  - exists value. split; [done|]. intros c. simpl. by rewrite orb_false_r.
  - apply Forall_cons in Hall as [[d Hd] Hall].
    destruct (IH true (value * 10 + d) Hall) as (value' & Hpos & Heq).
    exists value'. split.
    { intros ?. apply Hpos. apply digit_bounds in Hd. lia. }
    intros c.
    change ((String a digits) +:+ String c "") with (String a (digits +:+ String c "")).
    rewrite parseExpiry_from_cons by apply append_snoc_nonempty.
    rewrite Hd, Heq. simpl. by rewrite orb_true_r.
Qed.

Lemma parseExpiry_from_digits seen value (digits : string) c n :
  Config.parseExpiry_from seen value (digits +:+ String c "") = Some n ->
  Forall (fun a => is_Some (Config.digit a)) (list_ascii_of_string digits)
  /\ (seen = true \/ digits <> "").
Proof.
  revert seen value. induction digits as [|a digits IH]; intros seen value H.
  - split; [constructor|]. simpl in H. destruct seen; [by left|done].
  - change ((String a digits) +:+ String c "") with (String a (digits +:+ String c "")) in H.
    rewrite parseExpiry_from_cons in H by apply append_snoc_nonempty.
    destruct (Config.digit a) as [d|] eqn:Hd; [|done].
    apply IH in H as [Hall _]. split; [|by right].
    simpl. constructor; [by eexists|done].
Qed.

Lemma string_snoc (s : string) : s <> "" -> exists (digits : string) c, s = digits +:+ String c "".
Proof.
  induction s as [|a s IH]; [done|]. intros _. destruct s as [|b s'].
  - by exists "", a.
  - destruct IH as (digits & c & Heq); [done|]. exists (String a digits), c.
    simpl. by rewrite Heq.
Qed.

(** X8: [parseExpiry] accepts exactly the strings made of one or more decimal
    digits followed by one of the letters s, m, h, d, and nothing else; the
    number of seconds it returns is never negative.  The letter scales it:
    as long as the number of seconds stays below [2 ^ 53], the same digits
    give 60 times as much with m as with s, 3600 times with h, 86400 times
    with d.  Beyond, the products are those of doubles, which round:
    [9007199254740991m] gives 540431955284459456 seconds, four less than
    60 times 9007199254740991. *)
Theorem parseExpiry_spec (expiry : string) :
  (is_Some (Config.parseExpiry expiry) <->
     exists (digits : string) (c : ascii),
       expiry = digits +:+ String c ""
       /\ digits <> ""
       /\ Forall (fun a => is_Some (Config.digit a)) (list_ascii_of_string digits)
       /\ c ∈ ["s"; "m"; "h"; "d"]%char)
  /\ (forall n, Config.parseExpiry expiry = Some n -> 0 <= n)
  /\ (forall (digits : string) n,
        Config.parseExpiry (digits +:+ "s") = Some n ->
        n * 86400 < 2 ^ 53 ->
        Config.parseExpiry (digits +:+ "m") = Some (n * 60)
        /\ Config.parseExpiry (digits +:+ "h") = Some (n * 3600)
        /\ Config.parseExpiry (digits +:+ "d") = Some (n * 86400))
  /\ Config.parseExpiry "9007199254740991s" = Some 9007199254740991
  /\ Config.parseExpiry "9007199254740991m" = Some 540431955284459456
  /\ 9007199254740991 * 60 = 540431955284459460.
Proof.
  unfold Config.parseExpiry. split; [|split; [|split]].
  - split.
    + intros [n Hn].
      destruct (string_snoc expiry) as (digits & c & ->); [by destruct expiry|].
      pose proof (parseExpiry_from_digits _ _ _ _ _ Hn) as [Hall [?|Hne]]; [done|].
      exists digits, c. repeat split; try done.
      destruct (parseExpiry_from_app false 0 digits Hall) as (value' & _ & Heq).
      rewrite Heq in Hn. simpl in Hn.
      destruct (String.eqb_spec digits ""); [done|]. simpl in Hn.
      apply (unit_is_Some c (Number.round value')). by eexists.
    + intros (digits & c & -> & Hne & Hall & Hc).
      destruct (parseExpiry_from_app false 0 digits Hall) as (value' & _ & ->).
      simpl. destruct (String.eqb_spec digits ""); [done|]. simpl.
      by apply (unit_is_Some c (Number.round value')).
  - intros n Hn.
    destruct (string_snoc expiry) as (digits & c & ->); [by destruct expiry|].
    pose proof (parseExpiry_from_digits _ _ _ _ _ Hn) as [Hall _].
    destruct (parseExpiry_from_app false 0 digits Hall) as (value' & Hpos & Heq).
    rewrite Heq in Hn. destruct (false || _); [|done].
    specialize (Hpos ltac:(lia)).
    apply unit_nonneg in Hn; [done|by apply round_nonneg].
  - intros digits n Hn Hsmall.
    pose proof (parseExpiry_from_digits _ _ _ _ _ Hn) as [Hall _].
    destruct (parseExpiry_from_app false 0 digits Hall) as (value' & Hpos & Heq).
    rewrite Heq in Hn. rewrite !Heq. destruct (false || _); [|done].
    specialize (Hpos ltac:(lia)). apply round_nonneg in Hpos.
    unfold Config.unit in *. simpl in *. injection Hn as Hn. rewrite Hn in *.
    rewrite (mul_small n 60) by lia.
    rewrite (mul_small (n * 60) 60) by lia.
    rewrite (mul_small (n * 60 * 60) 24) by lia.
    repeat split; f_equal; lia.
  - repeat split; by vm_compute.
Qed.



(** X11: a refresh token carries no identifier of its own: two refresh tokens
    made for the same user, email and family within one second are the same
    token, whatever [uuidv4()] returned; two access tokens made with
    different identifiers differ. *)
Theorem refresh_token_has_no_id userId email family uuid uuid' now now' :
  family <> "" -> now / 1000 = now' / 1000 ->
  Jwt.generateRefreshToken config userId email (Some family) uuid now
  = Jwt.generateRefreshToken config userId email (Some family) uuid' now'
  /\ (forall role fleetId owned jti jti' token token',
        jti <> jti' ->
        Jwt.generateAccessToken config userId email role fleetId owned jti now = Some token ->
        Jwt.generateAccessToken config userId email role fleetId owned jti' now' = Some token' ->
        token <> token').
Proof.
  intros Hne Hsec. split.
  - unfold Jwt.generateRefreshToken, Jwt.sign.
    rewrite !familyOr_some, Hsec by done. reflexivity.
  - intros role fleetId owned jti jti' token token' Hjti.
    unfold Jwt.generateAccessToken, Jwt.sign.
    destruct (Config.getAccessTokenExpirySeconds config); simpl; [|done].
    intros [= <-] [= <-]. congruence.
Qed.
End Lifetimes.

(** ** The auth service, call by call *)

Section Calls.
Import Ledger Query.
Variable config : Config.Jwt.
Implicit Types (l : list RefreshToken.t) (r : RefreshToken.t) (db : Db).


(** X13: in a state reachable under the configuration of the call, a
    [refreshTokens] call that throws throws one of five errors: the token
    does not verify when [jwt.verify] reads the clock; the ledger has no
    row for it; the row the database returns is revoked; that row is not
    revoked but has expired when the clock is read again, after the query;
    or the user of the token is gone or inactive.  Only the third writes
    (the family revocation); after the others the tables are as they were.
    The fourth is not excluded by the first: the clock moves between the two
    readings.  No other error is thrown: the expiry settings parse, since
    they did when the row was written. *)
Theorem refreshTokens_Throws token jti uuid pick now later clock db e db' :
  System.reachable config db ->
  AuthService.refreshTokens config token jti uuid pick now later clock db = (Throws e, db') ->
  (e = AppError "Invalid or expired refresh token" 401 "INVALID_REFRESH_TOKEN"
   /\ db' = db
   /\ forall payload, Jwt.verifyRefreshToken config token now <> inr payload)
  \/ (e = AppError "Refresh token not found" 401 "INVALID_REFRESH_TOKEN" /\ db' = db
      /\ forall i r, refreshTokens db !! i = Some r ->
           RefreshToken.tokenHash r = Password.hashToken token ->
           forall payload, Jwt.verifyRefreshToken config token now = inr payload ->
             RefreshToken.userId r <> Claims.userId payload)
  \/ (e = AppError "Refresh token has been revoked" 403 "TOKEN_REVOKED"
      /\ users db' = users db /\ regulators db' = regulators db
      /\ passwordResets db' = passwordResets db
      /\ extends (refreshTokens db) (refreshTokens db')
      /\ exists pk stored,
           refreshTokens db !! pk = Some stored
           /\ RefreshToken.tokenHash stored = Password.hashToken token
           /\ is_Some (RefreshToken.revokedAt stored)
           /\ closed (RefreshToken.tokenFamily stored) (refreshTokens db'))
  \/ (e = AppError "Refresh token has expired" 401 "TOKEN_EXPIRED" /\ db' = db
      /\ exists pk stored,
           refreshTokens db !! pk = Some stored
           /\ RefreshToken.tokenHash stored = Password.hashToken token
           /\ RefreshToken.revokedAt stored = None
           /\ RefreshToken.expiresAt stored < later)
  \/ (e = AppError "User not found or inactive" 401 "USER_NOT_FOUND" /\ db' = db).
Proof.
  intros Hreach H.
  destruct (reachable_invariant config db Hreach) as (_ & _ & Hminted).
  unfold AuthService.refreshTokens in H.
  destruct (Jwt.verifyRefreshToken config token now) as [err|payload] eqn:Hverify.
  { left. unfold throw in H. by simplify_eq. }
  right.
  unfold bind, RefreshToken_findOne in H. cbn zeta in H.
  destruct (findAmong _ pick (refreshTokens db)) as [[pk stored]|] eqn:Hfind.
  2:{ left. unfold throw in H. simplify_eq. split; [done|]. split; [done|].
      intros i r Hi Hh payload' [= <-] Hu.
      by apply (proj1 (findAmong_None _ _ _) Hfind i r Hi). }
  right.
  pose proof Hfind as Hrow.
  apply findAmong_Some in Hrow as (Hpk & [Hhash _]).
  destruct (RefreshToken.revokedAt stored) as [at_|] eqn:Hrev.
  { left. unfold RefreshToken_update, withRefreshTokens, throw in H. simplify_eq/=.
    do 4 (split; [done|]). split; [apply extends_updateWhere|].
    exists pk, stored. do 2 (split; [done|]). split; [by eexists|].
    intros i r Hi Hf. unfold updateWhere in Hi. rewrite list_lookup_fmap in Hi.
    destruct (refreshTokens db !! i) as [x|]; simplify_eq/=.
    case_decide as Hdec; [by eexists|]. by destruct Hdec. }
  right.
  destruct (Z.ltb_spec (RefreshToken.expiresAt stored) later) as [Hexp|Hexp].
  { left. unfold throw in H. simplify_eq. do 2 (split; [done|]). by exists pk, stored. }
  right.
  destruct (Hminted) as [[a Ha] [s Hs]]; [intros Hnil; by rewrite Hnil in Hpk|].
  revert H. unfold_service. cbn beta iota zeta delta [fst snd].
  unfold Jwt.generateTokenPair, Jwt.generateAccessToken, Jwt.generateRefreshToken.
  rewrite Ha, Hs. simpl.
  intros H. repeat (case_match; simplify_eq/=); done.
Qed.


(** What [login_then_refresh] below needs of a [login] that returns. *)
Lemma login_effect email password jti uuid clock db response db' :
  AuthService.login config email password jti uuid clock db = (Returns response, db') ->
  exists user seconds_a seconds,
    credential email (users db) = Some user
    /\ Config.getAccessTokenExpirySeconds config = Some seconds_a
    /\ Config.getRefreshTokenExpirySeconds config = Some seconds
    /\ LoginResponse.refreshToken response =
         Compact {| Claims.sub := User.email user; Claims.userId := User.id user;
                    Claims.role := None; Claims.fleetId := JsUndefined;
                    Claims.ownedRegulatorIds := None; Claims.jti := None;
                    Claims.tokenFamily := Some uuid;
                    Claims.iat := Jwt.refreshSignedAt clock / 1000;
                    Claims.exp := Jwt.refreshSignedAt clock / 1000 + seconds |}
                 (Config.secret config)
    /\ refreshTokens db' =
         refreshTokens db
         ++ [{| RefreshToken.userId := User.id user;
                RefreshToken.tokenHash :=
                  Password.hashToken (LoginResponse.refreshToken response);
                RefreshToken.tokenFamily := uuid;
                RefreshToken.expiresAt := Jwt.dateNow clock + seconds * 1000;
                RefreshToken.revokedAt := None;
                RefreshToken.createdAt := Jwt.dateNow clock |}]
    /\ users db' =
         updateWhere (fun u => User.id u = User.id user /\ User.deletedAt u = None)
           (User.setLastLoginAt (Jwt.dateNow clock)) (users db).
Proof.
  intros H. unfold credential. service_cases.
  all: match goal with H : Jwt.generateTokenPair _ _ _ _ _ _ _ _ _ _ = Some _ |- _ =>
      unfold Jwt.generateTokenPair, Jwt.generateAccessToken, Jwt.generateRefreshToken,
        Jwt.sign in H end.
  all: destruct (Config.getAccessTokenExpirySeconds config) as [seconds_a|]; simplify_eq/=.
  all: destruct (Config.getRefreshTokenExpirySeconds config) as [seconds|]; simplify_eq/=.
  all: eexists _, _, _; repeat split; done.
Qed.

Lemma credential_Some email (l : list User.t) user :
  credential email l = Some user ->
  exists i, l !! i = Some user /\ User.email user = email /\ User.isActive user = true
            /\ User.deletedAt user = None.
Proof.
  unfold credential. intros H.
  destruct (list_find _ l) as [[i u]|] eqn:Hfind; simplify_eq/=.
  apply list_find_Some in Hfind as (Hi & [[? ?] ?] & _). by exists i.
Qed.

(** With a primary key on the user table, a row is the one [findByPk]
    returns for its id, also after an update of the rows of that id. *)
Lemma findByPk_unique (l : list User.t) i user (f : User.t -> User.t) :
  NoDup (User.id <$> l) ->
  l !! i = Some user -> User.deletedAt user = None ->
  User.id (f user) = User.id user -> User.deletedAt (f user) = None ->
  snd <$> list_find (fun u => User.id u = User.id user /\ User.deletedAt u = None)
            (updateWhere (fun u => User.id u = User.id user /\ User.deletedAt u = None) f l)
  = Some (f user).
Proof.
  intros Hnd Hi Hdel Hid Hdel'.
  assert (list_find (fun u => User.id u = User.id user /\ User.deletedAt u = None)
            (updateWhere (fun u => User.id u = User.id user /\ User.deletedAt u = None) f l)
          = Some (i, f user)) as ->; [|done].
  apply (list_find_Some (fun u => User.id u = User.id user /\ User.deletedAt u = None)).
  unfold updateWhere. rewrite list_lookup_fmap, Hi. simpl.
  rewrite decide_True by done. split; [done|]. split; [done|].
  intros j y Hj Hlt. rewrite list_lookup_fmap in Hj.
  destruct (l !! j) as [x|] eqn:Hx; simplify_eq/=.
  assert (User.id x <> User.id user) as Hne.
  { intros Heq. assert (j = i); [|lia].
    eapply (NoDup_lookup _ _ _ _ Hnd); rewrite list_lookup_fmap.
    - by rewrite Hx.
    - rewrite Hi. simpl. by rewrite Heq. }
  rewrite decide_False by (by intros [? _]). by intros [? _].
Qed.

(** X14: the refresh token a [login] has just returned can be rotated: in a
    reachable state, with a primary key on the user table and a family id
    that no ledger row carries yet, refreshing with it returns, whatever the
    database chooses, when [jwt.verify] reads the clock before the expiry of
    the token and the expiry test reads it no later than the expiry of the
    ledger row. *)
Theorem login_then_refresh email password jti uuid clock db response db1 seconds
    jti' uuid' pick now' later' clock' :
  System.reachable config db ->
  NoDup (User.id <$> users db) ->
  (forall i r, refreshTokens db !! i = Some r -> RefreshToken.tokenFamily r <> uuid) ->
  AuthService.login config email password jti uuid clock db = (Returns response, db1) ->
  Config.getRefreshTokenExpirySeconds config = Some seconds ->
  now' / 1000 < Jwt.refreshSignedAt clock / 1000 + seconds ->
  later' <= Jwt.dateNow clock + seconds * 1000 ->
  exists response' db2,
    AuthService.refreshTokens config (LoginResponse.refreshToken response) jti' uuid'
      pick now' later' clock' db1
      = (Returns response', db2)
    /\ length (refreshTokens db2) = S (length (refreshTokens db1)).
Proof.
  intros Hreach Hnd Hfresh Hlogin Hsec Hlive Hlive'.
  pose proof (reachable_wellFormed config db Hreach) as Hwf.
  apply login_effect in Hlogin
    as (user & seconds_a & seconds0 & Hcred & Ha & Hs & Htoken & Hledger & Husers).
  rewrite Hsec in Hs. injection Hs as <-.
  apply credential_Some in Hcred as (i & Hi & Hemail & Hactive & Hdel).
  rewrite Htoken in *. clear Htoken.
  match goal with |- context [Compact ?c (Config.secret config)] => set (claims := c) in * end.
  set (token := Compact claims (Config.secret config)) in *.
  set (row := {| RefreshToken.userId := User.id user;
                 RefreshToken.tokenHash := Password.hashToken token;
                 RefreshToken.tokenFamily := uuid;
                 RefreshToken.expiresAt := Jwt.dateNow clock + seconds * 1000;
                 RefreshToken.revokedAt := None;
                 RefreshToken.createdAt := Jwt.dateNow clock |}) in *.
  assert (findAmong (fun r => RefreshToken.tokenHash r = Password.hashToken token
                              /\ RefreshToken.userId r = User.id user)
            pick (refreshTokens db1)
          = Some (length (refreshTokens db), row)) as Hfind.
  { apply (findAmong_unique (fun r => RefreshToken.tokenHash r = Password.hashToken token
                                      /\ RefreshToken.userId r = User.id user)).
    - rewrite Hledger. by rewrite lookup_app_r, Nat.sub_diag by lia.
    - done.
    - intros j y Hj [Hhash _]. rewrite Hledger in Hj.
      apply lookup_app_Some in Hj as [Hj|[Hge Hj]].
      + exfalso.
        destruct (wellFormed_lookup _ _ _ Hwf Hj) as [(claims' & key & Hc & Hfam & _) _].
        apply (Hfresh j y Hj). rewrite Hhash in Hc. unfold Password.hashToken in Hc.
        injection Hc as <- _. simpl in Hfam. by injection Hfam.
      + apply list_lookup_singleton_Some in Hj as [Hj _]. lia. }
  unfold AuthService.refreshTokens, Jwt.verifyRefreshToken, Jwt.verify.
  unfold token at 1. rewrite bool_decide_eq_true_2 by done.
  change (Claims.exp claims) with (Jwt.refreshSignedAt clock / 1000 + seconds).
  destruct (Z.leb_spec (Jwt.refreshSignedAt clock / 1000 + seconds) (now' / 1000))
    as [?|_]; [lia|].
  unfold bind at 1. unfold RefreshToken_findOne at 1.
  change (Claims.userId claims) with (User.id user).
  rewrite Hfind. cbn [RefreshToken.revokedAt row RefreshToken.expiresAt].
  assert ((Jwt.dateNow clock + seconds * 1000 <? later') = false) as ->
    by (apply Z.ltb_ge; lia).
  unfold bind at 1. unfold User_findByPk, User_findOne at 1.
  rewrite Husers.
  rewrite (findByPk_unique _ i user (User.setLastLoginAt (Jwt.dateNow clock))) by done.
  cbn [User.isActive User.setLastLoginAt]. rewrite Hactive. cbn [negb].
  unfold_service. cbn beta iota zeta delta [fst snd].
  unfold Jwt.generateTokenPair, Jwt.generateAccessToken, Jwt.generateRefreshToken.
  rewrite Ha, Hsec. simpl.
  destruct (bool_decide (User.role user = REG_OWNER)); simpl;
    eexists _, _; (split; [reflexivity|]); simpl;
    by rewrite length_app, length_alter, Nat.add_1_r.
Qed.
End Calls.

(** ** Accounts and passwords *)

Section Accounts.
Import Ledger Query.
Variable config : Config.Jwt.
Implicit Types (db : Db).

Lemma list_find_updateWhere {A} (P : A -> Prop) `{forall x, Decision (P x)}
    (f : A -> A) (l : list A) i x :
  (forall y, P y -> P (f y)) ->
  list_find P l = Some (i, x) ->
  list_find P (updateWhere P f l) = Some (i, f x).
Proof.
  intros Hf (Hi & Hx & Hmin)%list_find_Some. apply list_find_Some.
  unfold updateWhere. rewrite list_lookup_fmap, Hi. simpl. rewrite decide_True by done.
  split; [done|]. split; [auto|].
  intros j y Hj Hlt. rewrite list_lookup_fmap in Hj.
  destruct (l !! j) as [z|] eqn:Hz; simplify_eq/=.
  rewrite decide_False by eauto. eauto.
Qed.

(** X15: [register] refuses an email that a not deleted account has, active or
    not, with EMAIL_EXISTS, and then a weak password with WEAK_PASSWORD.
    Past these two tests [User.create] can still throw, an error of
    Sequelize's and no [AppError]: it does when the validators refuse the
    row, and when a row of the table has the email already, which is then
    the row of a deleted account.  Whenever [register] throws it has
    written nothing.  When it returns, no row of the table had the email,
    and it has appended one account: a REG_OWNER without fleet, active,
    with the salted hash of the password; it has touched no other table;
    the new account is the one [login] will find for the email; and the
    emails of the table stay unique. *)
Theorem register_spec email password firstName lastName phoneNumber id salt now accepted db :
  let result :=
    AuthService.register email password firstName lastName phoneNumber id salt now
      accepted db in
  (failed (fst result) -> snd result = db)
  /\ (fst result = Throws (AppError "Email already registered" 409 "EMAIL_EXISTS") <->
        exists u, u ∈ users db /\ User.email u = email /\ User.deletedAt u = None)
  /\ ((forall u, u ∈ users db -> User.email u = email -> is_Some (User.deletedAt u)) ->
      Password.valid (Password.validatePasswordStrength password) = true ->
      accepted = false \/ (exists u, u ∈ users db /\ User.email u = email) ->
      exists message, fst result = Throws (Error message))
  /\ (forall public message, fst result = Returns (public, message) ->
        Password.valid (Password.validatePasswordStrength password) = true
        /\ accepted = true
        /\ (forall u, u ∈ users db -> User.email u <> email /\ User.id u <> id)
        /\ exists user,
             users (snd result) = users db ++ [user]
             /\ public = User.toPublic user
             /\ User.id user = id /\ User.email user = email
             /\ User.role user = REG_OWNER /\ User.fleetId user = None
             /\ User.isActive user = true /\ User.deletedAt user = None
             /\ User.passwordHash user = Password.hashPassword password salt
             /\ Password.verifyPassword password (User.passwordHash user) = true
             /\ credential email (users (snd result)) = Some user
             /\ regulators (snd result) = regulators db
             /\ refreshTokens (snd result) = refreshTokens db
             /\ passwordResets (snd result) = passwordResets db)
  /\ ((forall i j u v, users db !! i = Some u -> users db !! j = Some v ->
         User.email u = User.email v -> i = j) ->
      forall i j u v, users (snd result) !! i = Some u -> users (snd result) !! j = Some v ->
        User.email u = User.email v -> i = j).
Proof.
  cbn zeta. unfold AuthService.register, User_findOne, User_create, withUsers, bind, ret, throw.
  cbn beta iota zeta.
  destruct (list_find _ (users db)) as [[k existing]|] eqn:Hfind;
    cbn [fmap option_fmap option_map fst snd].
  - apply list_find_Some in Hfind as (Hk & [He Hd] & _).
    assert (existing ∈ users db) as Hin by by eapply list_elem_of_lookup_2.
    split; [done|]. split; [split; [intros _; by exists existing|done]|].
    split; [|done].
    intros Hdeleted. destruct (Hdeleted existing Hin He) as [at_ Hat]. congruence.
  - apply list_find_None in Hfind.
    assert (forall u, u ∈ users db -> User.email u = email -> User.deletedAt u = None -> False)
      as Hnone.
    { intros u Hu He Hd. by apply (proj1 (Forall_forall _ _) Hfind u Hu). }
    assert (~ exists u, u ∈ users db /\ User.email u = email /\ User.deletedAt u = None)
      as Hnone' by (intros (u & Hu & He & Hd); by destruct (Hnone u Hu He Hd)).
    destruct (Password.valid (Password.validatePasswordStrength password)) eqn:Hvalid;
      cbn [negb fst snd users regulators refreshTokens passwordResets];
      [|by repeat split].
    destruct accepted; cbn [negb fst snd];
      [|split; [done|]; split; [by split|]; split; [by eexists|]; by split].
    case_bool_decide as Htaken;
      cbn [fst snd users regulators refreshTokens passwordResets User.email User.id].
    + split; [done|]. split; [by split|]. split; [by eexists|]. by split.
    + assert (forall u, u ∈ users db -> User.email u <> email /\ User.id u <> id) as Hfree.
      { intros u Hu. split; intros Heq; apply Htaken, Exists_exists; exists u; auto. }
      split; [done|]. split; [by split|]. split.
      { intros _ _ [?|(u & Hu & He)]; [done|]. by destruct (Hfree u Hu). }
      split.
      * intros public message [= <- <-]. do 3 (split; [done|]).
        eexists. split; [reflexivity|]. cbn.
        repeat split; try done.
        { by rewrite String.eqb_refl. }
        unfold credential.
        match goal with |- context [list_find ?P (?l ++ [?u])] =>
          assert (list_find P (l ++ [u]) = Some (length l, u)) as -> end; [|done].
        apply (list_find_Some (fun u => (User.email u = email /\ User.isActive u = true)
                                        /\ User.deletedAt u = None)).
        split; [by rewrite lookup_app_r, Nat.sub_diag by lia|]. split; [done|].
        intros j y Hj Hlt [[He _] Hd]. rewrite lookup_app_l in Hj by done.
        apply (Hnone y); [by eapply list_elem_of_lookup_2|done|done].
      * intros Huniq i j u v Hi Hj He.
        apply lookup_app_Some in Hi as [Hi|[Hi Hi']];
          apply lookup_app_Some in Hj as [Hj|[Hj Hj']].
        -- by apply (Huniq i j u v).
        -- apply list_lookup_singleton_Some in Hj' as [_ <-]. simpl in He.
           by destruct (Hfree u); [by eapply list_elem_of_lookup_2|].
        -- apply list_lookup_singleton_Some in Hi' as [_ <-]. simpl in He.
           by destruct (Hfree v); [by eapply list_elem_of_lookup_2|].
        -- apply list_lookup_singleton_Some in Hi' as [Hi' _].
           apply list_lookup_singleton_Some in Hj' as [Hj' _]. lia.
Qed.



(** X17: [logout] never throws and touches nothing but the ledger, where it
    revokes at most one row: a row of the calling user that records the
    presented token and was not revoked; every other row is left as it
    was. *)
Theorem logout_spec userId token pick now db :
  exists db',
    AuthService.logout userId token pick now db = (Returns (), db')
    /\ users db' = users db /\ regulators db' = regulators db
    /\ passwordResets db' = passwordResets db
    /\ length (refreshTokens db') = length (refreshTokens db)
    /\ (refreshTokens db' = refreshTokens db
        \/ exists pk r,
             refreshTokens db !! pk = Some r
             /\ RefreshToken.userId r = userId
             /\ RefreshToken.tokenHash r = Password.hashToken token
             /\ RefreshToken.revokedAt r = None
             /\ refreshTokens db' = <[pk := RefreshToken.setRevokedAt now r]> (refreshTokens db)).
Proof.
  unfold AuthService.logout, bind, RefreshToken_findOne, RefreshToken_updateAt,
    withRefreshTokens, ret. cbn zeta.
  destruct (findAmong _ pick (refreshTokens db)) as [[pk r]|] eqn:Hfind.
  - apply findAmong_Some in Hfind as (Hpk & (Hu & Hh & Hr)).
    eexists. split; [reflexivity|]. simpl. rewrite length_alter.
    repeat split; try done. right. exists pk, r. repeat split; try done.
    apply list_eq. intros i. destruct (decide (i = pk)) as [->|Hne].
    + rewrite list_lookup_alter_eq, Hpk, list_lookup_insert_eq; [done|].
      by eapply lookup_lt_Some.
    + by rewrite list_lookup_alter_ne, list_lookup_insert_ne.
  - eexists. split; [reflexivity|]. repeat split; try done. by left.
Qed.



(** X19: [changePassword] leaves the ledger as it is: no session ends.  When it
    throws it has written nothing; when it returns, the current password
    was the account's, the new one meets the policy, the account's hash is
    the salted hash of the new password, which is what [findByPk] now
    returns, and no other table has changed. *)
Theorem changePassword_spec userId currentPassword newPassword salt db :
  let result := AuthService.changePassword userId currentPassword newPassword salt db in
  refreshTokens (snd result) = refreshTokens db
  /\ regulators (snd result) = regulators db
  /\ passwordResets (snd result) = passwordResets db
  /\ (failed (fst result) -> snd result = db)
  /\ (forall message, fst result = Returns message ->
        exists user,
          fst (User_findByPk userId db) = Returns (Some user)
          /\ Password.verifyPassword currentPassword (User.passwordHash user) = true
          /\ Password.valid (Password.validatePasswordStrength newPassword) = true
          /\ users (snd result) =
               updateWhere (fun u => User.id u = userId /\ User.deletedAt u = None)
                 (User.setPasswordHash (Password.hashPassword newPassword salt)) (users db)
          /\ fst (User_findByPk userId (snd result))
             = Returns (Some (User.setPasswordHash
                                (Password.hashPassword newPassword salt) user))
          /\ Password.verifyPassword newPassword
               (Password.hashPassword newPassword salt) = true).
Proof.
  cbn zeta. unfold AuthService.changePassword, User_findByPk, User_findOne, User_update,
    withUsers, bind, ret, throw. cbn beta iota zeta.
  destruct (list_find _ (users db)) as [[k user]|] eqn:Hfind;
    cbn [fmap option_fmap option_map fst snd]; [|done].
  destruct (Password.verifyPassword currentPassword (User.passwordHash user)) eqn:Hcur;
    cbn [negb fst snd]; [|done].
  destruct (Password.valid (Password.validatePasswordStrength newPassword)) eqn:Hvalid;
    cbn [negb fst snd users regulators refreshTokens passwordResets]; [|done].
  repeat split; try done.
  intros message _. exists user.
  pose proof Hfind as (Hk & [Hid Hdel] & _)%list_find_Some.
  rewrite Hid. repeat split; try done.
  - rewrite (list_find_updateWhere (fun u => User.id u = userId /\ User.deletedAt u = None)
               (User.setPasswordHash (Password.hashPassword newPassword salt))
               (users db) k user); [done|by intros y|done].
  - simpl. by rewrite String.eqb_refl.
Qed.

(** X20: [forgotPassword] answers the same whether or not the email has an
    active account, never throws, and writes only reset records.  Without
    such an account it writes nothing; with one it marks every unused
    record of the account used and appends one record for the drawn token,
    valid for an hour, so that the account's only unused record is the new
    one. *)
Theorem forgotPassword_spec email hex now db :
  let result := AuthService.forgotPassword email hex now db in
  fst result = Returns "Password reset email sent if account exists"
  /\ users (snd result) = users db /\ regulators (snd result) = regulators db
  /\ refreshTokens (snd result) = refreshTokens db
  /\ (credential email (users db) = None -> snd result = db)
  /\ (forall user, credential email (users db) = Some user ->
        let record :=
          {| PasswordReset.userId := User.id user;
             PasswordReset.tokenHash := Password.hashToken (Opaque hex);
             PasswordReset.expiresAt := now + 3600000;
             PasswordReset.usedAt := None |} in
        passwordResets (snd result) =
          updateWhere (fun r => PasswordReset.userId r = User.id user
                                /\ PasswordReset.usedAt r = None)
            (PasswordReset.setUsedAt now) (passwordResets db) ++ [record]
        /\ forall i r, passwordResets (snd result) !! i = Some r ->
             PasswordReset.userId r = User.id user -> PasswordReset.usedAt r = None ->
             i = length (passwordResets db) /\ r = record).
Proof.
  cbn zeta. unfold credential, AuthService.forgotPassword, User_findOne,
    PasswordReset_update, PasswordReset_create, withPasswordResets, bind, ret.
  cbn beta iota zeta.
  destruct (list_find _ (users db)) as [[k user]|] eqn:Hfind;
    cbn [fmap option_fmap option_map fst snd users regulators refreshTokens passwordResets].
  - do 5 (split; [done|]).
    intros user' [= <-]. split; [reflexivity|].
    intros i r Hi Hu Hused.
    apply lookup_app_Some in Hi as [Hi|[Hlen Hi]].
    + exfalso. unfold updateWhere in Hi. rewrite list_lookup_fmap in Hi.
      destruct (passwordResets db !! i) as [x|]; simplify_eq/=.
      case_decide as Hx; simpl in *; [done|]. by apply Hx.
    + apply list_lookup_singleton_Some in Hi as [Hi <-].
      unfold updateWhere in *. rewrite length_fmap in *. split; [lia|done].
  - do 4 (split; [done|]). split; [|done]. by destruct db.
Qed.
(** What [forgot_then_reset] below needs of [forgotPassword]. *)
Lemma forgotPassword_effect email hex now db user :
  credential email (users db) = Some user ->
  users (snd (AuthService.forgotPassword email hex now db)) = users db
  /\ passwordResets (snd (AuthService.forgotPassword email hex now db)) =
       updateWhere (fun r => PasswordReset.userId r = User.id user
                             /\ PasswordReset.usedAt r = None)
         (PasswordReset.setUsedAt now) (passwordResets db)
       ++ [{| PasswordReset.userId := User.id user;
              PasswordReset.tokenHash := Password.hashToken (Opaque hex);
              PasswordReset.expiresAt := now + 3600000;
              PasswordReset.usedAt := None |}].
Proof.
  unfold credential, AuthService.forgotPassword, User_findOne,
    PasswordReset_update, PasswordReset_create, withPasswordResets, bind, ret.
  cbn beta iota zeta.
  destruct (list_find _ (users db)) as [[k user']|] eqn:Hfind;
    cbn [fmap option_fmap option_map fst snd users passwordResets]; [|done].
  by intros [= <-].
Qed.
End Accounts.

(** ** The password reset round trip *)

Section Resets.
Import Ledger Query.
Variable config : Config.Jwt.
Implicit Types (db : Db).

(** X21: a reset token works once and for an hour: after [forgotPassword] for
    an active account, with a drawn token that no reset record has yet,
    [resetPassword] with that token and a password that meets the policy
    returns at any time up to an hour later and sets the password of that
    account and of no other; from then on the token is refused as invalid,
    whatever the password and the time.  Later than an hour the token is
    refused as expired and nothing is written. *)
Theorem forgot_then_reset email hex now db user newPassword salt now' :
  credential email (users db) = Some user ->
  (forall i r, passwordResets db !! i = Some r ->
     PasswordReset.tokenHash r <> Password.hashToken (Opaque hex)) ->
  Password.valid (Password.validatePasswordStrength newPassword) = true ->
  let db1 := snd (AuthService.forgotPassword email hex now db) in
  (now' <= now + 3600000 ->
   exists db2,
     AuthService.resetPassword (Opaque hex) newPassword salt now' db1
       = (Returns "Password reset successful", db2)
     /\ users db2 =
          updateWhere (fun u => User.id u = User.id user /\ User.deletedAt u = None)
            (User.setPasswordHash (Password.hashPassword newPassword salt)) (users db)
     /\ forall newPassword' salt' now'',
          AuthService.resetPassword (Opaque hex) newPassword' salt' now'' db2
          = (Throws (AppError "Invalid or expired reset token" 400 "INVALID_RESET_TOKEN"),
             db2))
  /\ (now + 3600000 < now' ->
      AuthService.resetPassword (Opaque hex) newPassword salt now' db1
      = (Throws (AppError "Reset token has expired" 400 "TOKEN_EXPIRED"), db1)).
Proof.
  intros Hcred Hfresh Hvalid db1.
  destruct (forgotPassword_effect email hex now db user Hcred) as [Husers Hresets].
  fold db1 in Husers, Hresets.
  set (record := {| PasswordReset.userId := User.id user;
                    PasswordReset.tokenHash := Password.hashToken (Opaque hex);
                    PasswordReset.expiresAt := now + 3600000;
                    PasswordReset.usedAt := None |}) in *.
  set (old := updateWhere (fun r => PasswordReset.userId r = User.id user
                                    /\ PasswordReset.usedAt r = None)
                (PasswordReset.setUsedAt now) (passwordResets db)) in *.
  assert (Hold : forall i r, old !! i = Some r ->
                   PasswordReset.tokenHash r <> Password.hashToken (Opaque hex)).
  { intros i r Hi. unfold old, updateWhere in Hi. rewrite list_lookup_fmap in Hi.
    destruct (passwordResets db !! i) as [x|] eqn:Hx; simplify_eq/=.
    case_decide; simpl; by apply (Hfresh i x). }
  assert (Hlen : length old = length (passwordResets db)).
  { unfold old, updateWhere. by rewrite length_fmap. }
  assert (Hfind : list_find (fun r => PasswordReset.tokenHash r = Password.hashToken (Opaque hex)
                                      /\ PasswordReset.usedAt r = None) (passwordResets db1)
                  = Some (length old, record)).
  { apply (list_find_Some (fun r => PasswordReset.tokenHash r = Password.hashToken (Opaque hex)
                                    /\ PasswordReset.usedAt r = None)).
    rewrite Hresets. split; [by rewrite lookup_app_r, Nat.sub_diag by lia|].
    split; [done|]. intros j y Hj Hlt [Hh _]. rewrite lookup_app_l in Hj by done.
    by apply (Hold j y). }
  split.
  - intros Hlive.
    unfold AuthService.resetPassword, bind at 1. unfold PasswordReset_findOne at 1.
    cbn zeta. rewrite Hfind. cbn [PasswordReset.expiresAt record].
    destruct (Z.ltb_spec (now + 3600000) now') as [?|_]; [lia|].
    rewrite Hvalid. cbn [negb].
    unfold User_update, PasswordReset_updateAt, RefreshToken_update, withUsers,
      withPasswordResets, withRefreshTokens, bind, ret.
    cbn beta iota zeta delta [fst snd users regulators refreshTokens passwordResets].
    eexists. split; [reflexivity|]. cbn [users passwordResets PasswordReset.userId record].
    split; [by rewrite Husers|].
    intros newPassword' salt' now''.
    unfold AuthService.resetPassword, bind, PasswordReset_findOne, throw.
    cbn [passwordResets].
    match goal with |- context [list_find ?P ?l] =>
      assert (list_find P l = None) as -> end; [|reflexivity].
    apply list_find_None, Forall_lookup. intros j y Hj [Hh Hu].
    rewrite Hresets in Hj. destruct (decide (j = length old)) as [->|Hne].
    + rewrite list_lookup_alter_eq, lookup_app_r, Nat.sub_diag in Hj by lia.
      simpl in Hj. by injection Hj as <-.
    + rewrite list_lookup_alter_ne in Hj by done.
      apply lookup_app_Some in Hj as [Hj|[Hge Hj]]; [by apply (Hold j y)|].
      apply list_lookup_singleton_Some in Hj as [Hj _]. lia.
  - intros Hdead.
    unfold AuthService.resetPassword, bind at 1. unfold PasswordReset_findOne at 1.
    cbn zeta. rewrite Hfind. cbn [PasswordReset.expiresAt record].
    destruct (Z.ltb_spec (now + 3600000) now') as [_|?]; [|lia]. reflexivity.
Qed.
End Resets.

(** ** Who is in a fleet channel *)

Section Channels.
Import WebSocketService HubInvariant.
Implicit Types (hub : Hub) (client : string).

(** *** [authorized] under the writes of the handlers *)

Lemma authorized_sockets hub store registry regs :
  authorized hub ->
  (forall client socket, sockets hub !! client = Some socket ->
     exists socket', store !! client = Some socket'
                     /\ WebSocketClient.user socket' = WebSocketClient.user socket) ->
  authorized {| sockets := store; clients := registry;
                fleetSubscriptions := fleetSubscriptions hub;
                regulatorSubscriptions := regs |}.
Proof.
  intros Hauth Hstore key subscribers client Hkey Hin.
  destruct (Hauth key subscribers client Hkey Hin) as (socket & user & Hs & Hu & Hcan).
  destruct (Hstore client socket Hs) as (socket' & Hs' & Hu').
  exists socket', user. simpl. by rewrite Hu'.
Qed.

Lemma authorized_onSocket client f hub :
  authorized hub ->
  (forall socket, WebSocketClient.user (f socket) = WebSocketClient.user socket) ->
  authorized (onSocket client f hub).
Proof.
  intros Hauth Hf. apply authorized_sockets; [done|]. intros c socket Hc.
  destruct (decide (c = client)) as [->|Hne].
  - exists (f socket). by rewrite lookup_alter_eq, Hc.
  - exists socket. by rewrite lookup_alter_ne.
Qed.

Lemma authorized_send client event hub : authorized hub -> authorized (send client event hub).
Proof. intros H. by apply authorized_onSocket. Qed.

Lemma authorized_add client key hub socket user :
  authorized hub ->
  sockets hub !! client = Some socket -> WebSocketClient.user socket = Some user ->
  canSubscribeToFleet user key = true ->
  authorized (onFleetSubscriptions (addSubscriber key client) hub).
Proof.
  intros Hauth Hs Hu Hcan k subscribers c Hk Hin. simpl in *.
  destruct (decide (k = key)) as [->|Hne].
  - rewrite addSubscriber_lookup in Hk. injection Hk as <-.
    apply elem_of_union in Hin as [Hin| ->%elem_of_singleton]; [|by exists socket, user].
    destruct (fleetSubscriptions hub !! key) as [before|] eqn:Hbefore; [|set_solver].
    by apply (Hauth key before).
  - rewrite addSubscriber_lookup_ne in Hk by done. by apply (Hauth k subscribers).
Qed.

Lemma authorized_remove client key hub :
  authorized hub -> authorized (onFleetSubscriptions (removeSubscriber key client) hub).
Proof.
  intros Hauth k subscribers c Hk Hin. simpl in *.
  apply removeSubscriber_lookup in Hk as [(-> & _ & before & Hbefore & ->)|[_ Hk]].
  - apply (Hauth key before); [done|set_solver].
  - by apply (Hauth k subscribers).
Qed.

Lemma authorized_onRegulatorSubscriptions f hub :
  authorized hub -> authorized (onRegulatorSubscriptions f hub).
Proof. intros H. exact H. Qed.

Lemma authorized_onClients f hub : authorized hub -> authorized (onClients f hub).
Proof. intros H. exact H. Qed.

Lemma authorized_subscribeToFleet client key hub user :
  authorized hub ->
  sockets hub !! client ≫= WebSocketClient.user = Some user ->
  canSubscribeToFleet user key = true ->
  authorized (subscribeToFleet client key hub).
Proof.
  intros Hauth Hu Hcan. unfold subscribeToFleet.
  destruct (sockets hub !! client) as [socket|] eqn:Hs; [|done]. simpl in Hu.
  cbn zeta.
  apply (authorized_add client key _
           (WebSocketClient.setSubscriptions
              (fun s => s ∪ {["fleet:" +:+ toString key]}) socket) user);
    [by apply authorized_onSocket| |exact Hu|done].
  simpl. by rewrite lookup_alter_eq, Hs.
Qed.

Lemma authorized_unsubscribeFromFleet client key hub :
  authorized hub -> authorized (unsubscribeFromFleet client key hub).
Proof.
  intros H. unfold unsubscribeFromFleet. by apply authorized_remove, authorized_onSocket.
Qed.

Lemma authorized_subscribeToRegulator client key hub :
  authorized hub -> authorized (subscribeToRegulator client key hub).
Proof.
  intros H. unfold subscribeToRegulator.
  by apply authorized_onRegulatorSubscriptions, authorized_onSocket.
Qed.

Lemma authorized_unsubscribeFromRegulator client key hub :
  authorized hub -> authorized (unsubscribeFromRegulator client key hub).
Proof.
  intros H. unfold unsubscribeFromRegulator.
  by apply authorized_onRegulatorSubscriptions, authorized_onSocket.
Qed.

Lemma authorized_handleDisconnect client hub :
  authorized hub -> authorized (handleDisconnect client hub).
Proof.
  intros H. unfold handleDisconnect. apply authorized_onClients.
  induction (elements _) as [|sub visited IH]; simpl; [done|].
  unfold unwind. repeat case_match;
    auto using authorized_unsubscribeFromFleet, authorized_unsubscribeFromRegulator.
Qed.

Lemma authorized_handleMessage client message hub :
  authorized hub -> authorized (handleMessage client message hub).
Proof.
  intros H. unfold handleMessage, handleSubscribe, handleUnsubscribe.
  destruct message as [|type [[channel fleetId regulatorId]|]]; simpl;
    repeat case_match; simplify_eq/=;
    auto using authorized_send, authorized_unsubscribeFromFleet,
      authorized_subscribeToRegulator, authorized_unsubscribeFromRegulator.
  all: apply authorized_send; eapply authorized_subscribeToFleet; [done|done|].
  all: by apply negb_false_iff.
Qed.

Lemma autoSubscribe_allowed user :
  includes [FLEET_MGR; SUB_FLEET_MGR; FLEET_USER] (Claims.role user) = true ->
  canSubscribeToFleet user (Claims.fleetId user) = true.
Proof.
  unfold canSubscribeToFleet, Auth.roleIs, includes, strict_eq.
  destruct (Claims.role user) as [[]|]; simpl; try done;
    intros _; by rewrite bool_decide_eq_true_2.
Qed.

Lemma authorized_autoSubscribe client hub :
  authorized hub -> authorized (autoSubscribe client hub).
Proof.
  intros H. unfold autoSubscribe.
  destruct (sockets hub !! client ≫= WebSocketClient.user) as [user|] eqn:Hu; [|done].
  destruct (truthy (Claims.fleetId user)); simpl; [|done].
  destruct (includes _ (Claims.role user)) eqn:Hrole; [|done].
  eapply authorized_subscribeToFleet; [done|done|]. by apply autoSubscribe_allowed.
Qed.

Lemma authorized_connection config id token now hub :
  sockets hub !! id = None ->
  authorized hub -> authorized (connection config id token now hub).
Proof.
  intros Hfresh H. unfold connection.
  match goal with |- context [<[id := ?c]> (sockets hub)] => set (client := c) end.
  assert (authorized {| sockets := <[id := client]> (sockets hub); clients := clients hub;
                        fleetSubscriptions := fleetSubscriptions hub;
                        regulatorSubscriptions := regulatorSubscriptions hub |}) as H1.
  { apply (authorized_sockets hub); [done|]. intros c socket Hc. exists socket.
    rewrite lookup_insert_ne; [done|]. intros ->. by rewrite Hfresh in Hc. }
  assert (forall payload,
            authorized (onSocket id (WebSocketClient.setUser payload)
              {| sockets := <[id := client]> (sockets hub); clients := clients hub;
                 fleetSubscriptions := fleetSubscriptions hub;
                 regulatorSubscriptions := regulatorSubscriptions hub |})) as H2.
  { intros payload. unfold onSocket. simpl. apply (authorized_sockets hub); [done|].
    intros c socket Hc. exists socket.
    rewrite lookup_alter_ne, lookup_insert_ne; [done| |]; intros ->; by rewrite Hfresh in Hc. }
  repeat case_match;
    auto using authorized_send, authorized_onSocket, authorized_autoSubscribe,
      authorized_onClients.
Qed.

Lemma authorized_beat client hub : authorized hub -> authorized (beat client hub).
Proof.
  intros H. unfold beat. destruct (sockets hub !! client) as [socket|]; [|done].
  destruct (negb (WebSocketClient.isAlive socket)); apply authorized_onSocket;
    auto using authorized_handleDisconnect.
Qed.

Lemma authorized_heartbeat hub : authorized hub -> authorized (heartbeat hub).
Proof.
  intros H. unfold heartbeat.
  induction (elements (clients hub)) as [|c cs IH]; simpl; [done|]. by apply authorized_beat.
Qed.

Lemma authorized_pong client hub : authorized hub -> authorized (pong client hub).
Proof. intros H. by apply authorized_onSocket. Qed.

Lemma reachable_authorized config typed hub : reachable config typed hub -> authorized hub.
Proof.
  unfold reachable. revert hub.
  apply (rtc_ind_r (fun hub => authorized hub) WebSocketService.empty).
  - intros key subscribers c Hkey. simpl in Hkey. by rewrite lookup_empty in Hkey.
  - intros hub hub' _ Hstep IH.
    destruct Hstep as [id token now Hfresh Htoken|client message Hin Htyped|client| |client Hin].
    + by apply authorized_connection.
    + by apply authorized_handleMessage.
    + by apply authorized_handleDisconnect.
    + by apply authorized_heartbeat.
    + by apply authorized_pong.
Qed.

(** X22: in every state the hub reaches, whatever values come in as channel
    ids, whoever is in the subscriber set of a fleet channel is a socket
    whose token [canSubscribeToFleet] accepts for that channel; so
    [broadcastToFleet] sends only to registered, open sockets of an ADMIN
    or SUB_ADMIN or of a FLEET_MGR, SUB_FLEET_MGR or FLEET_USER of that
    fleet. *)
Theorem broadcastToFleet_recipients config hub :
  reachable config false hub ->
  authorized hub
  /\ forall fleetId client,
       client ∈ broadcastToFleet fleetId hub ->
       client ∈ clients hub
       /\ exists socket user,
            sockets hub !! client = Some socket
            /\ WebSocketClient.closed socket = None
            /\ WebSocketClient.user socket = Some user
            /\ (Tier.systemWide user
                \/ (Tier.fleetScoped user /\ Claims.fleetId user = JsString fleetId)).
Proof.
  intros Hreach. pose proof (reachable_authorized _ _ _ Hreach) as Hauth. split; [done|].
  intros fleetId client. unfold broadcastToFleet.
  destruct (fleetSubscriptions hub !! JsString fleetId) as [subscribers|] eqn:Hkey;
    [|set_solver].
  intros ([Hreg Hopen] & Hin)%elem_of_filter. split; [done|].
  destruct (Hauth _ _ _ Hkey Hin) as (socket & user & Hs & Hu & Hcan).
  exists socket, user. split; [done|]. split.
  { unfold isOpen in Hopen. rewrite Hs in Hopen. by apply bool_decide_eq_true in Hopen. }
  split; [done|]. revert Hcan.
  unfold canSubscribeToFleet, Auth.roleIs, includes, strict_eq, Tier.systemWide,
    Tier.fleetScoped.
  destruct (Claims.role user) as [[]|]; simpl; try done; try (intros _; left; by auto);
    intros ->%bool_decide_eq_true; right; split; auto.
Qed.
End Channels.

(** ** Connections, disconnections and the heartbeat *)

Section Lifecycle.
Import WebSocketService HubInvariant.
Implicit Types (hub : Hub) (client : string).

(** X23: a connection without a token, or with the empty one, is closed with
    code 4001 after one ERROR event, one whose token does not verify with
    code 4002; neither is registered or subscribed to anything.  A
    connection whose token verifies is registered under its fresh id with
    the payload of the token, and is subscribed to the channel of its own
    fleet when the payload has a fleet and one of the three fleet roles, to
    nothing otherwise; the one event it is sent is CONNECTED, listing that
    subscription. *)
Theorem connection_spec config id token now hub :
  let hub' := connection config id token now hub in
  let socket user subscriptions sent closed :=
    {| WebSocketClient.id := id; WebSocketClient.user := user;
       WebSocketClient.subscriptions := subscriptions; WebSocketClient.isAlive := true;
       WebSocketClient.sent := sent; WebSocketClient.closed := closed |} in
  regulatorSubscriptions hub' = regulatorSubscriptions hub
  /\ (forall other, other <> id -> sockets hub' !! other = sockets hub !! other)
  /\ (token = None \/ token = Some (Opaque "") ->
        clients hub' = clients hub /\ fleetSubscriptions hub' = fleetSubscriptions hub
        /\ sockets hub' !! id
           = Some (socket None ∅ [EvERROR "Authentication required"]
                     (Some (4001, "Authentication required"))))
  /\ (forall raw error,
        token = Some raw -> raw <> Opaque "" ->
        Jwt.verifyAccessToken config raw now = inl error ->
        clients hub' = clients hub /\ fleetSubscriptions hub' = fleetSubscriptions hub
        /\ sockets hub' !! id
           = Some (socket None ∅ [EvERROR "Invalid or expired token"]
                     (Some (4002, "Invalid token"))))
  /\ (forall raw payload,
        token = Some raw ->
        Jwt.verifyAccessToken config raw now = inr payload ->
        clients hub' = clients hub ∪ {[id]}
        /\ if truthy (Claims.fleetId payload)
              && includes [FLEET_MGR; SUB_FLEET_MGR; FLEET_USER] (Claims.role payload)
           then
             let subKey := "fleet:" +:+ toString (Claims.fleetId payload) in
             fleetSubscriptions hub'
               = addSubscriber (Claims.fleetId payload) id (fleetSubscriptions hub)
             /\ sockets hub' !! id
                = Some (socket (Some payload) {[subKey]}
                          [EvCONNECTED id (Claims.userId payload) (Claims.role payload)
                             {[subKey]}] None)
           else
             fleetSubscriptions hub' = fleetSubscriptions hub
             /\ sockets hub' !! id
                = Some (socket (Some payload) ∅
                          [EvCONNECTED id (Claims.userId payload) (Claims.role payload) ∅]
                          None)).
Proof.
  cbn zeta.
  assert (Hverify : forall raw payload,
            Jwt.verifyAccessToken config raw now = inr payload -> raw <> Opaque "").
  { intros raw payload Hv ->. done. }
  split; [|split; [|split; [|split]]].
  - unfold connection, autoSubscribe, subscribeToFleet. repeat case_match; done.
  - intros other Hne. unfold connection, autoSubscribe, subscribeToFleet, send.
    repeat case_match; simpl; by rewrite ?lookup_alter_ne, ?lookup_insert_ne by done.
  - intros [-> | ->]; simpl; by rewrite !lookup_alter_eq, lookup_insert_eq.
  - intros raw error -> Hne Hv. unfold connection. rewrite Hv.
    destruct raw as [claims key|s]; simpl.
    + by rewrite !lookup_alter_eq, lookup_insert_eq.
    + destruct s; [done|]. simpl. by rewrite !lookup_alter_eq, lookup_insert_eq.
  - intros raw payload -> Hv. pose proof (Hverify _ _ Hv) as Hne.
    assert (connection config id (Some raw) now hub =
            let hub1 :=
              {| sockets := <[id := {| WebSocketClient.id := id; WebSocketClient.user := None;
                             WebSocketClient.subscriptions := ∅;
                             WebSocketClient.isAlive := true;
                             WebSocketClient.sent := []; WebSocketClient.closed := None |}]>
                              (sockets hub);
                 clients := clients hub;
                 fleetSubscriptions := fleetSubscriptions hub;
                 regulatorSubscriptions := regulatorSubscriptions hub |} in
            let hub2 := onSocket id (WebSocketClient.setUser payload) hub1 in
            let hub3 := onClients (fun registry => registry ∪ {[id]}) hub2 in
            let hub4 := autoSubscribe id hub3 in
            send id (EvCONNECTED id (Claims.userId payload) (Claims.role payload)
                       (default ∅ (WebSocketClient.subscriptions <$> sockets hub4 !! id)))
                 hub4) as ->.
    { unfold connection. rewrite Hv. destruct raw as [claims key|s]; [done|].
      by destruct s. }
    cbn zeta. unfold autoSubscribe. cbn [sockets onClients onSocket].
    rewrite lookup_alter_eq, lookup_insert_eq. cbn [fmap option_fmap option_map mbind option_bind
      WebSocketClient.user WebSocketClient.setUser].
    destruct (truthy (Claims.fleetId payload)
              && includes [FLEET_MGR; SUB_FLEET_MGR; FLEET_USER] (Claims.role payload)).
    + unfold subscribeToFleet, send, onSocket, onFleetSubscriptions. simpl.
      rewrite !lookup_alter_eq, lookup_insert_eq. simpl.
      unfold WebSocketClient.send, WebSocketClient.setSubscriptions, WebSocketClient.setUser.
      simpl. by rewrite !(left_id_L ∅ (∪)).
    + unfold send, onSocket. simpl.
      by rewrite !lookup_alter_eq, lookup_insert_eq.
Qed.

(** *** What [handleDisconnect] leaves of a socket *)

Lemma unwind_sockets client sub hub other :
  other <> client -> sockets (unwind client sub hub) !! other = sockets hub !! other.
Proof.
  intros Hne. unfold unwind.
  destruct (startsWith "fleet:" sub); [|destruct (startsWith "regulator:" sub)].
  - unfold unsubscribeFromFleet. cbn [sockets onSocket onFleetSubscriptions].
    by rewrite lookup_alter_ne.
  - unfold unsubscribeFromRegulator. cbn [sockets onSocket onRegulatorSubscriptions].
    by rewrite lookup_alter_ne.
  - done.
Qed.

Lemma unwind_socket client sub hub socket :
  sockets hub !! client = Some socket ->
  exists socket',
    sockets (unwind client sub hub) !! client = Some socket'
    /\ WebSocketClient.isAlive socket' = WebSocketClient.isAlive socket
    /\ WebSocketClient.closed socket' = WebSocketClient.closed socket
    /\ WebSocketClient.user socket' = WebSocketClient.user socket
    /\ WebSocketClient.subscriptions socket' ⊆ WebSocketClient.subscriptions socket
    /\ ((startsWith "fleet:" sub || startsWith "regulator:" sub) = true ->
        sub ∉ WebSocketClient.subscriptions socket').
Proof.
  intros Hs. unfold unwind.
  destruct (startsWith "fleet:" sub) eqn:Hfleet.
  - apply startsWith_split in Hfleet.
    set (fleetId := dropPrefix "fleet:" sub) in *.
    unfold unsubscribeFromFleet. simpl. rewrite lookup_alter_eq, Hs. simpl.
    eexists. split; [done|]. simpl. rewrite <-Hfleet. repeat split; set_solver.
  - destruct (startsWith "regulator:" sub) eqn:Hreg.
    + apply startsWith_split in Hreg.
      set (regulatorId := dropPrefix "regulator:" sub) in *.
      unfold unsubscribeFromRegulator. simpl. rewrite lookup_alter_eq, Hs. simpl.
      eexists. split; [done|]. simpl. rewrite <-Hreg. repeat split; set_solver.
    + exists socket. repeat split; done.
Qed.

Lemma unwind_all_sockets client visited hub other :
  other <> client ->
  sockets (foldr (unwind client) hub visited) !! other = sockets hub !! other.
Proof.
  intros Hne. induction visited as [|sub visited IH]; simpl; [done|].
  by rewrite unwind_sockets.
Qed.

Lemma unwind_all_socket client visited hub socket :
  sockets hub !! client = Some socket ->
  exists socket',
    sockets (foldr (unwind client) hub visited) !! client = Some socket'
    /\ WebSocketClient.isAlive socket' = WebSocketClient.isAlive socket
    /\ WebSocketClient.closed socket' = WebSocketClient.closed socket
    /\ WebSocketClient.user socket' = WebSocketClient.user socket
    /\ WebSocketClient.subscriptions socket' ⊆ WebSocketClient.subscriptions socket
    /\ forall sub, sub ∈ visited ->
         (startsWith "fleet:" sub || startsWith "regulator:" sub) = true ->
         sub ∉ WebSocketClient.subscriptions socket'.
Proof.
  intros Hs. induction visited as [|sub visited IH]; simpl.
  - exists socket. repeat split; try done. intros sub Hin. by apply elem_of_nil in Hin.
  - destruct IH as (socket1 & Hs1 & Ha1 & Hc1 & Hu1 & Hsub1 & Hgone1).
    destruct (unwind_socket client sub _ _ Hs1) as (socket2 & Hs2 & Ha2 & Hc2 & Hu2 & Hsub2 & Hgone2).
    exists socket2. split; [done|]. split; [congruence|]. split; [congruence|].
    split; [congruence|]. split; [set_solver|].
    intros sub' [->|Hin]%elem_of_cons Hprefix; [by apply Hgone2|].
    specialize (Hgone1 sub' Hin Hprefix). set_solver.
Qed.

Lemma unwind_none client sub hub :
  (startsWith "fleet:" sub || startsWith "regulator:" sub) = false ->
  unwind client sub hub = hub.
Proof.
  intros [Hf Hr]%orb_false_iff. unfold unwind. by rewrite Hf, Hr.
Qed.

Lemma unwind_all_none client visited hub :
  (forall sub, sub ∈ visited ->
     (startsWith "fleet:" sub || startsWith "regulator:" sub) = false) ->
  foldr (unwind client) hub visited = hub.
Proof.
  induction visited as [|sub visited IH]; intros Hall; simpl; [done|].
  rewrite IH by (intros; apply Hall; set_solver).
  apply unwind_none, Hall. set_solver.
Qed.

Lemma handleDisconnect_subscriptions client hub sub :
  sub ∈ default ∅ (WebSocketClient.subscriptions
                     <$> sockets (handleDisconnect client hub) !! client) ->
  (startsWith "fleet:" sub || startsWith "regulator:" sub) = false.
Proof.
  unfold handleDisconnect. cbn [sockets onClients].
  destruct (sockets hub !! client) as [socket|] eqn:Hs; simpl.
  - destruct (unwind_all_socket client
                (elements (WebSocketClient.subscriptions socket)) hub socket Hs)
      as (socket' & Hs' & _ & _ & _ & Hsub & Hgone).
    rewrite Hs'. simpl. intros Hin.
    destruct (startsWith "fleet:" sub || startsWith "regulator:" sub) eqn:Hprefix; [|done].
    exfalso. apply (Hgone sub); [|done|done]. apply elem_of_elements. set_solver.
  - rewrite elements_empty. simpl. rewrite Hs. simpl. set_solver.
Qed.

(** X24: [handleDisconnect] can run twice for one socket, once from the
    heartbeat and once more from the close event that [terminate()] raises:
    the second run changes nothing.  The first takes the socket out of the
    registry, so that no broadcast reaches it, and leaves the other sockets
    alone. *)
Theorem handleDisconnect_idempotent client hub :
  handleDisconnect client (handleDisconnect client hub) = handleDisconnect client hub
  /\ clients (handleDisconnect client hub) = clients hub ∖ {[client]}
  /\ (client ∉ broadcastToAll (handleDisconnect client hub))
  /\ (forall fleetId, client ∉ broadcastToFleet fleetId (handleDisconnect client hub))
  /\ (forall regulatorId,
        client ∉ broadcastToRegulator regulatorId (handleDisconnect client hub))
  /\ (forall other, other <> client ->
        sockets (handleDisconnect client hub) !! other = sockets hub !! other).
Proof.
  assert (Hclients : clients (handleDisconnect client hub) = clients hub ∖ {[client]}).
  { unfold handleDisconnect. simpl. by rewrite clients_unwind_all. }
  split; [|split; [done|split; [|split; [|split]]]].
  - unfold handleDisconnect at 1.
    rewrite unwind_all_none.
    2:{ intros sub Hin%elem_of_elements. by apply handleDisconnect_subscriptions in Hin. }
    unfold handleDisconnect, onClients. simpl. f_equal.
    apply leibniz_equiv. set_solver.
  - unfold broadcastToAll. rewrite elem_of_filter, Hclients. set_solver.
  - intros fleetId. unfold broadcastToFleet. case_match; [|set_solver].
    rewrite elem_of_filter, Hclients. set_solver.
  - intros regulatorId. unfold broadcastToRegulator. case_match; [|set_solver].
    rewrite elem_of_filter, Hclients. set_solver.
  - intros other Hne. unfold handleDisconnect. simpl. by apply unwind_all_sockets.
Qed.
End Lifecycle.

(** ** Channel maps and the heartbeat *)

Section Heartbeat.
Import WebSocketService HubInvariant.
Implicit Types (hub : Hub) (client : string).

Lemma populated_add key id subs : populated subs -> populated (addSubscriber key id subs).
Proof.
  intros H k s Hk. destruct (decide (k = key)) as [->|Hne].
  - rewrite addSubscriber_lookup in Hk. injection Hk as <-. set_solver.
  - rewrite addSubscriber_lookup_ne in Hk by done. by apply (H k).
Qed.

Lemma populated_remove key id subs : populated subs -> populated (removeSubscriber key id subs).
Proof.
  intros H k s. unfold removeSubscriber.
  destruct (subs !! key) as [before|] eqn:Hkey; [|by apply H].
  case_bool_decide as Hsize.
  - rewrite lookup_delete. case_decide; [done|]. by apply H.
  - rewrite lookup_insert. case_decide; [|by apply H].
    intros [= <-] Hempty. apply Hsize. rewrite Hempty. apply size_empty.
Qed.

Lemma populated_handleDisconnect client hub :
  populated (fleetSubscriptions hub) /\ populated (regulatorSubscriptions hub) ->
  populated (fleetSubscriptions (handleDisconnect client hub))
  /\ populated (regulatorSubscriptions (handleDisconnect client hub)).
Proof.
  intros H. unfold handleDisconnect. cbn [fleetSubscriptions regulatorSubscriptions onClients].
  induction (elements _) as [|sub visited IH]; simpl; [done|].
  destruct IH as [IHf IHr]. unfold unwind.
  destruct (startsWith "fleet:" sub); [|destruct (startsWith "regulator:" sub)]; simpl;
    auto using populated_remove.
Qed.

Lemma populated_handleMessage client message hub :
  populated (fleetSubscriptions hub) /\ populated (regulatorSubscriptions hub) ->
  populated (fleetSubscriptions (handleMessage client message hub))
  /\ populated (regulatorSubscriptions (handleMessage client message hub)).
Proof.
  intros [Hf Hr]. unfold handleMessage, handleSubscribe, handleUnsubscribe.
  destruct message as [|type [[channel fleetId regulatorId]|]]; simpl;
    repeat case_match; simplify_eq/=; auto using populated_add, populated_remove.
Qed.

Lemma populated_connection config id token now hub :
  populated (fleetSubscriptions hub) /\ populated (regulatorSubscriptions hub) ->
  populated (fleetSubscriptions (connection config id token now hub))
  /\ populated (regulatorSubscriptions (connection config id token now hub)).
Proof.
  intros [Hf Hr]. unfold connection, autoSubscribe.
  repeat case_match; simplify_eq/=; auto using populated_add.
Qed.

Lemma populated_beat client hub :
  populated (fleetSubscriptions hub) /\ populated (regulatorSubscriptions hub) ->
  populated (fleetSubscriptions (beat client hub))
  /\ populated (regulatorSubscriptions (beat client hub)).
Proof.
  intros H. unfold beat. destruct (sockets hub !! client) as [socket|]; [|done].
  destruct (negb (WebSocketClient.isAlive socket)); [|done].
  by apply (populated_handleDisconnect client) in H.
Qed.

Lemma populated_heartbeat hub :
  populated (fleetSubscriptions hub) /\ populated (regulatorSubscriptions hub) ->
  populated (fleetSubscriptions (heartbeat hub))
  /\ populated (regulatorSubscriptions (heartbeat hub)).
Proof.
  intros H. unfold heartbeat.
  induction (elements (clients hub)) as [|c cs IH]; simpl; [done|]. by apply populated_beat.
Qed.

Lemma reachable_populated config typed hub :
  reachable config typed hub ->
  populated (fleetSubscriptions hub) /\ populated (regulatorSubscriptions hub).
Proof.
  unfold reachable. revert hub.
  apply (rtc_ind_r (fun hub => populated (fleetSubscriptions hub)
                               /\ populated (regulatorSubscriptions hub))
           WebSocketService.empty).
  - split; intros key subscribers Hkey; simpl in Hkey; by rewrite lookup_empty in Hkey.
  - intros hub hub' _ Hstep IH.
    destruct Hstep as [id token now Hfresh Htoken|client message Hin Htyped|client| |client Hin].
    + by apply populated_connection.
    + by apply populated_handleMessage.
    + by apply populated_handleDisconnect.
    + by apply populated_heartbeat.
    + done.
Qed.

(** X25: in every state the hub reaches, whatever values come in as channel
    ids, no channel is kept without a subscriber:
    [getFleetSubscriberCount] is zero exactly for the fleets that have no
    entry in the map, and is otherwise the size, at least one, of the
    subscriber set, which bounds the number of sockets a broadcast to the
    fleet reaches. *)
Theorem getFleetSubscriberCount_spec config hub fleetId :
  reachable config false hub ->
  (getFleetSubscriberCount fleetId hub = 0 <->
     fleetSubscriptions hub !! JsString fleetId = None)
  /\ (forall subscribers,
        fleetSubscriptions hub !! JsString fleetId = Some subscribers ->
        getFleetSubscriberCount fleetId hub = Z.of_nat (size subscribers)
        /\ 1 <= getFleetSubscriberCount fleetId hub)
  /\ Z.of_nat (size (broadcastToFleet fleetId hub)) <= getFleetSubscriberCount fleetId hub.
Proof.
  intros Hreach. destruct (reachable_populated _ _ _ Hreach) as [Hf _].
  unfold getFleetSubscriberCount, broadcastToFleet.
  destruct (fleetSubscriptions hub !! JsString fleetId) as [subscribers|] eqn:Hkey.
  - pose proof (Hf _ _ Hkey) as Hne.
    assert (size subscribers <> 0%nat) as Hsize by by rewrite size_empty_iff; set_solver.
    split; [split; [lia|done]|]. split.
    + intros ? [= <-]. split; [done|lia].
    + apply Nat2Z.inj_le, subseteq_size. set_solver.
  - split; [done|]. split; [done|]. by rewrite size_empty.
Qed.

(** *** One beat *)

Lemma handleDisconnect_socket client hub socket :
  sockets hub !! client = Some socket ->
  exists socket',
    sockets (handleDisconnect client hub) !! client = Some socket'
    /\ WebSocketClient.isAlive socket' = WebSocketClient.isAlive socket
    /\ WebSocketClient.closed socket' = WebSocketClient.closed socket
    /\ WebSocketClient.user socket' = WebSocketClient.user socket.
Proof.
  intros Hs. unfold handleDisconnect. cbn [sockets onClients].
  destruct (unwind_all_socket client
              (elements (default ∅ (WebSocketClient.subscriptions <$> sockets hub !! client)))
              hub socket Hs) as (socket' & Hs' & Ha & Hc & Hu & _).
  by exists socket'.
Qed.

Lemma handleDisconnect_sockets client hub other :
  other <> client -> sockets (handleDisconnect client hub) !! other = sockets hub !! other.
Proof. intros Hne. unfold handleDisconnect. simpl. by apply unwind_all_sockets. Qed.

Lemma handleDisconnect_clients client hub :
  clients (handleDisconnect client hub) = clients hub ∖ {[client]}.
Proof. unfold handleDisconnect. simpl. by rewrite clients_unwind_all. Qed.

Lemma beat_sockets client hub other :
  other <> client -> sockets (beat client hub) !! other = sockets hub !! other.
Proof.
  intros Hne. unfold beat. destruct (sockets hub !! client) as [socket|]; [|done].
  destruct (WebSocketClient.isAlive socket); cbn [negb sockets onSocket].
  - by rewrite lookup_alter_ne.
  - rewrite lookup_alter_ne by done. by apply handleDisconnect_sockets.
Qed.

Lemma beat_socket client hub socket :
  sockets hub !! client = Some socket ->
  exists socket',
    sockets (beat client hub) !! client = Some socket'
    /\ WebSocketClient.isAlive socket' = false
    /\ WebSocketClient.user socket' = WebSocketClient.user socket
    /\ (WebSocketClient.isAlive socket = false ->
        WebSocketClient.closed socket' = Some (1006, ""))
    /\ (WebSocketClient.isAlive socket = true ->
        WebSocketClient.closed socket' = WebSocketClient.closed socket).
Proof.
  intros Hs. unfold beat. rewrite Hs.
  destruct (WebSocketClient.isAlive socket) eqn:Halive; cbn [negb sockets onSocket].
  - rewrite lookup_alter_eq, Hs. simpl. eexists. split; [done|]. by repeat split.
  - destruct (handleDisconnect_socket client hub socket Hs) as (socket1 & Hs1 & Ha & _ & Hu).
    rewrite lookup_alter_eq, Hs1. simpl. eexists. split; [done|]. simpl.
    repeat split; try done; congruence.
Qed.

Lemma beat_clients client hub c :
  c ∈ clients (beat client hub) <->
  c ∈ clients hub
  /\ ~ (c = client /\ exists socket, sockets hub !! client = Some socket
                                     /\ WebSocketClient.isAlive socket = false).
Proof.
  unfold beat. destruct (sockets hub !! client) as [socket|] eqn:Hs.
  - destruct (WebSocketClient.isAlive socket) eqn:Halive; cbn [negb clients onSocket].
    + split; [|by intros [? _]]. intros Hin. split; [done|].
      intros (_ & socket0 & [= <-] & Ha). congruence.
    + rewrite handleDisconnect_clients, elem_of_difference, elem_of_singleton.
      split.
      * intros [Hin Hne]. split; [done|]. by intros [? _].
      * intros [Hin Hnot]. split; [done|]. intros ->. apply Hnot. split; [done|].
        by exists socket.
  - split; [|by intros [? _]]. intros Hin. split; [done|]. by intros (_ & socket0 & ? & _).
Qed.

Lemma beats_spec visited hub :
  NoDup visited ->
  (forall c, c ∈ clients (foldr beat hub visited) <->
     c ∈ clients hub
     /\ ~ (c ∈ visited /\ exists socket, sockets hub !! c = Some socket
                                         /\ WebSocketClient.isAlive socket = false))
  /\ (forall c, c ∉ visited -> sockets (foldr beat hub visited) !! c = sockets hub !! c)
  /\ (forall c socket, c ∈ visited -> sockets hub !! c = Some socket ->
        exists socket',
          sockets (foldr beat hub visited) !! c = Some socket'
          /\ WebSocketClient.isAlive socket' = false
          /\ WebSocketClient.user socket' = WebSocketClient.user socket
          /\ (WebSocketClient.isAlive socket = false ->
              WebSocketClient.closed socket' = Some (1006, ""))
          /\ (WebSocketClient.isAlive socket = true ->
              WebSocketClient.closed socket' = WebSocketClient.closed socket)).
Proof.
  induction visited as [|client visited IH]; intros Hnd; simpl.
  - split; [set_solver|]. split; [done|]. intros c socket Hin. by apply elem_of_nil in Hin.
  - apply NoDup_cons in Hnd as [Hnotin Hnd].
    destruct (IH Hnd) as (IHc & IHo & IHs). clear IH.
    pose proof (IHo client Hnotin) as Hsame.
    split; [|split].
    + intros c. rewrite beat_clients, IHc, Hsame. set_unfold. naive_solver.
    + intros c Hc. apply not_elem_of_cons in Hc as [Hne Hc].
      rewrite beat_sockets by done. by apply IHo.
    + intros c socket [->|Hin]%elem_of_cons Hs.
      * apply beat_socket. by rewrite Hsame.
      * assert (c <> client) as Hne by (by intros ->).
        rewrite beat_sockets by done. by apply IHs.
Qed.

(** X26: one tick of the heartbeat keeps in the registry exactly the sockets
    that had answered the previous ping, and leaves each of them marked as
    not having answered; the others are terminated with code 1006; sockets
    outside the registry are not touched.  So a second tick empties the
    registry of every socket that has sent no pong in between, and a socket
    whose pong arrived in between survives it. *)
Theorem heartbeat_spec hub :
  (forall c, c ∈ clients (heartbeat hub) <->
     c ∈ clients hub
     /\ forall socket, sockets hub !! c = Some socket -> WebSocketClient.isAlive socket = true)
  /\ (forall c socket, c ∈ clients hub -> sockets hub !! c = Some socket ->
        exists socket',
          sockets (heartbeat hub) !! c = Some socket'
          /\ WebSocketClient.isAlive socket' = false
          /\ (WebSocketClient.isAlive socket = false ->
              WebSocketClient.closed socket' = Some (1006, ""))
          /\ (WebSocketClient.isAlive socket = true ->
              WebSocketClient.closed socket' = WebSocketClient.closed socket))
  /\ (forall c, c ∉ clients hub -> sockets (heartbeat hub) !! c = sockets hub !! c)
  /\ (forall c, c ∈ clients (heartbeat (heartbeat hub)) -> sockets hub !! c = None)
  /\ (forall c socket, c ∈ clients (heartbeat hub) -> sockets hub !! c = Some socket ->
        c ∈ clients (heartbeat (pong c (heartbeat hub)))).
Proof.
  assert (Hspec : forall hub,
    (forall c, c ∈ clients (heartbeat hub) <->
       c ∈ clients hub
       /\ forall socket, sockets hub !! c = Some socket ->
                         WebSocketClient.isAlive socket = true)
    /\ (forall c socket, c ∈ clients hub -> sockets hub !! c = Some socket ->
          exists socket',
            sockets (heartbeat hub) !! c = Some socket'
            /\ WebSocketClient.isAlive socket' = false
            /\ (WebSocketClient.isAlive socket = false ->
                WebSocketClient.closed socket' = Some (1006, ""))
            /\ (WebSocketClient.isAlive socket = true ->
                WebSocketClient.closed socket' = WebSocketClient.closed socket))
    /\ (forall c, c ∉ clients hub -> sockets (heartbeat hub) !! c = sockets hub !! c)).
  { intros h. unfold heartbeat.
    destruct (beats_spec (elements (clients h)) h (NoDup_elements _)) as (Hc & Ho & Hs).
    split; [|split].
    - intros c. rewrite Hc, elem_of_elements. split.
      + intros [Hin Hnot]. split; [done|]. intros socket Hsocket.
        destruct (WebSocketClient.isAlive socket) eqn:Ha; [done|].
        destruct Hnot. split; [done|]. by exists socket.
      + intros [Hin Hall]. split; [done|]. intros (_ & socket & Hsocket & Ha).
        rewrite (Hall socket Hsocket) in Ha. done.
    - intros c socket Hin Hsocket.
      destruct (Hs c socket) as (socket' & ? & ? & ? & ? & ?);
        [by apply elem_of_elements|done|]. by exists socket'.
    - intros c Hc'. apply Ho. by rewrite elem_of_elements. }
  destruct (Hspec hub) as (Hc & Hs & Ho).
  split; [done|]. split; [done|]. split; [done|]. split.
  - intros c Hin. destruct (Hspec (heartbeat hub)) as (Hc' & _ & _).
    apply Hc' in Hin as [Hin Halive]. pose proof (proj1 (Hc c) Hin) as [Hreg _].
    destruct (sockets hub !! c) as [socket|] eqn:Hsocket; [|done].
    destruct (Hs c socket Hreg Hsocket) as (socket' & Hs' & Ha' & _).
    rewrite (Halive socket' Hs') in Ha'. done.
  - intros c socket Hin Hsocket.
    destruct (Hspec (pong c (heartbeat hub))) as (Hc' & _ & _).
    apply Hc'. split; [done|]. intros socket'. unfold pong. simpl.
    rewrite lookup_alter_eq.
    destruct (sockets (heartbeat hub) !! c); simpl; [|done]. by intros [= <-].
Qed.
End Heartbeat.

(** ** Messages *)

Section Messages.
Import WebSocketService HubInvariant.
Implicit Types (hub : Hub) (client : string).


Lemma remove_add_subscriber key client (subs : gmap JsValue (gset string)) :
  populated subs ->
  (forall subscribers, subs !! key = Some subscribers -> client ∉ subscribers) ->
  removeSubscriber key client (addSubscriber key client subs) = subs.
Proof.
  intros Hpop Hnotin. unfold removeSubscriber. rewrite addSubscriber_lookup.
  destruct (subs !! key) as [before|] eqn:Hkey; cbn [from_option id].
  - assert ((before ∪ {[client]}) ∖ {[client]} = before) as ->.
    { apply leibniz_equiv. specialize (Hnotin before eq_refl). set_solver. }
    rewrite bool_decide_eq_false_2.
    2:{ rewrite size_empty_iff. intros Hempty%leibniz_equiv. by apply (Hpop key before). }
    apply map_eq. intros k. destruct (decide (k = key)) as [->|Hne].
    + by rewrite lookup_insert_eq.
    + rewrite lookup_insert_ne by done. by apply addSubscriber_lookup_ne.
  - assert (((∅ : gset string) ∪ {[client]}) ∖ {[client]} = ∅) as ->.
    { apply leibniz_equiv. set_solver. }
    rewrite bool_decide_eq_true_2 by apply size_empty.
    apply map_eq. intros k. destruct (decide (k = key)) as [->|Hne].
    + by rewrite lookup_delete_eq.
    + rewrite lookup_delete_ne by done. by apply addSubscriber_lookup_ne.
Qed.

(** X28: subscribing a socket to a fleet channel it is not in and unsubscribing
    it again restores the hub: the subscriber map, where the channel is
    deleted again if the socket was its only subscriber, and the socket's
    own subscription set. *)
Theorem subscribe_unsubscribe_round_trip client fleetId hub socket :
  sockets hub !! client = Some socket ->
  populated (fleetSubscriptions hub) ->
  ("fleet:" +:+ toString fleetId) ∉ WebSocketClient.subscriptions socket ->
  (forall subscribers,
     fleetSubscriptions hub !! fleetId = Some subscribers -> client ∉ subscribers) ->
  unsubscribeFromFleet client fleetId (subscribeToFleet client fleetId hub) = hub
  /\ (exists subscribers,
        fleetSubscriptions (subscribeToFleet client fleetId hub) !! fleetId
          = Some subscribers /\ client ∈ subscribers).
Proof.
  intros Hs Hpop Hkey Hnotin. split.
  - unfold unsubscribeFromFleet, subscribeToFleet, onSocket, onFleetSubscriptions.
    destruct hub as [store registry fleets regs]. simpl in *. f_equal.
    + apply map_eq. intros c. destruct (decide (c = client)) as [->|Hne].
      * rewrite !lookup_alter_eq, Hs. simpl. f_equal.
        destruct socket as [id user subscriptions alive sent closed].
        unfold WebSocketClient.setSubscriptions. simpl in *. f_equal.
        apply leibniz_equiv. set_solver.
      * by rewrite !lookup_alter_ne.
    + by apply remove_add_subscriber.
  - unfold subscribeToFleet. simpl. rewrite addSubscriber_lookup.
    eexists. split; [done|]. set_solver.
Qed.
End Messages.

(** ** The properties above on the worked histories *)

Lemma scenario_db0_reachable : System.reachable Scenario.config Scenario.db0.
Proof. exists [Scenario.alice], [], []. split; [exact I|reflexivity]. Qed.

Lemma scenario_connected_reachable :
  HubInvariant.reachable Scenario.config true Scenario.connected.
Proof.
  eapply rtc_l; [|apply rtc_refl].
  apply HubInvariant.step_connection; [reflexivity|].
  intros _ raw payload [= <-] [= <-]. intros Htruthy. discriminate Htruthy.
Qed.

Lemma scenario_afterSubscribeR9_reachable :
  HubInvariant.reachable Scenario.config true Scenario.afterSubscribeR9.
Proof.
  eapply rtc_r; [apply scenario_connected_reachable|].
  apply HubInvariant.step_message.
  - apply (bool_decide_unpack _). by vm_compute.
  - intros _. split; intros Htruthy; [discriminate Htruthy|by eexists].
Qed.

(** Alice's socket after a SUBSCRIBE message that names a fleet by a
    number: a state the hub reaches, though not with string ids only. *)
Lemma scenario_aliceNumeric_reachable :
  HubInvariant.reachable Scenario.config false Scenario.aliceNumeric.
Proof.
  eapply rtc_l; [|eapply rtc_l; [|apply rtc_refl]].
  - apply (HubInvariant.step_connection _ _ _ "c-alice" (Some Scenario.aliceToken) 1000);
      [reflexivity|discriminate].
  - apply (HubInvariant.step_message _ _ _ "c-alice" Scenario.subscribeFleet7);
      [|discriminate].
    apply (bool_decide_unpack _). by vm_compute.
Qed.

(** Alice, a FLEET_MGR of fleet F1, reaches the regulators and the channel
    of F1 and passes the gate of the fleet routes. *)
Lemma canAccessFleet_implies_witness :
  Auth.canAccessFleet Scenario.manager "F1" = true
  /\ Auth.user Scenario.aliceRequest = Some Scenario.manager
  /\ Auth.canAccessRegulator Scenario.manager (Some "F1") (Some "u-carol") = true
  /\ WebSocketService.canSubscribeToFleet Scenario.manager (JsString "F1") = true
  /\ Auth.requireFleetAccess Scenario.aliceRequest = Auth.Next Scenario.aliceRequest.
Proof.
  split; [reflexivity|]. split; [reflexivity|].
  destruct (canAccessFleet_implies Scenario.manager "F1" Scenario.aliceRequest
              eq_refl eq_refl ltac:(discriminate)) as (Hregulator & Hchannel & Hgate).
  split; [exact (Hregulator (Some "u-carol"))|]. by split.
Defined.

(** An administrator's request passes [requireAdmin], and the predicate
    lets the administrator manage another administrator. *)
Lemma requireAdmin_canManageUser_witness :
  Auth.requireAdmin Scenario.rootRequest = Auth.Next Scenario.rootRequest
  /\ Auth.canManageUser Scenario.root ADMIN None = true.
Proof.
  split; [reflexivity|].
  destruct (requireAdmin_canManageUser Scenario.rootRequest Scenario.rootRequest eq_refl)
    as (actor & Hactor & _ & Hmanage).
  injection Hactor as <-. exact (Hmanage ADMIN None).
Defined.

(** Alice's refresh token, presented as a bearer token on the third day. *)
Lemma refresh_token_as_bearer_witness :
  Jwt.generateRefreshToken Scenario.config "u-alice" "alice@example.com" None "family-0" 0
    = Some (Scenario.token0, "family-0")
  /\ Config.getRefreshTokenExpirySeconds Scenario.config = Some 604800
  /\ (3 * Scenario.day) / 1000 < 0 / 1000 + 604800
  /\ Auth.authorization Scenario.refreshBearer = Some [Opaque "Bearer"; Scenario.token0]
  /\ exists payload,
       Auth.authenticate Scenario.config Scenario.refreshBearer (3 * Scenario.day)
         = Auth.Next {| Auth.authorization := Auth.authorization Scenario.refreshBearer;
                        Auth.user := Some payload |}
       /\ Claims.userId payload = "u-alice"
       /\ Auth.requireFleetAccess
            {| Auth.authorization := Auth.authorization Scenario.refreshBearer;
               Auth.user := Some payload |}
          = Auth.Answered (Response.forbidden "Insufficient permissions").
Proof.
  split; [reflexivity|]. split; [reflexivity|]. split; [reflexivity|].
  split; [reflexivity|].
  destruct (refresh_token_as_bearer Scenario.config
              "u-alice" "alice@example.com" None "family-0" 0 Scenario.token0 "family-0"
              604800 (3 * Scenario.day) Scenario.refreshBearer
              eq_refl eq_refl eq_refl eq_refl)
    as (payload & Hnext & Huser & _ & Hgates & _).
  exists payload. split; [exact Hnext|]. split; [exact Huser|]. apply Hgates.
Defined.


(** Two refresh tokens of Alice's family made within the first second. *)
Lemma refresh_token_has_no_id_witness :
  "family-0" <> ""
  /\ 0 / 1000 = 999 / 1000
  /\ Jwt.generateRefreshToken Scenario.config "u-alice" "alice@example.com"
       (Some "family-0") "uuid-1" 0
     = Jwt.generateRefreshToken Scenario.config "u-alice" "alice@example.com"
         (Some "family-0") "uuid-2" 999.
Proof.
  split; [discriminate|]. split; [reflexivity|].
  exact (proj1 (refresh_token_has_no_id Scenario.config "u-alice" "alice@example.com"
                  "family-0" "uuid-1" "uuid-2" 0 999 ltac:(discriminate) eq_refl)).
Defined.


(** Alice's first token is presented a millisecond before it expires and
    the ledger is consulted a millisecond after: [jwt.verify] accepts the
    token and the expiry test of the ledger row throws TOKEN_EXPIRED. *)
Lemma refreshTokens_Throws_witness :
  System.reachable Scenario.config Scenario.db1
  /\ Jwt.verifyRefreshToken Scenario.config Scenario.token0 (7 * Scenario.day - 1)
     = inr Scenario.claims0
  /\ Scenario.straddled
     = (Throws (AppError "Refresh token has expired" 401 "TOKEN_EXPIRED"), Scenario.db1)
  /\ exists pk stored,
       refreshTokens Scenario.db1 !! pk = Some stored
       /\ RefreshToken.revokedAt stored = None
       /\ RefreshToken.expiresAt stored < 7 * Scenario.day + 1.
Proof.
  split; [exact scenario_db1_reachable|]. split; [reflexivity|]. split; [reflexivity|].
  destruct (refreshTokens_Throws Scenario.config Scenario.token0 "jti-1" "family-1" 0%nat
              (7 * Scenario.day - 1) (7 * Scenario.day + 1)
              (Jwt.once (7 * Scenario.day + 1)) Scenario.db1 _ Scenario.db1
              scenario_db1_reachable eq_refl)
    as [(He & _)|[(He & _)|[(He & _)|[(_ & _ & pk & stored & Hpk & _ & Hrev & Hexp)
                                     |(He & _)]]]];
    [discriminate He|discriminate He|discriminate He| |discriminate He].
  exists pk, stored. split; [exact Hpk|]. split; [exact Hrev|exact Hexp].
Defined.


(** The token of Alice's login is rotated on the third day. *)
Lemma login_then_refresh_witness :
  System.reachable Scenario.config Scenario.db0
  /\ NoDup (User.id <$> users Scenario.db0)
  /\ Config.getRefreshTokenExpirySeconds Scenario.config = Some 604800
  /\ (3 * Scenario.day) / 1000 < 0 / 1000 + 604800
  /\ 3 * Scenario.day <= 0 + 604800 * 1000
  /\ Scenario.loggedIn = (Returns Scenario.response0, Scenario.db1)
  /\ exists response' db2,
       AuthService.refreshTokens Scenario.config
         (LoginResponse.refreshToken Scenario.response0)
         "jti-1" "family-1" 0 (3 * Scenario.day) (3 * Scenario.day)
         (Jwt.once (3 * Scenario.day)) Scenario.db1
       = (Returns response', db2)
       /\ length (refreshTokens db2) = 2%nat.
Proof.
  assert (NoDup (User.id <$> users Scenario.db0)) as Hnd.
  { apply NoDup_singleton. }
  assert (3 * Scenario.day <= 0 + 604800 * 1000) as Hle by discriminate.
  split; [exact scenario_db0_reachable|]. split; [exact Hnd|].
  split; [reflexivity|]. split; [reflexivity|]. split; [exact Hle|]. split; [reflexivity|].
  destruct (login_then_refresh Scenario.config "alice@example.com" "StrongPass123!" "jti-0"
              "family-0" (Jwt.once 0) Scenario.db0 Scenario.response0 Scenario.db1 604800
              "jti-1" "family-1" 0%nat (3 * Scenario.day) (3 * Scenario.day)
              (Jwt.once (3 * Scenario.day))
              scenario_db0_reachable Hnd
              ltac:(intros i r Hi; discriminate Hi) eq_refl eq_refl eq_refl Hle)
    as (response' & db2 & Hrefresh & Hlength).
  exists response', db2. split; [exact Hrefresh|exact Hlength].
Defined.



(** Alice's reset token is used a minute after it was drawn. *)
Lemma forgot_then_reset_witness :
  Query.credential "alice@example.com" (users Scenario.db0) = Some Scenario.alice
  /\ Password.valid (Password.validatePasswordStrength "NewPass456?") = true
  /\ 60000 <= 0 + 3600000
  /\ exists db2,
       AuthService.resetPassword (Opaque "5e7") "NewPass456?" "salt2" 60000
         (snd Scenario.forgotEarly)
       = (Returns "Password reset successful", db2)
       /\ failed (fst (AuthService.resetPassword (Opaque "5e7") "Another789!" "salt3"
                         120000 db2)).
Proof.
  split; [reflexivity|]. split; [reflexivity|]. split; [discriminate|].
  destruct (forgot_then_reset "alice@example.com" "5e7" 0 Scenario.db0 Scenario.alice
              "NewPass456?" "salt2" 60000 eq_refl
              ltac:(intros i r Hi; discriminate Hi) eq_refl)
    as [Hlive _].
  destruct (Hlive ltac:(discriminate)) as (db2 & Hreset & _ & Hspent).
  exists db2. split; [exact Hreset|].
  rewrite (Hspent "Another789!" "salt3" 120000). exact I.
Defined.

(** Alice's socket is subscribed to the channel of her fleet on connection
    and is the one a broadcast to F1 reaches, also after her message that
    names a fleet by the number 7, which is refused. *)
Lemma broadcastToFleet_recipients_witness :
  HubInvariant.reachable Scenario.config false Scenario.aliceNumeric
  /\ "c-alice" ∈ WebSocketService.broadcastToFleet "F1" Scenario.aliceNumeric
  /\ exists socket user,
       sockets Scenario.aliceNumeric !! "c-alice" = Some socket
       /\ WebSocketClient.user socket = Some user
       /\ (Tier.systemWide user
           \/ (Tier.fleetScoped user /\ Claims.fleetId user = JsString "F1")).
Proof.
  assert (fleetSubscriptions Scenario.aliceNumeric !! JsString "F1" = Some {["c-alice"]})
    as Hkey by (vm_compute; reflexivity).
  assert (clients Scenario.aliceNumeric = {["c-alice"]}) as Hclients
    by (vm_compute; reflexivity).
  assert ("c-alice" ∈ WebSocketService.broadcastToFleet "F1" Scenario.aliceNumeric) as Hin.
  { unfold WebSocketService.broadcastToFleet. rewrite Hkey, Hclients.
    apply elem_of_filter. split; [|by apply elem_of_singleton].
    split; [by apply elem_of_singleton|reflexivity]. }
  split; [exact scenario_aliceNumeric_reachable|]. split; [exact Hin|].
  destruct (broadcastToFleet_recipients Scenario.config Scenario.aliceNumeric
              scenario_aliceNumeric_reachable) as [_ Hrecipients].
  destruct (Hrecipients "F1" "c-alice" Hin) as (_ & socket & user & Hs & _ & Hu & Htier).
  exists socket, user. split; [exact Hs|]. split; [exact Hu|exact Htier].
Defined.

(** The channel of F1 has Alice's socket as its one subscriber. *)
Lemma getFleetSubscriberCount_spec_witness :
  HubInvariant.reachable Scenario.config false Scenario.aliceNumeric
  /\ WebSocketService.getFleetSubscriberCount "F1" Scenario.aliceNumeric = 1
  /\ fleetSubscriptions Scenario.aliceNumeric !! JsString "F2" = None
  /\ WebSocketService.getFleetSubscriberCount "F2" Scenario.aliceNumeric = 0.
Proof.
  split; [exact scenario_aliceNumeric_reachable|]. split; [reflexivity|].
  assert (fleetSubscriptions Scenario.aliceNumeric !! JsString "F2" = None) as Hnone
    by reflexivity.
  split; [exact Hnone|].
  exact (proj2 (proj1 (getFleetSubscriberCount_spec Scenario.config Scenario.aliceNumeric
                         "F2" scenario_aliceNumeric_reachable)) Hnone).
Defined.


(** Bob's socket subscribes to the channel of fleet F1 and unsubscribes
    again. *)
Lemma subscribe_unsubscribe_round_trip_witness :
  sockets Scenario.connected !! "c-bob" = Some Scenario.bobSocket
  /\ HubInvariant.populated (fleetSubscriptions Scenario.connected)
  /\ ("fleet:F1" ∉ WebSocketClient.subscriptions Scenario.bobSocket)
  /\ fleetSubscriptions Scenario.connected !! JsString "F1" = None
  /\ WebSocketService.unsubscribeFromFleet "c-bob" (JsString "F1")
       (WebSocketService.subscribeToFleet "c-bob" (JsString "F1") Scenario.connected)
     = Scenario.connected.
Proof.
  assert (sockets Scenario.connected !! "c-bob" = Some Scenario.bobSocket) as Hs
    by (vm_compute; reflexivity).
  assert (fleetSubscriptions Scenario.connected = ∅) as Hempty by reflexivity.
  assert (HubInvariant.populated (fleetSubscriptions Scenario.connected)) as Hpop.
  { intros key subscribers Hkey. rewrite Hempty, lookup_empty in Hkey. discriminate Hkey. }
  assert (fleetSubscriptions Scenario.connected !! JsString "F1" = None) as Hnone.
  { by rewrite Hempty, lookup_empty. }
  split; [exact Hs|]. split; [exact Hpop|].
  assert ("fleet:F1" ∉ WebSocketClient.subscriptions Scenario.bobSocket) as Hnotin
    by apply not_elem_of_empty.
  split; [exact Hnotin|]. split; [exact Hnone|].
  refine (proj1 (subscribe_unsubscribe_round_trip "c-bob" (JsString "F1") Scenario.connected
                   Scenario.bobSocket Hs Hpop Hnotin _)).
  intros subscribers Hkey. rewrite Hnone in Hkey. discriminate Hkey.
Defined.

(** Bob's socket, subscribed to the channel of regulator R-9 under its
    string id, is in no subscriber set after it disconnects. *)
Lemma disconnect_unwinds_string_channels_witness :
  HubInvariant.reachable Scenario.config true Scenario.afterSubscribeR9
  /\ regulatorSubscriptions Scenario.afterSubscribeR9 !! JsString "R-9" = Some {["c-bob"]}
  /\ regulatorSubscriptions
       (WebSocketService.handleDisconnect "c-bob" Scenario.afterSubscribeR9)
       !! JsString "R-9" = None.
Proof.
  split; [exact scenario_afterSubscribeR9_reachable|]. split; [by vm_compute|].
  destruct (disconnect_unwinds_string_channels Scenario.config Scenario.afterSubscribeR9
              "c-bob" scenario_afterSubscribeR9_reachable) as (_ & _ & Hregulator).
  destruct (regulatorSubscriptions
              (WebSocketService.handleDisconnect "c-bob" Scenario.afterSubscribeR9)
              !! JsString "R-9") as [subscribers|] eqn:Hkey; [|reflexivity].
  exfalso. revert Hkey. by vm_compute.
Defined.
